(** * The XGBoost JSON frontend of treelite ([src/frontend/xgboost_json.cc])

    A shallow embedding of the handler stack that turns the event stream of
    a JSON tokenizer into a tree-ensemble model, and of the breadth-first
    reconstruction of one tree from its parallel arrays.

    Integers are [Z] with the C++ conversions written out, vectors are lists,
    indexing past the end of a vector is undefined behaviour and shows up as
    the outcome [Undefined].  Floating-point values stay abstract: the code
    only moves them around. *)

From Stdlib Require Import ZArith Lia Ascii String.
From stdpp Require Import base decidable option list numbers strings
  relations.

Set Default Proof Using "Type".
Local Open Scope Z_scope.

(** ** What the frontend takes from its platform and from treelite *)

(** The C library and the two floating-point types are outside
    [xgboost_json.cc]; the development is parametric in them. *)
Class Platform : Type := {
  (** IEEE binary64 and binary32 values *)
  double : Type;
  float : Type;
  (** [static_cast<float>(double)], the narrowing done when a [double] is
      passed to [Tree<float, float>] *)
  to_float : double -> float;
  (** [strtof(str, nullptr)] and [atoi(str)] *)
  strtof : string -> float;
  atoi : string -> Z;
  (** the part of [treelite::ModelParam] other than [global_bias] *)
  PredTransform : Type;
}.

(** ** Outcomes *)

(** A call either returns, or runs into undefined behaviour, or (in the
    embedding only) exhausts the budget of loop iterations it was given. *)
Inductive res (A : Type) : Type :=
| Ret (a : A)
| Undefined
| OutOfFuel.
Arguments Ret {A} a.
Arguments Undefined {A}.
Arguments OutOfFuel {A}.

Definition bind {A B : Type} (m : res A) (k : A -> res B) : res B :=
  match m with
  | Ret a => k a
  | Undefined => Undefined
  | OutOfFuel => OutOfFuel
  end.

Notation "'let*' x := m 'in' k" := (bind m (fun x => k))
  (at level 10, x pattern, m at level 100, k at level 200).

(** ** Machine integers and vectors *)

Definition int_range (n : Z) : Prop := - 2 ^ 31 <= n < 2 ^ 31.

(** [static_cast<int>] and [static_cast<unsigned>] of an integer value *)
Definition to_int (n : Z) : Z := (n + 2 ^ 31) mod 2 ^ 32 - 2 ^ 31.
Definition to_unsigned (n : Z) : Z := n mod 2 ^ 32.

(** The conversion of an [int] to [std::size_t] that [int != size_t]
    performs before comparing. *)
Definition size_t_of_int (n : Z) : Z := n mod 2 ^ 64.

(** [v.size()] *)
Definition size {A : Type} (v : list A) : Z := Z.of_nat (length v).

(** No [std::vector] holds more than [PTRDIFF_MAX] elements. *)
Definition PTRDIFF_MAX : Z := 2 ^ 63 - 1.
Definition vector_ok {A : Type} (v : list A) : Prop := size v <= PTRDIFF_MAX.

(** [v[i]] for an [int] index: [None] where the access is out of bounds
    (a negative [int] converts to a huge [size_t]). *)
Definition at_ {A : Type} (v : list A) (i : Z) : option A :=
  if decide (0 <= i) then v !! Z.to_nat i else None.

(** [v[i]] as an rvalue: out of bounds is undefined behaviour. *)
Definition index {A : Type} (v : list A) (i : Z) : res A :=
  match at_ v i with
  | Some x => Ret x
  | None => Undefined
  end.

(** ** The output tree container *)

Section Container.
Context `{P : Platform}.

(** Modelled from the spec: [treelite::Operator], the comparison operators
    of a split; the frontend uses "strictly less than", [kLT]. *)
Inductive Operator : Type := kNone | kEQ | kLT | kLE | kGT | kGE.

(** Modelled from the spec: [treelite::Tree<float, float>] of
    [treelite/tree.h], which is not part of [xgboost_json.cc].  A node is a
    leaf holding a value or an internal node holding a feature index, a
    threshold, a default-branch flag and a comparison operator; every node
    carries an optional gain and sum-of-statistics and the IDs of its
    children ([-1] when it has none). *)
Inductive NodeKind : Type :=
| Fresh
| Leaf (leaf_value : float)
| NumericalSplit (split_index : Z) (threshold : float)
                 (default_left : bool) (cmp : Operator).

(** Modelled from the spec: a node of the container. *)
Record Node : Type := mkNode {
  cleft_ : Z;
  cright_ : Z;
  kind_ : NodeKind;
  gain_ : option double;
  sum_hess_ : option double;
}.

End Container.

(** Modelled from the spec: the container numbers its nodes by position
    and hands out new IDs in allocation order. *)
Abbreviation Tree := (list Node).

Section RegTree.
Context `{P : Platform}.

(** Modelled from the spec: a node that has been allocated and not yet
    marked as a leaf or a split. *)
Definition fresh_node : Node :=
  {| cleft_ := -1; cright_ := -1; kind_ := Fresh;
     gain_ := None; sum_hess_ := None |}.

(** Modelled from the spec: [Tree::Init()], "initialize an empty output
    tree": one unmarked node, the root, with new ID 0. *)
Definition Init : Tree := [fresh_node].

(** Modelled from the spec: node ID assignment by the container. *)
Definition AllocNode (t : Tree) : Z * Tree := (size t, t ++ [fresh_node]).

(** Modelled from the spec: an update of node [nid]; a node that does not
    exist cannot be written. *)
Definition update (t : Tree) (nid : Z) (f : Node -> Node) : res Tree :=
  match at_ t nid with
  | Some nd => Ret (<[Z.to_nat nid := f nd]> t)
  | None => Undefined
  end.

(** Modelled from the spec: "allocate two children for the new node". *)
Definition AddChilds (t : Tree) (nid : Z) : res Tree :=
  let '(l, t) := AllocNode t in
  let '(r, t) := AllocNode t in
  update t nid (fun nd =>
    {| cleft_ := l; cright_ := r; kind_ := kind_ nd;
       gain_ := gain_ nd; sum_hess_ := sum_hess_ nd |}).

(** Modelled from the spec: "mark the new node as a leaf with value". *)
Definition SetLeaf (t : Tree) (nid : Z) (value : float) : res Tree :=
  update t nid (fun nd =>
    {| cleft_ := -1; cright_ := -1; kind_ := Leaf value;
       gain_ := gain_ nd; sum_hess_ := sum_hess_ nd |}).

(** Modelled from the spec: "set it as an internal split on feature ...
    with threshold ..., default-branch flag ..., comparison ...". *)
Definition SetNumericalSplit (t : Tree) (nid : Z) (split_index : Z)
    (threshold : float) (default_left : bool) (cmp : Operator) : res Tree :=
  update t nid (fun nd =>
    {| cleft_ := cleft_ nd; cright_ := cright_ nd;
       kind_ := NumericalSplit split_index threshold default_left cmp;
       gain_ := gain_ nd; sum_hess_ := sum_hess_ nd |}).

(** Modelled from the spec: "set gain" and "set sum-of-statistics". *)
Definition SetGain (t : Tree) (nid : Z) (gain : double) : res Tree :=
  update t nid (fun nd =>
    {| cleft_ := cleft_ nd; cright_ := cright_ nd; kind_ := kind_ nd;
       gain_ := Some gain; sum_hess_ := sum_hess_ nd |}).

Definition SetSumHess (t : Tree) (nid : Z) (sum_hess : double) : res Tree :=
  update t nid (fun nd =>
    {| cleft_ := cleft_ nd; cright_ := cright_ nd; kind_ := kind_ nd;
       gain_ := gain_ nd; sum_hess_ := Some sum_hess |}).

(** Modelled from the spec: the new IDs of the children of a node. *)
Definition LeftChild (t : Tree) (nid : Z) : res Z :=
  let* nd := index t nid in Ret (cleft_ nd).

Definition RightChild (t : Tree) (nid : Z) : res Z :=
  let* nd := index t nid in Ret (cright_ nd).

(** ** [RegTreeHandler]: one tree from its parallel arrays *)

(** The private accumulators of a [RegTreeHandler], as its methods use
    them (the class is declared in [xgboost_json.h]).  [num_nodes] is
    assigned by the nested [TreeParamHandler]; until then it holds no
    value, and reading it is undefined behaviour. *)
Record RegTreeHandler : Type := mkRegTreeHandler {
  loss_changes : list double;
  sum_hessian : list double;
  base_weights : list double;
  leaf_child_counts : list Z;
  left_children : list Z;
  right_children : list Z;
  parents : list Z;
  split_indices : list Z;
  split_conditions : list double;
  default_left : list bool;
  num_nodes : option Z;
}.

Definition ne_size {A : Type} (n : Z) (v : list A) : bool :=
  negb (size_t_of_int n =? size v).

(** The condition of the [if] at the head of [RegTreeHandler::EndObject]. *)
Definition size_mismatch (n : Z) (h : RegTreeHandler) : bool :=
  ne_size n (loss_changes h) || ne_size n (sum_hessian h) ||
  ne_size n (base_weights h) ||
  ne_size n (leaf_child_counts h) ||
  ne_size n (left_children h) ||
  ne_size n (right_children h) || ne_size n (parents h) ||
  ne_size n (split_indices h) ||
  ne_size n (split_conditions h) ||
  ne_size n (default_left h).

(** The [while (!Q.empty())] loop of [RegTreeHandler::EndObject]; [Q] is the
    queue of (old ID, new ID) pairs, front first. *)
Fixpoint reconstruct (fuel : nat) (h : RegTreeHandler) (Q : list (Z * Z))
    (output : Tree) : res Tree :=
  match Q with
  | [] => Ret output
  | (old_id, new_id) :: Q =>
    match fuel with
    | O => OutOfFuel
    | S fuel =>
      let* lc := index (left_children h) old_id in
      let* (output, Q) :=
        if lc =? -1 then
          let* sc := index (split_conditions h) old_id in
          let* output := SetLeaf output new_id (to_float sc) in
          Ret (output, Q)
        else
          let* output := AddChilds output new_id in
          let* si := index (split_indices h) old_id in
          let* sc := index (split_conditions h) old_id in
          let* dl := index (default_left h) old_id in
          let* output :=
            SetNumericalSplit output new_id si (to_float sc) dl kLT in
          let* gain := index (loss_changes h) old_id in
          let* output := SetGain output new_id gain in
          let* lc := index (left_children h) old_id in
          let* l := LeftChild output new_id in
          let Q := Q ++ [(lc, l)] in
          let* rc := index (right_children h) old_id in
          let* r := RightChild output new_id in
          let Q := Q ++ [(rc, r)] in
          Ret (output, Q) in
      let* sh := index (sum_hessian h) old_id in
      let* output := SetSumHess output new_id sh in
      reconstruct fuel h Q output
    end
  end.

(** [RegTreeHandler::EndObject] up to its final [pop_handler()]: the tree
    left in [output] and whether the handler goes on to pop itself
    ([true]) or has returned [false]. *)
Definition RegTreeHandler_EndObject_body (fuel : nat) (h : RegTreeHandler)
    : res (bool * Tree) :=
  let output := Init in
  match num_nodes h with
  | None => Undefined
  | Some n =>
    if size_mismatch n h then Ret (false, output)
    else
      let* output := reconstruct fuel h [(0, 0)] output in
      Ret (true, output)
  end.

End RegTree.

(** ** The model under construction *)

Section Model.
Context `{P : Platform}.

(** Modelled from the spec: [treelite::ModelParam], the global bias and
    the prediction-transform selector derived from the objective name. *)
Record ModelParam : Type := mkModelParam {
  global_bias : float;
  pred_transform : PredTransform;
}.

(** Modelled from the spec: [treelite::ModelImpl<float, float>], the
    global parameters and the ordered sequence of output trees, with the
    fields the frontend assigns. *)
Record ModelImpl : Type := mkModelImpl {
  trees : list Tree;
  num_feature : Z;
  num_output_group : Z;
  random_forest_flag : bool;
  param : ModelParam;
}.

End Model.

(** The helpers of [xgboost/xgboost.h] and the model constructor, which
    [xgboost_json.cc] calls and does not define. *)
Class Treelite `{P : Platform} : Type := {
  SetPredTransform : string -> ModelParam -> ModelParam;
  TransformGlobalBiasToMargin : ModelParam -> ModelParam;
  (** [treelite::Model::Create<float, float>()] *)
  Model_Create : ModelImpl;
}.

(** ** Handlers and the delegation stack *)

Section Handlers.
Context `{T : Treelite}.

(** Modelled from the spec: the parse events of the tokenizer
    ([rapidjson::Reader]), one for each method of [DelegatedHandler]. *)
Inductive Event : Type :=
| ENull
| EBool (b : bool)
| EInt (i : Z)
| EUint (u : Z)
| EInt64 (i : Z)
| EUint64 (u : Z)
| EDouble (d : double)
| EString (str : string)
| EStartObject
| EKey (str : string)
| EEndObject (memberCount : Z)
| EStartArray
| EEndArray (elementCount : Z).

(** The vectors of the enclosing [RegTreeHandler] an [ArrayHandler] can be
    bound to. *)
Inductive double_ref : Type :=
| ref_loss_changes | ref_sum_hessian | ref_base_weights | ref_split_conditions.

Inductive int_ref : Type :=
| ref_leaf_child_counts | ref_left_children | ref_right_children
| ref_parents | ref_split_indices.

(** The handler classes of [xgboost_json.h] with the private members
    their methods use.  The [output] reference each one holds is resolved
    against the enclosing handler or the model: see the accessors below. *)
Inductive HandlerState : Type :=
| RootHandler
| XGBoostModelHandler (version : list Z)
| LearnerHandler (objective : string)
| LearnerParamHandler
| GradientBoosterHandler
| GBTreeModelHandler
| ObjectiveHandler
| RegTree (h : RegTreeHandler)
| TreeParamHandler
| IgnoreHandler
| ArrayHandler_double (output : double_ref)
| ArrayHandler_int (output : int_ref)
| ArrayHandler_bool
| ArrayHandler_unsigned
| ArrayHandler_Tree.

(** [BaseHandler]: every handler has a current key. *)
Record Handler : Type := mkHandler {
  cur_key : string;
  state : HandlerState;
}.

(** [DelegatedHandler]: the stack of delegates (top first), the model being
    built, whether the weak pointer the handlers hold to it can still be
    locked, and what has been logged at error level. *)
Record Delegator : Type := mkDelegator {
  delegates : list Handler;
  result : ModelImpl;
  alive : bool;
  log : list string;
}.

(** Handler methods run on the delegator whose top delegate is [this]. *)
Definition M (A : Type) : Type := Delegator -> res (A * Delegator).

Definition ret {A : Type} (a : A) : M A := fun d => Ret (a, d).

Definition bindM {A B : Type} (m : M A) (k : A -> M B) : M B :=
  fun d => let* (a, d) := m d in k a d.

Definition lift {A : Type} (r : res A) : M A :=
  fun d => let* a := r in Ret (a, d).

Definition undefined {A : Type} : M A := fun _ => Undefined.

End Handlers.

Notation "'let!' x := m 'in' k" := (bindM m (fun x => k))
  (at level 10, x pattern, m at level 100, k at level 200).

(** The short-circuit [||] of two calls that return [bool]. *)
Definition orelse `{T : Treelite} (a b : M bool) : M bool :=
  let! r := a in if r : bool then ret true else b.
Infix "|||" := orelse (at level 50, left associativity).

Section Methods.
Context `{T : Treelite}.

Definition set_delegates (ds : list Handler) : M unit :=
  fun d => Ret (tt, {| delegates := ds; result := result d;
                       alive := alive d; log := log d |}).

Definition get_delegates : M (list Handler) :=
  fun d => Ret (delegates d, d).

(** [LOG(ERROR) << msg] *)
Definition LOG_ERROR (msg : string) : M unit :=
  fun d => Ret (tt, {| delegates := delegates d; result := result d;
                       alive := alive d; log := log d ++ [msg] |}).

(** *** References *)

(** [*this]: the top delegate. *)
Definition this : M Handler :=
  let! ds := get_delegates in
  match ds with
  | h :: _ => ret h
  | [] => undefined
  end.

Definition set_this (h : Handler) : M unit :=
  let! ds := get_delegates in
  match ds with
  | _ :: ds => set_delegates (h :: ds)
  | [] => undefined
  end.

(** The handler that pushed [this]; child handlers write through to its
    members. *)
Definition enclosing : M Handler :=
  let! ds := get_delegates in
  match ds with
  | _ :: h :: _ => ret h
  | _ => undefined
  end.

Definition set_enclosing (h : Handler) : M unit :=
  let! ds := get_delegates in
  match ds with
  | c :: _ :: ds => set_delegates (c :: h :: ds)
  | _ => undefined
  end.

(** The [ModelImpl &output] of the composite handlers. *)
Definition get_model : M ModelImpl := fun d => Ret (result d, d).

Definition set_model (m : ModelImpl) : M unit :=
  fun d => Ret (tt, {| delegates := delegates d; result := m;
                       alive := alive d; log := log d |}).

Definition set_global_bias (v : float) : M unit :=
  let! m := get_model in
  set_model {| trees := trees m; num_feature := num_feature m;
               num_output_group := num_output_group m;
               random_forest_flag := random_forest_flag m;
               param := {| global_bias := v;
                           pred_transform := pred_transform (param m) |} |}.

Definition set_num_output_group (v : Z) : M unit :=
  let! m := get_model in
  set_model {| trees := trees m; num_feature := num_feature m;
               num_output_group := v;
               random_forest_flag := random_forest_flag m;
               param := param m |}.

Definition set_num_feature (v : Z) : M unit :=
  let! m := get_model in
  set_model {| trees := trees m; num_feature := v;
               num_output_group := num_output_group m;
               random_forest_flag := random_forest_flag m;
               param := param m |}.

Definition set_random_forest_flag (v : bool) : M unit :=
  let! m := get_model in
  set_model {| trees := trees m; num_feature := num_feature m;
               num_output_group := num_output_group m;
               random_forest_flag := v;
               param := param m |}.

Definition set_param (v : ModelParam) : M unit :=
  let! m := get_model in
  set_model {| trees := trees m; num_feature := num_feature m;
               num_output_group := num_output_group m;
               random_forest_flag := random_forest_flag m;
               param := v |}.

Definition set_trees (v : list Tree) : M unit :=
  let! m := get_model in
  set_model {| trees := v; num_feature := num_feature m;
               num_output_group := num_output_group m;
               random_forest_flag := random_forest_flag m;
               param := param m |}.

(** The members of a [RegTreeHandler] that is [this]. *)
Definition this_RegTree : M RegTreeHandler :=
  let! h := this in
  match state h with
  | RegTree r => ret r
  | _ => undefined
  end.

(** The [Tree &output] of a [RegTreeHandler]: the last element of
    [output.trees], put there when the handler was pushed. *)
Definition set_output_tree (t : Tree) : M unit :=
  let! m := get_model in
  match trees m with
  | [] => undefined
  | ts => set_trees (removelast ts ++ [t])
  end.

(** The members of the [RegTreeHandler] that encloses [this]. *)
Definition enclosing_RegTree : M RegTreeHandler :=
  let! h := enclosing in
  match state h with
  | RegTree r => ret r
  | _ => undefined
  end.

Definition set_enclosing_RegTree (r : RegTreeHandler) : M unit :=
  let! h := enclosing in
  set_enclosing {| cur_key := cur_key h; state := RegTree r |}.

Definition with_num_nodes (v : Z) (r : RegTreeHandler) : RegTreeHandler :=
  {| loss_changes := loss_changes r; sum_hessian := sum_hessian r;
     base_weights := base_weights r;
     leaf_child_counts := leaf_child_counts r;
     left_children := left_children r;
     right_children := right_children r; parents := parents r;
     split_indices := split_indices r;
     split_conditions := split_conditions r;
     default_left := default_left r; num_nodes := Some v |}.

(** [int &output] of a [TreeParamHandler]: [num_nodes] of the enclosing
    [RegTreeHandler]. *)
Definition set_num_nodes (v : Z) : M unit :=
  let! r := enclosing_RegTree in
  set_enclosing_RegTree (with_num_nodes v r).

(** [std::string &output] of an [ObjectiveHandler]: [objective] of the
    enclosing [LearnerHandler]. *)
Definition set_objective (v : string) : M unit :=
  let! h := enclosing in
  match state h with
  | LearnerHandler _ =>
    set_enclosing {| cur_key := cur_key h; state := LearnerHandler v |}
  | _ => undefined
  end.

(** *** [BaseHandler] *)

(** [delegator.lock()]: whether the delegator is still there. *)
Definition lock : M bool := fun d => Ret (alive d, d).

(** [Delegator::pop_delegate] and [Delegator::push_delegate] *)
Definition pop_delegate : M unit :=
  let! ds := get_delegates in
  match ds with
  | _ :: ds => set_delegates ds
  | [] => undefined
  end.

Definition push_delegate (h : Handler) : M unit :=
  let! ds := get_delegates in set_delegates (h :: ds).

(** [BaseHandler::pop_handler] *)
Definition pop_handler : M bool :=
  let! parent := lock in
  if parent : bool then
    let! _ := pop_delegate in
    ret true
  else
    ret false.

(** [BaseHandler::set_cur_key], [get_cur_key] and [check_cur_key] *)
Definition set_cur_key (str : string) : M unit :=
  let! h := this in set_this {| cur_key := str; state := state h |}.

Definition get_cur_key : M string :=
  let! h := this in ret (cur_key h).

Definition check_cur_key (query_key : string) : M bool :=
  let! k := get_cur_key in ret (bool_decide (k = query_key)).

(** [BaseHandler::assign_value]; the reference [output] is the setter of
    the object it refers to. *)
Definition assign_value {V : Type} (key : string) (value : V)
    (output : V -> M unit) : M bool :=
  let! c := check_cur_key key in
  if c : bool then
    let! _ := output value in
    ret true
  else
    ret false.

(** Modelled from the spec: [BaseHandler::push_handler] and
    [push_key_handler] of [xgboost_json.h]: a handler pushes a child
    handler, which starts with an empty current key; with a key, it does
    so when the current key matches. *)
Definition push_handler (child : HandlerState) : M bool :=
  let! parent := lock in
  if parent : bool then
    let! _ := push_delegate {| cur_key := ""; state := child |} in
    ret true
  else
    ret false.

Definition push_key_handler (key : string) (child : HandlerState) : M bool :=
  let! c := check_cur_key key in
  if c : bool then
    let! _ := push_handler child in
    ret true
  else
    ret false.

(** Modelled from the spec: the methods [BaseHandler] gives a handler that
    does not override them: a key is remembered, the end of an object or
    array pops the handler, every other event is rejected. *)
Definition BaseHandler_event (e : Event) : M bool :=
  match e with
  | EKey str => let! _ := set_cur_key str in ret true
  | EEndObject _ | EEndArray _ => pop_handler
  | _ => ret false
  end.

(** *** [IgnoreHandler] *)

Definition IgnoreHandler_event (e : Event) : M bool :=
  match e with
  | ENull | EBool _ | EInt _ | EUint _ | EInt64 _ | EUint64 _
  | EDouble _ | EString _ => ret true
  | EStartObject => push_handler IgnoreHandler
  | EKey _ => ret true
  | EStartArray => push_handler IgnoreHandler
  | _ => BaseHandler_event e
  end.

(** *** [TreeParamHandler] *)

Definition TreeParamHandler_String (str : string) : M bool :=
  check_cur_key "num_feature" |||
  assign_value "num_nodes" (atoi str) set_num_nodes |||
  check_cur_key "size_leaf_vector" ||| check_cur_key "num_deleted".

Definition TreeParamHandler_event (e : Event) : M bool :=
  match e with
  | EString str => TreeParamHandler_String str
  | _ => BaseHandler_event e
  end.

(** *** [RegTreeHandler] *)

Definition RegTreeHandler_StartArray : M bool :=
  push_key_handler "loss_changes" (ArrayHandler_double ref_loss_changes) |||
  push_key_handler "sum_hessian" (ArrayHandler_double ref_sum_hessian) |||
  push_key_handler "base_weights" (ArrayHandler_double ref_base_weights) |||
  push_key_handler "categories" IgnoreHandler |||
  push_key_handler "leaf_child_counts"
                   (ArrayHandler_int ref_leaf_child_counts) |||
  push_key_handler "left_children" (ArrayHandler_int ref_left_children) |||
  push_key_handler "right_children" (ArrayHandler_int ref_right_children) |||
  push_key_handler "parents" (ArrayHandler_int ref_parents) |||
  push_key_handler "split_indices" (ArrayHandler_int ref_split_indices) |||
  push_key_handler "split_type" IgnoreHandler |||
  push_key_handler "split_conditions"
                   (ArrayHandler_double ref_split_conditions) |||
  push_key_handler "default_left" ArrayHandler_bool.

Definition RegTreeHandler_StartObject : M bool :=
  push_key_handler "tree_param" TreeParamHandler.

Definition RegTreeHandler_Uint (u : Z) : M bool := check_cur_key "id".

(** [RegTreeHandler::EndObject]: the tree is built in [output], then the
    handler pops itself. *)
Definition RegTreeHandler_EndObject (fuel : nat) (memberCount : Z) : M bool :=
  let! h := this_RegTree in
  let! (ok, output) := lift (RegTreeHandler_EndObject_body fuel h) in
  let! _ := set_output_tree output in
  if ok : bool then pop_handler else ret false.

Definition RegTreeHandler_event (fuel : nat) (e : Event) : M bool :=
  match e with
  | EStartArray => RegTreeHandler_StartArray
  | EStartObject => RegTreeHandler_StartObject
  | EUint u => RegTreeHandler_Uint u
  | EEndObject memberCount => RegTreeHandler_EndObject fuel memberCount
  | _ => BaseHandler_event e
  end.

(** *** [ArrayHandler] *)

Definition empty_RegTreeHandler : RegTreeHandler :=
  {| loss_changes := []; sum_hessian := []; base_weights := [];
     leaf_child_counts := []; left_children := []; right_children := [];
     parents := []; split_indices := []; split_conditions := [];
     default_left := []; num_nodes := None |}.

Definition push_back_double (output : double_ref) (d : double)
    (r : RegTreeHandler) : RegTreeHandler :=
  {| loss_changes :=
       match output with
       | ref_loss_changes => loss_changes r ++ [d] | _ => loss_changes r
       end;
     sum_hessian :=
       match output with
       | ref_sum_hessian => sum_hessian r ++ [d] | _ => sum_hessian r
       end;
     base_weights :=
       match output with
       | ref_base_weights => base_weights r ++ [d] | _ => base_weights r
       end;
     leaf_child_counts := leaf_child_counts r;
     left_children := left_children r;
     right_children := right_children r;
     parents := parents r;
     split_indices := split_indices r;
     split_conditions :=
       match output with
       | ref_split_conditions => split_conditions r ++ [d]
       | _ => split_conditions r
       end;
     default_left := default_left r;
     num_nodes := num_nodes r |}.

Definition push_back_int (output : int_ref) (i : Z)
    (r : RegTreeHandler) : RegTreeHandler :=
  {| loss_changes := loss_changes r;
     sum_hessian := sum_hessian r;
     base_weights := base_weights r;
     leaf_child_counts :=
       match output with
       | ref_leaf_child_counts => leaf_child_counts r ++ [i]
       | _ => leaf_child_counts r
       end;
     left_children :=
       match output with
       | ref_left_children => left_children r ++ [i] | _ => left_children r
       end;
     right_children :=
       match output with
       | ref_right_children => right_children r ++ [i]
       | _ => right_children r
       end;
     parents :=
       match output with
       | ref_parents => parents r ++ [i] | _ => parents r
       end;
     split_indices :=
       match output with
       | ref_split_indices => split_indices r ++ [i] | _ => split_indices r
       end;
     split_conditions := split_conditions r;
     default_left := default_left r;
     num_nodes := num_nodes r |}.

Definition push_back_bool (b : bool) (r : RegTreeHandler) : RegTreeHandler :=
  {| loss_changes := loss_changes r;
     sum_hessian := sum_hessian r;
     base_weights := base_weights r;
     leaf_child_counts := leaf_child_counts r;
     left_children := left_children r;
     right_children := right_children r;
     parents := parents r;
     split_indices := split_indices r;
     split_conditions := split_conditions r;
     default_left := default_left r ++ [b];
     num_nodes := num_nodes r |}.

(** [output.push_back] through the reference into the enclosing
    [RegTreeHandler]. *)
Definition store (f : RegTreeHandler -> RegTreeHandler) : M bool :=
  let! r := enclosing_RegTree in
  let! _ := set_enclosing_RegTree (f r) in
  ret true.

(** [output.push_back] on the [version] of the enclosing
    [XGBoostModelHandler]. *)
Definition store_version (u : Z) : M bool :=
  let! h := enclosing in
  match state h with
  | XGBoostModelHandler version =>
    let! _ :=
      set_enclosing
        {| cur_key := cur_key h;
           state := XGBoostModelHandler (version ++ [u]) |} in
    ret true
  | _ => undefined
  end.

(** Modelled from the spec: [ArrayHandler<ElemType>] of [xgboost_json.h],
    the array accumulator: it appends each primitive event of the expected
    scalar kind (an integer event is converted to the element type) and
    rejects the others; the accumulator of trees starts a [RegTreeHandler]
    on a new last element of [output.trees] at each nested object. *)
Definition ArrayHandler_double_event (output : double_ref) (e : Event)
    : M bool :=
  match e with
  | EDouble d => store (push_back_double output d)
  | _ => BaseHandler_event e
  end.

Definition ArrayHandler_int_event (output : int_ref) (e : Event) : M bool :=
  match e with
  | EInt i | EUint i | EInt64 i | EUint64 i =>
    store (push_back_int output (to_int i))
  | _ => BaseHandler_event e
  end.

Definition ArrayHandler_bool_event (e : Event) : M bool :=
  match e with
  | EBool b => store (push_back_bool b)
  | _ => BaseHandler_event e
  end.

Definition ArrayHandler_unsigned_event (e : Event) : M bool :=
  match e with
  | EInt i | EUint i | EInt64 i | EUint64 i => store_version (to_unsigned i)
  | _ => BaseHandler_event e
  end.

Definition ArrayHandler_Tree_event (e : Event) : M bool :=
  match e with
  | EStartObject =>
    let! m := get_model in
    let! _ := set_trees (trees m ++ [[]]) in
    push_handler (RegTree empty_RegTreeHandler)
  | _ => BaseHandler_event e
  end.

(** *** [GBTreeModelHandler] *)

Definition GBTreeModelHandler_StartArray : M bool :=
  push_key_handler "trees" ArrayHandler_Tree |||
  push_key_handler "tree_info" IgnoreHandler.

Definition GBTreeModelHandler_StartObject : M bool :=
  push_key_handler "gbtree_model_param" IgnoreHandler.

Definition GBTreeModelHandler_event (e : Event) : M bool :=
  match e with
  | EStartArray => GBTreeModelHandler_StartArray
  | EStartObject => GBTreeModelHandler_StartObject
  | _ => BaseHandler_event e
  end.

(** *** [GradientBoosterHandler] *)

Definition GradientBoosterHandler_String (str : string) : M bool :=
  let! c := check_cur_key "name" in
  if negb c then
    ret false
  else
    let name := str in
    if negb (bool_decide (name = "gbtree")) then
      let! _ :=
        LOG_ERROR "Only GBTree-type boosters are currently supported." in
      ret false
    else
      ret true.

Definition quote : string := String "034"%char EmptyString.

Definition GradientBoosterHandler_StartObject : M bool :=
  let! pushed := push_key_handler "model" GBTreeModelHandler in
  if pushed : bool then
    ret true
  else
    let! k := get_cur_key in
    let! _ :=
      LOG_ERROR ("Key " +:+ quote +:+ k +:+ quote +:+
                 " not recognized. Is this a GBTree-type booster?") in
    ret false.

Definition GradientBoosterHandler_event (e : Event) : M bool :=
  match e with
  | EString str => GradientBoosterHandler_String str
  | EStartObject => GradientBoosterHandler_StartObject
  | _ => BaseHandler_event e
  end.

(** *** [ObjectiveHandler] *)

Definition ObjectiveHandler_StartObject : M bool :=
  push_key_handler "reg_loss_param" IgnoreHandler |||
  push_key_handler "poisson_regression_param" IgnoreHandler |||
  push_key_handler "tweedie_regression_param" IgnoreHandler |||
  push_key_handler "softmax_multiclass_param" IgnoreHandler |||
  push_key_handler "lambda_rank_param" IgnoreHandler |||
  push_key_handler "aft_loss_param" IgnoreHandler.

Definition ObjectiveHandler_String (str : string) : M bool :=
  assign_value "name" str set_objective.

Definition ObjectiveHandler_event (e : Event) : M bool :=
  match e with
  | EStartObject => ObjectiveHandler_StartObject
  | EString str => ObjectiveHandler_String str
  | _ => BaseHandler_event e
  end.

(** *** [LearnerParamHandler] *)

Definition LearnerParamHandler_String (str : string) : M bool :=
  assign_value "base_score" (strtof str) set_global_bias |||
  assign_value "num_class" (Z.max (atoi str) 1) set_num_output_group |||
  assign_value "num_feature" (atoi str) set_num_feature.

Definition LearnerParamHandler_event (e : Event) : M bool :=
  match e with
  | EString str => LearnerParamHandler_String str
  | _ => BaseHandler_event e
  end.

(** *** [LearnerHandler] *)

Definition LearnerHandler_StartObject : M bool :=
  push_key_handler "learner_model_param" LearnerParamHandler |||
  push_key_handler "gradient_booster" GradientBoosterHandler |||
  push_key_handler "objective" ObjectiveHandler |||
  push_key_handler "attributes" IgnoreHandler.

Definition LearnerHandler_EndObject (objective : string) (memberCount : Z)
    : M bool :=
  let! m := get_model in
  let! _ := set_param (SetPredTransform objective (param m)) in
  pop_handler.

Definition LearnerHandler_event (objective : string) (e : Event) : M bool :=
  match e with
  | EStartObject => LearnerHandler_StartObject
  | EEndObject memberCount => LearnerHandler_EndObject objective memberCount
  | _ => BaseHandler_event e
  end.

(** *** [XGBoostModelHandler] *)

Definition XGBoostModelHandler_StartArray : M bool :=
  push_key_handler "version" ArrayHandler_unsigned.

Definition XGBoostModelHandler_StartObject : M bool :=
  push_key_handler "learner" (LearnerHandler "").

Definition XGBoostModelHandler_EndObject (version : list Z) (memberCount : Z)
    : M bool :=
  if negb (memberCount =? 2) then
    ret false
  else
    let! _ := set_random_forest_flag false in
    let! v0 := lift (index version 0) in
    let need_transform_to_margin := 1 <=? v0 in
    let! _ :=
      if need_transform_to_margin then
        let! m := get_model in
        set_param (TransformGlobalBiasToMargin (param m))
      else ret tt in
    pop_handler.

Definition XGBoostModelHandler_event (version : list Z) (e : Event)
    : M bool :=
  match e with
  | EStartArray => XGBoostModelHandler_StartArray
  | EStartObject => XGBoostModelHandler_StartObject
  | EEndObject memberCount => XGBoostModelHandler_EndObject version memberCount
  | _ => BaseHandler_event e
  end.

(** *** [RootHandler] *)

Definition RootHandler_StartObject : M bool :=
  push_handler (XGBoostModelHandler []).

Definition RootHandler_event (e : Event) : M bool :=
  match e with
  | EStartObject => RootHandler_StartObject
  | _ => BaseHandler_event e
  end.

(** *** [DelegatedHandler] *)

(** Every event goes to [delegates.top()]; the virtual call selects the
    method of the top handler's class. *)
Definition DelegatedHandler_event (fuel : nat) (e : Event) : M bool :=
  let! top := this in
  match state top with
  | RootHandler => RootHandler_event e
  | XGBoostModelHandler version => XGBoostModelHandler_event version e
  | LearnerHandler objective => LearnerHandler_event objective e
  | LearnerParamHandler => LearnerParamHandler_event e
  | GradientBoosterHandler => GradientBoosterHandler_event e
  | GBTreeModelHandler => GBTreeModelHandler_event e
  | ObjectiveHandler => ObjectiveHandler_event e
  | RegTree _ => RegTreeHandler_event fuel e
  | TreeParamHandler => TreeParamHandler_event e
  | IgnoreHandler => IgnoreHandler_event e
  | ArrayHandler_double output => ArrayHandler_double_event output e
  | ArrayHandler_int output => ArrayHandler_int_event output e
  | ArrayHandler_bool => ArrayHandler_bool_event e
  | ArrayHandler_unsigned => ArrayHandler_unsigned_event e
  | ArrayHandler_Tree => ArrayHandler_Tree_event e
  end.

(** [DelegatedHandler::create]: an empty model and the root handler. *)
Definition create : Delegator :=
  {| delegates := [ {| cur_key := ""; state := RootHandler |} ];
     result := Model_Create; alive := true; log := [] |}.

(** ** [ParseStream] *)

(** Modelled from the spec: [rapidjson::Reader::Parse] on the events of the
    input: each event is forwarded to the handler, and the first one the
    handler rejects ends the parse with an error. *)
Fixpoint Parse (fuel : nat) (events : list Event) : M bool :=
  match events with
  | [] => ret true
  | e :: events =>
    let! accepted := DelegatedHandler_event fuel e in
    if accepted : bool then Parse fuel events else ret false
  end.

(** What a load ends in: the model, or the fatal error
    ["Provided JSON could not be parsed as XGBoost model"] after the
    error-level lines logged by the handlers. *)
Inductive Load : Type :=
| Model (m : ModelImpl)
| Fatal (errors : list string).

Definition ParseStream (fuel : nat) (input_stream : list Event) : res Load :=
  let handler := create in
  let* (result_, handler) := Parse fuel input_stream handler in
  if negb result_ then
    Ret (Fatal (log handler))
  else
    Ret (Model (result handler)).

End Methods.

(** * Specification *)

Section Specification.
Context `{P : Platform}.
Implicit Types (h : RegTreeHandler).

(** ** What it means for the arrays to encode a tree, and for the output
       to reproduce it *)

(** The shape of a binary tree in which every internal node has two
    children. *)
Inductive shape : Type :=
| SLeaf
| SNode (l r : shape).

Fixpoint nodes (t : shape) : nat :=
  match t with
  | SLeaf => 1
  | SNode l r => S (nodes l + nodes r)
  end.

(** [encodes h i t]: read from old ID [i], the child arrays of [h] describe
    a tree of shape [t]: [left_children[i] == -1] at its leaves, two
    children inside the arrays at its internal nodes. *)
Inductive encodes (h : RegTreeHandler) : Z -> shape -> Prop :=
| encodes_leaf i :
    at_ (left_children h) i = Some (-1) ->
    encodes h i SLeaf
| encodes_node i lc rc l r :
    at_ (left_children h) i = Some lc -> lc <> -1 ->
    at_ (right_children h) i = Some rc ->
    encodes h lc l -> encodes h rc r ->
    encodes h i (SNode l r).

(** All ten arrays have the declared length. *)
Definition sizes_agree (n : Z) (h : RegTreeHandler) : Prop :=
  size (loss_changes h) = n /\ size (sum_hessian h) = n /\
  size (base_weights h) = n /\ size (leaf_child_counts h) = n /\
  size (left_children h) = n /\ size (right_children h) = n /\
  size (parents h) = n /\ size (split_indices h) = n /\
  size (split_conditions h) = n /\ size (default_left h) = n.

(** The premise of the reconstruction: [num_nodes] was declared, is an
    [int], every array has that length, and the arrays encode a tree of
    shape [t] rooted at old ID 0. *)
Definition well_formed (h : RegTreeHandler) (t : shape) : Prop :=
  exists n, num_nodes h = Some n /\ int_range n /\ sizes_agree n h /\
            encodes h 0 t.

(** [mirrors h out old new]: in the output tree [out], the node with new ID
    [new] reproduces old ID [old], and so do all nodes below it. *)
Inductive mirrors (h : RegTreeHandler) (out : Tree) : Z -> Z -> Prop :=
| mirrors_leaf old new sc sh nd :
    at_ (left_children h) old = Some (-1) ->
    at_ (split_conditions h) old = Some sc ->
    at_ (sum_hessian h) old = Some sh ->
    at_ out new = Some nd ->
    kind_ nd = Leaf (to_float sc) ->
    cleft_ nd = -1 -> cright_ nd = -1 ->
    sum_hess_ nd = Some sh ->
    mirrors h out old new
| mirrors_split old new lc rc si sc dl g sh nd :
    at_ (left_children h) old = Some lc -> lc <> -1 ->
    at_ (right_children h) old = Some rc ->
    at_ (split_indices h) old = Some si ->
    at_ (split_conditions h) old = Some sc ->
    at_ (default_left h) old = Some dl ->
    at_ (loss_changes h) old = Some g ->
    at_ (sum_hessian h) old = Some sh ->
    at_ out new = Some nd ->
    kind_ nd = NumericalSplit si (to_float sc) dl kLT ->
    gain_ nd = Some g ->
    sum_hess_ nd = Some sh ->
    mirrors h out lc (cleft_ nd) ->
    mirrors h out rc (cright_ nd) ->
    mirrors h out old new.

(** Every vector of the handler has a size a [std::vector] can have. *)
Definition vectors_ok h : Prop :=
  vector_ok (loss_changes h) /\ vector_ok (sum_hessian h) /\
  vector_ok (base_weights h) /\ vector_ok (leaf_child_counts h) /\
  vector_ok (left_children h) /\ vector_ok (right_children h) /\
  vector_ok (parents h) /\ vector_ok (split_indices h) /\
  vector_ok (split_conditions h) /\ vector_ok (default_left h).

(** Two tree handlers that hold the same arrays, but for the contents of
    [base_weights] and [leaf_child_counts]. *)
Definition same_but_unused h1 h2 : Prop :=
  loss_changes h1 = loss_changes h2 /\
  sum_hessian h1 = sum_hessian h2 /\
  left_children h1 = left_children h2 /\
  right_children h1 = right_children h2 /\
  parents h1 = parents h2 /\
  split_indices h1 = split_indices h2 /\
  split_conditions h1 = split_conditions h2 /\
  default_left h1 = default_left h2 /\
  num_nodes h1 = num_nodes h2 /\
  length (base_weights h1) = length (base_weights h2) /\
  length (leaf_child_counts h1) = length (leaf_child_counts h2).

(** What a call leaves for the rest of the load to see: the value it
    returned and the model. *)
Definition seen (r : res (bool * Delegator)) : res (bool * ModelImpl) :=
  let* (ok, d) := r in Ret (ok, result d).

(** ** Auxiliary notions of the loop invariant *)

(** The node a leaf visit leaves behind, and the one a split visit does. *)
Definition leaf_node (nd : Node) (v : float) (sh : double) : Node :=
  {| cleft_ := -1; cright_ := -1; kind_ := Leaf v;
     gain_ := gain_ nd; sum_hess_ := Some sh |}.

Definition split_node (l r si : Z) (v : float) (dl : bool) (g sh : double)
    : Node :=
  {| cleft_ := l; cright_ := r; kind_ := NumericalSplit si v dl kLT;
     gain_ := Some g; sum_hess_ := Some sh |}.

(** A work item pairs a queue entry with the shape its old ID encodes. *)
Definition weight (W : list (Z * Z * shape)) : nat :=
  sum_list_with (fun w => nodes w.2) W.

Definition new_ids (W : list (Z * Z * shape)) : list Z := (snd ∘ fst) <$> W.

End Specification.

(** ** The delegation stack during a load *)

Section Discipline.
Context `{T : Treelite}.

(** Where a handler belongs: the root handler at the bottom of the stack,
    the handler of the top-level model object right above it, every other
    handler further up. *)
Inductive place : Type := at_root | at_model | inside.

Definition place_of_state (st : HandlerState) : place :=
  match st with
  | RootHandler => at_root
  | XGBoostModelHandler _ => at_model
  | _ => inside
  end.

Definition place_of (h : Handler) : place := place_of_state (state h).

Definition places (d : Delegator) : list place := place_of <$> delegates d.

(** The stacks a load goes through: the root handler alone; the model
    handler on the root handler; other handlers on top of those two. *)
Fixpoint stack_ok (ps : list place) : Prop :=
  match ps with
  | [] => False
  | at_root :: ps => ps = []
  | at_model :: ps => ps = [at_root]
  | inside :: ps => (2 <= length ps)%nat /\ stack_ok ps
  end.

(** What an accepted call does to the stack. *)
Inductive effect : Type := Push (p : place) | Pop | Keep.

Definition moved (eff : effect) (d d' : Delegator) : Prop :=
  match eff with
  | Push p => places d' = p :: places d
  | Pop => exists p, places d = p :: places d'
  | Keep => places d' = places d
  end.

(** [sat c eff]: run on a live delegator, [c] leaves it live; where it
    returns [true] the stack has moved by [eff], where it returns [false]
    the stack is as it was. *)
Definition sat (c : M bool) (eff : effect) : Prop :=
  forall d ok d',
    alive d = true -> c d = Ret (ok, d') ->
    alive d' = true /\
    if ok : bool then moved eff d d' else places d' = places d.

(** [quiet c]: [c] changes neither the liveness nor the places of the
    stack. *)
Definition quiet {A : Type} (c : M A) : Prop :=
  forall d a d',
    c d = Ret (a, d') -> alive d' = alive d /\ places d' = places d.

(** The effect of an event, where a nested value starts a handler at [p]. *)
Definition effect_of (e : Event) (p : place) : effect :=
  match e with
  | EStartObject | EStartArray => Push p
  | EEndObject _ | EEndArray _ => Pop
  | _ => Keep
  end.

(** [inside_value n es]: [es] are the remaining events of one JSON value
    in which [n] objects or arrays are open besides the outermost one. *)
Fixpoint inside_value (n : nat) (es : list Event) : bool :=
  match es with
  | [] => false
  | e :: es =>
    match e with
    | EStartObject | EStartArray => inside_value (S n) es
    | EEndObject _ | EEndArray _ =>
      match n with
      | O => match es with [] => true | _ => false end
      | S n => inside_value n es
      end
    | _ => inside_value n es
    end
  end.

(** The events of one JSON value, as far as nesting goes: a primitive, or
    an object or array that is closed by the last event and not before. *)
Definition one_value (es : list Event) : bool :=
  match es with
  | [] => false
  | e :: es =>
    match e with
    | EStartObject | EStartArray => inside_value 0 es
    | EEndObject _ | EEndArray _ | EKey _ => false
    | _ => match es with [] => true | _ => false end
    end
  end.

(** Whether event [e], arriving at [d], takes the branch of
    [XGBoostModelHandler::EndObject] that calls
    [TransformGlobalBiasToMargin]. *)
Definition transforms_at (d : Delegator) (e : Event) : nat :=
  match delegates d, e with
  | {| state := XGBoostModelHandler (v :: _) |} :: _, EEndObject memberCount =>
    if (memberCount =? 2) && (1 <=? v) then 1%nat else 0%nat
  | _, _ => 0%nat
  end.

(** How often that branch is taken while [events] are parsed from [d]. *)
Fixpoint transforms (fuel : nat) (events : list Event) (d : Delegator) : nat :=
  match events with
  | [] => 0%nat
  | e :: events =>
    (transforms_at d e +
     match DelegatedHandler_event fuel e d with
     | Ret (true, d') => transforms fuel events d'
     | _ => 0
     end)%nat
  end.

End Discipline.

(** ** The traversal of the arrays *)

Section Traversal.
Context `{P : Platform}.
Implicit Types (h : RegTreeHandler).

(** [child h i c]: the loop, visiting old ID [i], enqueues old ID [c]:
    [left_children[i]] is not [-1], and [c] is it or [right_children[i]]. *)
Definition child h (i c : Z) : Prop :=
  exists lc, at_ (left_children h) i = Some lc /\ lc <> -1 /\
             (c = lc \/ at_ (right_children h) i = Some c).

(** The old IDs the traversal from old ID 0 gets to. *)
Definition visited h (j : Z) : Prop := rtc (child h) 0 j.

End Traversal.

(** ** What a handler method can change *)

Section Effects.
Context `{T : Treelite}.

(** The two lines the handlers log at error level. *)
Definition booster_type_error : string :=
  "Only GBTree-type boosters are currently supported.".

Definition unknown_key_error (k : string) : string :=
  "Key " +:+ quote +:+ k +:+ quote +:+
  " not recognized. Is this a GBTree-type booster?".

Inductive handler_error : string -> Prop :=
| booster_error : handler_error booster_type_error
| key_error k : handler_error (unknown_key_error k).

(** [stack_only c]: [c] leaves the model, the log and the liveness of the
    delegator as they were; all it can change is the stack of handlers. *)
Definition stack_only {A : Type} (c : M A) : Prop :=
  forall d a d',
    c d = Ret (a, d') ->
    result d' = result d /\ alive d' = alive d /\ log d' = log d.

(** The events on which the active handler writes to the model. *)
Definition writes_model (st : HandlerState) (e : Event) : bool :=
  match st, e with
  | LearnerParamHandler, EString _
  | LearnerHandler _, EEndObject _
  | XGBoostModelHandler _, EEndObject _
  | RegTree _, EEndObject _
  | ArrayHandler_Tree, EStartObject => true
  | _, _ => false
  end.

(** The events on which the active handler may log. *)
Definition may_log (st : HandlerState) (e : Event) : bool :=
  match st, e with
  | GradientBoosterHandler, (EString _ | EStartObject) => true
  | _, _ => false
  end.

(** The method the virtual call of [DelegatedHandler] selects. *)
Definition handler_event (fuel : nat) (st : HandlerState) (e : Event)
    : M bool :=
  match st with
  | RootHandler => RootHandler_event e
  | XGBoostModelHandler version => XGBoostModelHandler_event version e
  | LearnerHandler objective => LearnerHandler_event objective e
  | LearnerParamHandler => LearnerParamHandler_event e
  | GradientBoosterHandler => GradientBoosterHandler_event e
  | GBTreeModelHandler => GBTreeModelHandler_event e
  | ObjectiveHandler => ObjectiveHandler_event e
  | RegTree _ => RegTreeHandler_event fuel e
  | TreeParamHandler => TreeParamHandler_event e
  | IgnoreHandler => IgnoreHandler_event e
  | ArrayHandler_double output => ArrayHandler_double_event output e
  | ArrayHandler_int output => ArrayHandler_int_event output e
  | ArrayHandler_bool => ArrayHandler_bool_event e
  | ArrayHandler_unsigned => ArrayHandler_unsigned_event e
  | ArrayHandler_Tree => ArrayHandler_Tree_event e
  end.

(** The members whose value a handler hands to an [IgnoreHandler]: the
    handler's class, the key, and whether the value is an object or an
    array. *)
Definition ignored_member (st : HandlerState) (key : string) (e : Event)
    : Prop :=
  match st, e with
  | RegTree _, EStartArray => key = "categories" \/ key = "split_type"
  | GBTreeModelHandler, EStartArray => key = "tree_info"
  | GBTreeModelHandler, EStartObject => key = "gbtree_model_param"
  | ObjectiveHandler, EStartObject =>
    key = "reg_loss_param" \/ key = "poisson_regression_param" \/
    key = "tweedie_regression_param" \/ key = "softmax_multiclass_param" \/
    key = "lambda_rank_param" \/ key = "aft_loss_param"
  | LearnerHandler _, EStartObject => key = "attributes"
  | IgnoreHandler, (EStartObject | EStartArray) => True
  | _, _ => False
  end.

End Effects.

(** ** Documents *)

Section Documents.
Context `{T : Treelite}.

(** ** The events of a tree object *)

(** The tokenizer reports a negative integer as [Int] and any other as
    [Uint]. *)
Definition int_event (i : Z) : Event := if i <? 0 then EInt i else EUint i.

Definition double_key (output : double_ref) : string :=
  match output with
  | ref_loss_changes => "loss_changes"
  | ref_sum_hessian => "sum_hessian"
  | ref_base_weights => "base_weights"
  | ref_split_conditions => "split_conditions"
  end.

Definition int_key (output : int_ref) : string :=
  match output with
  | ref_leaf_child_counts => "leaf_child_counts"
  | ref_left_children => "left_children"
  | ref_right_children => "right_children"
  | ref_parents => "parents"
  | ref_split_indices => "split_indices"
  end.

(** A member of a tree object: one of the ten arrays, the [tree_param]
    object with its string-valued members, the [id], or an array under one
    of the two keys that are skipped. *)
Inductive tree_member : Type :=
| member_doubles (output : double_ref) (v : list double)
| member_ints (output : int_ref) (v : list Z)
| member_default_left (v : list bool)
| member_tree_param (params : list (string * string))
| member_id (u : Z)
| member_skipped (key : string) (value : list Event).

Definition param_events (p : string * string) : list Event :=
  [EKey p.1; EString p.2].

Definition member_events (mb : tree_member) : list Event :=
  match mb with
  | member_doubles output v =>
    [EKey (double_key output); EStartArray] ++ (EDouble <$> v) ++
    [EEndArray (size v)]
  | member_ints output v =>
    [EKey (int_key output); EStartArray] ++ (int_event <$> v) ++
    [EEndArray (size v)]
  | member_default_left v =>
    [EKey "default_left"; EStartArray] ++ (EBool <$> v) ++
    [EEndArray (size v)]
  | member_tree_param params =>
    [EKey "tree_param"; EStartObject] ++ concat (param_events <$> params) ++
    [EEndObject (size params)]
  | member_id u => [EKey "id"; EUint u]
  | member_skipped key value => EKey key :: EStartArray :: value
  end.

(** What the members the tokenizer can produce look like: the parameters
    of [tree_param] have the four keys of the schema, and a skipped array
    is one whole array. *)
Definition member_ok (mb : tree_member) : Prop :=
  match mb with
  | member_tree_param params =>
    Forall (fun p => p.1 = "num_deleted" \/ p.1 = "num_feature" \/
                     p.1 = "num_nodes" \/ p.1 = "size_leaf_vector") params
  | member_skipped key value =>
    (key = "categories" \/ key = "split_type") /\
    inside_value 0 value = true
  | _ => True
  end.

Definition apply_param (r : RegTreeHandler) (p : string * string)
    : RegTreeHandler :=
  if decide (p.1 = "num_nodes") then with_num_nodes (atoi p.2) r else r.

(** What a member leaves in the accumulators of the tree handler. *)
Definition apply_member (r : RegTreeHandler) (mb : tree_member)
    : RegTreeHandler :=
  match mb with
  | member_doubles output v =>
    foldl (fun r d => push_back_double output d r) r v
  | member_ints output v =>
    foldl (fun r i => push_back_int output (to_int i) r) r v
  | member_default_left v => foldl (fun r b => push_back_bool b r) r v
  | member_tree_param params => foldl apply_param r params
  | member_id _ | member_skipped _ _ => r
  end.

(** The key the tree handler holds after the member. *)
Definition member_key (mb : tree_member) : string :=
  match mb with
  | member_doubles output _ => double_key output
  | member_ints output _ => int_key output
  | member_default_left _ => "default_left"
  | member_tree_param _ => "tree_param"
  | member_id _ => "id"
  | member_skipped key _ => key
  end.

(** The accumulators of a tree handler that has received the members
    [ms] and nothing else. *)
Definition collected (ms : list tree_member) : RegTreeHandler :=
  foldl apply_member empty_RegTreeHandler ms.

(** The events of a tree object with the members [ms]. *)
Definition tree_object (ms : list tree_member) : list Event :=
  EStartObject :: concat (member_events <$> ms) ++ [EEndObject (size ms)].

(** The model with one more tree. *)
Definition add_trees (m : ModelImpl) (outs : list Tree) : ModelImpl :=
  {| trees := trees m ++ outs; num_feature := num_feature m;
     num_output_group := num_output_group m;
     random_forest_flag := random_forest_flag m; param := param m |}.

(** The members of the tree object that holds the arrays of [h], in the
    order of the schema, with the node count spelled [nn] and the feature
    count spelled [nf]. *)
Definition members_of (nf nn : string) (h : RegTreeHandler)
    : list tree_member :=
  [ member_doubles ref_base_weights (base_weights h);
    member_skipped "categories" [EEndArray 0];
    member_default_left (default_left h);
    member_id 0;
    member_ints ref_leaf_child_counts (leaf_child_counts h);
    member_ints ref_left_children (left_children h);
    member_doubles ref_loss_changes (loss_changes h);
    member_ints ref_parents (parents h);
    member_ints ref_right_children (right_children h);
    member_doubles ref_split_conditions (split_conditions h);
    member_ints ref_split_indices (split_indices h);
    member_skipped "split_type" [EEndArray 0];
    member_doubles ref_sum_hessian (sum_hessian h);
    member_tree_param
      [("num_deleted", "0"); ("num_feature", nf); ("num_nodes", nn);
       ("size_leaf_vector", "0")] ].

(** The integers of the arrays are [int] values. *)
Definition ints_ok (h : RegTreeHandler) : Prop :=
  Forall int_range (leaf_child_counts h) /\
  Forall int_range (left_children h) /\
  Forall int_range (right_children h) /\
  Forall int_range (parents h) /\
  Forall int_range (split_indices h).

(** The node count a [tree_param] object leaves, [n] being the one held
    before: the last string under ["num_nodes"] decides. *)
Definition declared_nodes (n : option Z) (params : list (string * string))
    : option Z :=
  foldl (fun n p => if decide (p.1 = "num_nodes") then Some (atoi p.2) else n)
        n params.

(** What a run leaves to observe: the value returned, the model and the
    log. *)
Definition outcome (r : res (bool * Delegator))
    : res (bool * ModelImpl * list string) :=
  let* (ok, d) := r in Ret (ok, result d, log d).

(** The keys under which a tree object may hold an array. *)
Definition tree_array_keys : list string :=
  ["loss_changes"; "sum_hessian"; "base_weights"; "categories";
   "leaf_child_counts"; "left_children"; "right_children"; "parents";
   "split_indices"; "split_type"; "split_conditions"; "default_left"].

(** The events a tree handler accepts under the key [k]: the end of its
    object, a key, and the values the schema expects under [k]. *)
Definition tree_member_expected (k : string) (e : Event) : Prop :=
  match e with
  | EStartArray => k ∈ tree_array_keys
  | EStartObject => k = "tree_param"
  | EUint _ => k = "id"
  | EKey _ | EEndObject _ | EEndArray _ => True
  | _ => False
  end.

(** The events of an objective object, each element of [names] under the
    key ["name"]. *)
Definition objective_object (names : list string) : list Event :=
  [EKey "objective"; EStartObject] ++
  concat ((fun s => [EKey "name"; EString s]) <$> names) ++
  [EEndObject (size names)].

(** [out] is the tree of shape [t] that the members [ms] describe. *)
Definition reproduces (ms : list tree_member) (t : shape) (out : Tree)
    : Prop :=
  mirrors (collected ms) out 0 0 /\ size out = Z.of_nat (nodes t).

(** ** The events of a model document *)




End Documents.

(** ** The stack of handlers and the brackets of a document *)

Section Nesting.
Context `{T : Treelite}.

(** The class of a handler, without the members of the object. *)
Inductive HandlerClass : Type :=
| cRoot | cXGBoostModel | cLearner | cLearnerParam | cGradientBooster
| cGBTreeModel | cObjective | cRegTree | cTreeParam | cIgnore
| cArray | cTreeArray.

#[global] Instance HandlerClass_eq_dec : EqDecision HandlerClass.
Proof. solve_decision. Defined.

Definition class_of (st : HandlerState) : HandlerClass :=
  match st with
  | RootHandler => cRoot
  | XGBoostModelHandler _ => cXGBoostModel
  | LearnerHandler _ => cLearner
  | LearnerParamHandler => cLearnerParam
  | GradientBoosterHandler => cGradientBooster
  | GBTreeModelHandler => cGBTreeModel
  | ObjectiveHandler => cObjective
  | RegTree _ => cRegTree
  | TreeParamHandler => cTreeParam
  | IgnoreHandler => cIgnore
  | ArrayHandler_double _ | ArrayHandler_int _ | ArrayHandler_bool
  | ArrayHandler_unsigned => cArray
  | ArrayHandler_Tree => cTreeArray
  end.

Definition classes (d : Delegator) : list HandlerClass :=
  (class_of ∘ state) <$> delegates d.

(** [pushes p e c]: a handler of class [p] has a method for the start
    event [e] that pushes a handler of class [c]: the [push_handler] and
    [push_key_handler] calls of the frontend. *)
Definition pushes (p : HandlerClass) (e : Event) (c : HandlerClass) : bool :=
  match p, e, c with
  | cRoot, EStartObject, cXGBoostModel
  | cXGBoostModel, EStartArray, cArray
  | cXGBoostModel, EStartObject, cLearner
  | cLearner, EStartObject,
    (cLearnerParam | cGradientBooster | cObjective | cIgnore)
  | cGradientBooster, EStartObject, cGBTreeModel
  | cGBTreeModel, EStartArray, (cTreeArray | cIgnore)
  | cGBTreeModel, EStartObject, cIgnore
  | cObjective, EStartObject, cIgnore
  | cTreeArray, EStartObject, cRegTree
  | cRegTree, EStartArray, (cArray | cIgnore)
  | cRegTree, EStartObject, cTreeParam
  | cIgnore, (EStartObject | EStartArray), cIgnore => true
  | _, _, _ => false
  end.

(** The two kinds of brackets of a document, and the event that opens
    each. *)
Inductive bracket : Type := curly | square.

Definition start_event (k : bracket) : Event :=
  match k with curly => EStartObject | square => EStartArray end.

(** [fits cs ks]: the handlers of classes [cs], top first, are the root
    handler and, for each open bracket of [ks], innermost first, the
    handler that the one below it pushes when that bracket opens. *)
Fixpoint fits (cs : list HandlerClass) (ks : list bracket) : bool :=
  match cs, ks with
  | [cRoot], [] => true
  | c :: (p :: _) as cs, k :: ks => pushes p (start_event k) c && fits cs ks
  | _, _ => false
  end.

(** The open brackets after the events [es], from the open brackets
    [ks]; there are none where a bracket is closed that is not the
    innermost open one. *)
Fixpoint brackets (ks : list bracket) (es : list Event)
    : option (list bracket) :=
  match es with
  | [] => Some ks
  | e :: es =>
    match e with
    | EStartObject => brackets (curly :: ks) es
    | EStartArray => brackets (square :: ks) es
    | EEndObject _ =>
      match ks with curly :: ks => brackets ks es | _ => None end
    | EEndArray _ =>
      match ks with square :: ks => brackets ks es | _ => None end
    | _ => brackets ks es
    end
  end.

(** The events of one object or array: the brackets match, and the last
    event closes the first one, which no event before it does. *)
Fixpoint closes (ks : list bracket) (es : list Event) : bool :=
  match es with
  | [] => false
  | e :: es =>
    match e with
    | EStartObject => closes (curly :: ks) es
    | EStartArray => closes (square :: ks) es
    | EEndObject _ =>
      match ks with
      | [curly] => match es with [] => true | _ => false end
      | curly :: ks => closes ks es
      | _ => false
      end
    | EEndArray _ =>
      match ks with
      | [square] => match es with [] => true | _ => false end
      | square :: ks => closes ks es
      | _ => false
      end
    | _ => closes ks es
    end
  end.

Definition json_value (doc : list Event) : bool :=
  match doc with
  | EStartObject :: es => closes [curly] es
  | EStartArray :: es => closes [square] es
  | _ => false
  end.

(** [calm c]: [c] leaves the liveness of the delegator and the classes of
    the handlers on its stack as they were. *)
Definition calm {A : Type} (c : M A) : Prop :=
  forall d a d',
    c d = Ret (a, d') -> alive d' = alive d /\ classes d' = classes d.

(** [moves p e c]: run as the method for event [e] of a handler of class
    [p], [c] leaves the delegator live; where it returns [true] it has
    pushed a handler that the table allows, on a start event, popped its
    handler, on an end event, and kept the stack on any other; where it
    returns [false] the stack is as it was. *)
Definition moves (p : HandlerClass) (e : Event) (c : M bool) : Prop :=
  forall d ok d' rest,
    alive d = true -> classes d = p :: rest -> c d = Ret (ok, d') ->
    alive d' = true /\
    if ok : bool then
      match e with
      | EStartObject | EStartArray =>
        exists k, pushes p e k = true /\ classes d' = k :: p :: rest
      | EEndObject _ | EEndArray _ => classes d' = rest
      | _ => classes d' = p :: rest
      end
    else classes d' = p :: rest.

(** The events that open or close no bracket. *)
Definition plain (e : Event) : Prop :=
  match e with
  | EStartObject | EStartArray | EEndObject _ | EEndArray _ => False
  | _ => True
  end.

(** A tree that mirrors arrays that encode a tree. *)
Definition finished (out : Tree) : Prop :=
  exists (h : RegTreeHandler) (t : shape),
    encodes h 0 t /\ mirrors h out 0 0 /\ size out = Z.of_nat (nodes t).

(** [all_but_open base d]: the trees of the model are those of [base]
    and then finished trees, but for the last one while a tree object is
    open. *)
Definition all_but_open (base : list Tree) (d : Delegator) : Prop :=
  exists outs,
    trees (result d) = base ++ outs /\
    (cRegTree ∉ classes d -> Forall finished outs) /\
    (cRegTree ∈ classes d ->
     exists prior x, outs = prior ++ [x] /\ Forall finished prior).

(** The current key of a handler and its class. *)
Definition frame_of (h : Handler) : string * HandlerClass :=
  (cur_key h, class_of (state h)).

Definition frames (d : Delegator) : list (string * HandlerClass) :=
  frame_of <$> delegates d.








End Nesting.

(** ** An instance to run the embedding on *)

(** Integers stand for the floating-point values; [atoi] and [strtof] read
    a decimal numeral. *)
Module Sample.

(** The position of a character in a string, counted from [n]. *)
Fixpoint position (c : ascii) (s : string) (n : N) : option N :=
  match s with
  | EmptyString => None
  | String c' s => if Ascii.eqb c c' then Some n else position c s (N.succ n)
  end.

Definition digit (c : ascii) : option N := position c "0123456789" 0%N.

Fixpoint digits (s : string) (acc : N) : N :=
  match s with
  | EmptyString => acc
  | String c s =>
    match digit c with
    | Some n => digits s (10 * acc + n)%N
    | None => acc
    end
  end.

Definition sign (s : string) : bool * string :=
  match s with
  | String "-"%char s => (true, s)
  | String "+"%char s => (false, s)
  | _ => (false, s)
  end.

Definition decimal (s : string) : Z :=
  let '(negative, s) := sign s in
  let n := Z.of_N (digits s 0) in
  if negative : bool then - n else n.

#[export] Instance platform : Platform :=
  {| double := Z; float := Z; to_float := fun d => d;
     strtof := decimal; atoi := decimal; PredTransform := string |}.

#[export] Instance treelite : Treelite :=
  {| SetPredTransform := fun objective p =>
       {| global_bias := global_bias p; pred_transform := objective |};
     TransformGlobalBiasToMargin := fun p =>
       {| global_bias := Z.double (global_bias p);
          pred_transform := pred_transform p |};
     Model_Create :=
       {| trees := []; num_feature := 0; num_output_group := 1;
          random_forest_flag := true;
          param := {| global_bias := 0; pred_transform := "identity" |} |} |}.

(** A tree of three nodes: a root with two leaves. *)
Definition three_nodes : RegTreeHandler :=
  {| loss_changes := [10; 0; 0]; sum_hessian := [7; 3; 4];
     base_weights := [0; 1; 2]; leaf_child_counts := [0; 0; 0];
     left_children := [1; -1; -1]; right_children := [2; -1; -1];
     parents := [2147483647; 0; 0]; split_indices := [1; 0; 0];
     split_conditions := [50; 11; 22];
     default_left := [true; false; false]; num_nodes := Some 3 |}.

(** A tree of a single node. *)
Definition single_node : RegTreeHandler :=
  {| loss_changes := [0]; sum_hessian := [9]; base_weights := [4];
     leaf_child_counts := [0]; left_children := [-1];
     right_children := [-1]; parents := [2147483647];
     split_indices := [0]; split_conditions := [42];
     default_left := [false]; num_nodes := Some 1 |}.

Definition array {A : Type} (key : string) (elem : A -> Event) (v : list A)
    : list Event :=
  [EKey key; EStartArray] ++ (elem <$> v) ++ [EEndArray (size v)].

Definition show_nat (n : nat) : string :=
  String (ascii_of_nat (48 + n)) EmptyString.

(** The events of a tree object holding the arrays of [h] (fewer than ten
    nodes). *)
Definition tree_events (h : RegTreeHandler) : list Event :=
  [EStartObject;
   EKey "tree_param"; EStartObject;
   EKey "num_deleted"; EString "0";
   EKey "num_feature"; EString "2";
   EKey "num_nodes";
   EString (show_nat (Z.to_nat (default 0 (num_nodes h))));
   EKey "size_leaf_vector"; EString "0";
   EEndObject 4;
   EKey "id"; EUint 0] ++
  array "loss_changes" EDouble (loss_changes h) ++
  array "sum_hessian" EDouble (sum_hessian h) ++
  array "base_weights" EDouble (base_weights h) ++
  array "leaf_child_counts" EInt (leaf_child_counts h) ++
  array "left_children" EInt (left_children h) ++
  array "right_children" EInt (right_children h) ++
  array "parents" EInt (parents h) ++
  array "split_indices" EInt (split_indices h) ++
  array "split_conditions" EDouble (split_conditions h) ++
  array "default_left" EBool (default_left h) ++
  [EEndObject 12].

(** The events of a whole model document up to and including the key
    ["name"] of the gradient booster. *)
Definition document_head (version : list Z) : list Event :=
  [EStartObject] ++
  array "version" EUint version ++
  [EKey "learner"; EStartObject;
   EKey "attributes"; EStartObject; EKey "best_iteration"; EString "3";
   EEndObject 1;
   EKey "learner_model_param"; EStartObject;
   EKey "base_score"; EString "5";
   EKey "num_class"; EString "0";
   EKey "num_feature"; EString "2";
   EEndObject 3;
   EKey "objective"; EStartObject;
   EKey "name"; EString "reg:squarederror";
   EKey "reg_loss_param"; EStartObject;
   EKey "scale_pos_weight"; EString "1"; EEndObject 1;
   EEndObject 2;
   EKey "gradient_booster"; EStartObject;
   EKey "name"].

(** From the key ["model"] to the opening of the array of trees. *)
Definition model_head : list Event :=
  [EKey "model"; EStartObject;
   EKey "gbtree_model_param"; EStartObject;
   EKey "num_trees"; EString "1"; EEndObject 1;
   EKey "trees"; EStartArray].

(** The rest of the document: the [trees], and the closing of the model,
    of the booster, of the learner and of the top-level object, the last
    with [memberCount] members. *)
Definition document_tail (ts : list RegTreeHandler) (memberCount : Z)
    : list Event :=
  model_head ++
  concat (tree_events <$> ts) ++
  [EEndArray (size ts);
   EKey "tree_info"; EStartArray; EInt 0; EEndArray 1;
   EEndObject 3;
   EEndObject 2;
   EEndObject 4;
   EEndObject memberCount].

Definition document (version : list Z) (booster : string)
    (ts : list RegTreeHandler) : list Event :=
  document_head version ++ [EString booster] ++ document_tail ts 2.

(** The events before the one that closes the top-level object. *)
Definition to_model_close (version : list Z) (ts : list RegTreeHandler)
    : list Event :=
  removelast (document version "gbtree" ts).

(** The events before the one that closes the tree object of [h], the
    first tree of a document. *)
Definition to_tree_close (h : RegTreeHandler) : list Event :=
  document_head [1; 0; 0] ++ [EString "gbtree"] ++ model_head ++
  removelast (tree_events h).

(** The events up to a key of the [tree_param] object of the first tree. *)
Definition to_tree_param (key : string) : list Event :=
  document_head [1; 0; 0] ++ [EString "gbtree"] ++ model_head ++
  [EStartObject; EKey "tree_param"; EStartObject; EKey key].

(** The events up to a key of the learner-parameter object. *)
Definition to_learner_param (key : string) : list Event :=
  [EStartObject; EKey "learner"; EStartObject;
   EKey "learner_model_param"; EStartObject; EKey key].

(** The delegator after the handlers have accepted [events]. *)
Definition after (fuel : nat) (events : list Event) : Delegator :=
  match Parse fuel events create with
  | Ret (_, d) => d
  | _ => create
  end.

(** What a load of [events] returns. *)
Definition loaded (fuel : nat) (events : list Event) : Load :=
  match ParseStream fuel events with
  | Ret l => l
  | _ => Fatal []
  end.

(** [three_nodes] with one statistic missing, and with other contents in
    the two arrays the reconstruction does not read. *)
Definition short_sum_hessian : RegTreeHandler :=
  {| loss_changes := [10; 0; 0]; sum_hessian := [7; 3];
     base_weights := [0; 1; 2]; leaf_child_counts := [0; 0; 0];
     left_children := [1; -1; -1]; right_children := [2; -1; -1];
     parents := [2147483647; 0; 0]; split_indices := [1; 0; 0];
     split_conditions := [50; 11; 22];
     default_left := [true; false; false]; num_nodes := Some 3 |}.

Definition other_unused : RegTreeHandler :=
  {| loss_changes := [10; 0; 0]; sum_hessian := [7; 3; 4];
     base_weights := [8; 8; 8]; leaf_child_counts := [2; 1; 1];
     left_children := [1; -1; -1]; right_children := [2; -1; -1];
     parents := [2147483647; 0; 0]; split_indices := [1; 0; 0];
     split_conditions := [50; 11; 22];
     default_left := [true; false; false]; num_nodes := Some 3 |}.

(** A root whose two children are one and the same leaf. *)
Definition shared_child : RegTreeHandler :=
  {| loss_changes := [10; 0]; sum_hessian := [7; 3];
     base_weights := [0; 1]; leaf_child_counts := [0; 0];
     left_children := [1; -1]; right_children := [1; -1];
     parents := [2147483647; 0]; split_indices := [1; 0];
     split_conditions := [50; 11];
     default_left := [true; false]; num_nodes := Some 2 |}.

(** A root whose right child is outside the arrays. *)
Definition dangling_child : RegTreeHandler :=
  {| loss_changes := [10; 0]; sum_hessian := [7; 3];
     base_weights := [0; 1]; leaf_child_counts := [0; 0];
     left_children := [1; -1]; right_children := [5; -1];
     parents := [2147483647; 0]; split_indices := [1; 0];
     split_conditions := [50; 11];
     default_left := [true; false]; num_nodes := Some 2 |}.

(** A single node that is its own child on both sides. *)
Definition self_loop : RegTreeHandler :=
  {| loss_changes := [10]; sum_hessian := [7]; base_weights := [0];
     leaf_child_counts := [0]; left_children := [0];
     right_children := [0]; parents := [2147483647];
     split_indices := [1]; split_conditions := [50];
     default_left := [true]; num_nodes := Some 1 |}.

(** A tree object that declares no node and holds empty arrays. *)
Definition no_nodes : RegTreeHandler :=
  {| loss_changes := []; sum_hessian := []; base_weights := [];
     leaf_child_counts := []; left_children := []; right_children := [];
     parents := []; split_indices := []; split_conditions := [];
     default_left := []; num_nodes := Some 0 |}.

(** The events up to the opening of the array of trees, and up to the
    opening of its first tree object. *)
Definition to_trees_open : list Event :=
  document_head [1; 0; 0] ++ [EString "gbtree"] ++ model_head.

Definition to_tree_open : list Event := to_trees_open ++ [EStartObject].

(** The events up to the opening of the second tree object of a document
    of two trees, and the events after it. *)
Definition to_second_tree : list Event :=
  to_trees_open ++ tree_events three_nodes ++ [EStartObject].

Definition after_second_tree : list Event :=
  tail (tree_events single_node) ++
  [EEndArray 2;
   EKey "tree_info"; EStartArray; EInt 0; EInt 0; EEndArray 2;
   EEndObject 3;
   EEndObject 2;
   EEndObject 4;
   EEndObject 2].

(** The events up to a key of the learner object, and up to a key of its
    gradient-booster object. *)
Definition to_learner_member (key : string) : list Event :=
  [EStartObject; EKey "learner"; EStartObject; EKey key].

Definition to_booster_member (key : string) : list Event :=
  to_learner_member "gradient_booster" ++ [EStartObject; EKey key].





End Sample.

(** Unfolds the primitives of the handler monad. *)
Ltac run :=
  cbv beta iota zeta delta
    [orelse assign_value push_key_handler push_handler pop_handler
     check_cur_key get_cur_key set_cur_key this set_this enclosing
     set_enclosing enclosing_RegTree set_enclosing_RegTree this_RegTree
     set_output_tree set_num_nodes set_objective set_global_bias
     set_num_output_group set_num_feature set_random_forest_flag set_param
     set_trees get_model set_model lock pop_delegate push_delegate LOG_ERROR
     get_delegates set_delegates lift undefined bindM ret bind
     delegates result alive log cur_key state].

Ltac run_in H :=
  cbv beta iota zeta delta
    [orelse assign_value push_key_handler push_handler pop_handler
     check_cur_key get_cur_key set_cur_key this set_this enclosing
     set_enclosing enclosing_RegTree set_enclosing_RegTree this_RegTree
     set_output_tree set_num_nodes set_objective set_global_bias
     set_num_output_group set_num_feature set_random_forest_flag set_param
     set_trees get_model set_model lock pop_delegate push_delegate LOG_ERROR
     get_delegates set_delegates lift undefined bindM ret bind store
     store_version delegates result alive log cur_key state] in H.

(** Decides the comparisons of a known key with the keys of a handler. *)
Ltac keys :=
  repeat first
    [ rewrite bool_decide_eq_true_2 by reflexivity
    | rewrite bool_decide_eq_false_2 by discriminate ].

(** * Properties *)

Section Vectors.
Context {A : Type}.
Implicit Types (v : list A) (i : Z).

Lemma size_nonneg v : 0 <= size v.
Proof. unfold size. lia. Qed.

Lemma at_Some_range v i x : at_ v i = Some x -> 0 <= i < size v.
Proof.
  unfold at_, size. case_decide; [|done].
  intros Hl%lookup_lt_Some. lia.
Qed.

Lemma at_in_range v i : 0 <= i < size v -> is_Some (at_ v i).
Proof.
  unfold at_, size. intros [? ?]. case_decide; [|lia].
  apply lookup_lt_is_Some. lia.
Qed.

Lemma at_app_l v w i : 0 <= i < size v -> at_ (v ++ w) i = at_ v i.
Proof.
  unfold at_, size. intros [? ?]. case_decide; [|done].
  apply lookup_app_l. lia.
Qed.

Lemma at_app_size v x w : at_ (v ++ x :: w) (size v) = Some x.
Proof.
  unfold at_, size. case_decide; [|lia].
  rewrite Nat2Z.id. apply list_lookup_middle. done.
Qed.

Lemma at_insert_eq v i x y :
  at_ v i = Some y -> at_ (<[Z.to_nat i := x]> v) i = Some x.
Proof.
  unfold at_. case_decide; [|done].
  intros Hl%lookup_lt_Some. by apply list_lookup_insert_eq.
Qed.

Lemma at_insert_ne v i j x :
  0 <= i -> j <> i -> at_ (<[Z.to_nat i := x]> v) j = at_ v j.
Proof.
  unfold at_. intros. case_decide; [|done].
  apply list_lookup_insert_ne. lia.
Qed.

Lemma size_insert v n x : size (<[n := x]> v) = size v.
Proof. unfold size. by rewrite length_insert. Qed.

Lemma size_app v w : size (v ++ w) = size v + size w.
Proof. unfold size. rewrite length_app. lia. Qed.

Lemma index_Some v i x : at_ v i = Some x -> index v i = Ret x.
Proof. unfold index. by intros ->. Qed.

Lemma index_front x v : index (x :: v) 0 = Ret x.
Proof. reflexivity. Qed.

End Vectors.

(** ** One iteration of the reconstruction loop *)

Section Reconstruction.
Context `{P : Platform}.
Implicit Types (h : RegTreeHandler) (out : Tree) (t : shape).

Lemma update_Ret out nid f nd :
  at_ out nid = Some nd ->
  update out nid f = Ret (<[Z.to_nat nid := f nd]> out).
Proof. unfold update. by intros ->. Qed.

Lemma visit_leaf h fuel old new Q out nd sc sh :
  at_ (left_children h) old = Some (-1) ->
  at_ (split_conditions h) old = Some sc ->
  at_ (sum_hessian h) old = Some sh ->
  at_ out new = Some nd ->
  reconstruct (S fuel) h ((old, new) :: Q) out =
  reconstruct fuel h Q (<[Z.to_nat new := leaf_node nd (to_float sc) sh]> out).
Proof.
  intros Hl Hsc Hsh Hnd. cbn [reconstruct].
  rewrite (index_Some _ _ _ Hl). cbn [bind]. rewrite Z.eqb_refl.
  rewrite (index_Some _ _ _ Hsc). cbn [bind].
  unfold SetLeaf. rewrite (update_Ret _ _ _ _ Hnd). cbn [bind].
  rewrite (index_Some _ _ _ Hsh). cbn [bind].
  unfold SetSumHess.
  rewrite (update_Ret _ _ _ _ (at_insert_eq _ _ _ _ Hnd)). cbn [bind].
  by rewrite list_insert_insert_eq.
Qed.

Lemma visit_split h fuel old new Q out nd lc rc si sc dl g sh :
  at_ (left_children h) old = Some lc -> lc <> -1 ->
  at_ (right_children h) old = Some rc ->
  at_ (split_indices h) old = Some si ->
  at_ (split_conditions h) old = Some sc ->
  at_ (default_left h) old = Some dl ->
  at_ (loss_changes h) old = Some g ->
  at_ (sum_hessian h) old = Some sh ->
  at_ out new = Some nd ->
  reconstruct (S fuel) h ((old, new) :: Q) out =
  reconstruct fuel h (Q ++ [(lc, size out); (rc, size out + 1)])
    (<[Z.to_nat new :=
         split_node (size out) (size out + 1) si (to_float sc) dl g sh]>
       (out ++ [fresh_node; fresh_node])).
Proof.
  intros Hl Hne Hr Hsi Hsc Hdl Hg Hsh Hnd. cbn [reconstruct].
  rewrite (index_Some _ _ _ Hl). cbn [bind].
  destruct (Z.eqb_spec lc (-1)) as [|_]; [done|].
  assert (Hnd' : at_ ((out ++ [fresh_node]) ++ [fresh_node]) new = Some nd).
  { pose proof (at_Some_range _ _ _ Hnd).
    rewrite at_app_l; [by rewrite at_app_l|]. rewrite size_app.
    unfold size at 2.
    simpl. lia. }
  unfold AddChilds, AllocNode. rewrite (update_Ret _ _ _ _ Hnd'). cbn [bind].
  rewrite (index_Some _ _ _ Hsi), (index_Some _ _ _ Hsc),
    (index_Some _ _ _ Hdl). cbn [bind].
  unfold SetNumericalSplit.
  rewrite (update_Ret _ _ _ _ (at_insert_eq _ _ _ _ Hnd')). cbn [bind].
  rewrite list_insert_insert_eq.
  rewrite (index_Some _ _ _ Hg). cbn [bind].
  unfold SetGain.
  rewrite (update_Ret _ _ _ _ (at_insert_eq _ _ _ _ Hnd')). cbn [bind].
  rewrite list_insert_insert_eq.
  unfold LeftChild, RightChild.
  rewrite (index_Some _ _ _ (at_insert_eq _ _ _ _ Hnd')). cbn [bind].
  rewrite (index_Some _ _ _ Hr). cbn [bind].
  rewrite (index_Some _ _ _ Hsh). cbn [bind].
  unfold SetSumHess.
  rewrite (update_Ret _ _ _ _ (at_insert_eq _ _ _ _ Hnd')). cbn [bind].
  rewrite list_insert_insert_eq. cbn.
  rewrite <- !(assoc_L (++)). cbn [app].
  replace (size (out ++ [fresh_node])) with (size out + 1)
    by (rewrite size_app; reflexivity).
  reflexivity.
Qed.

(** ** The loop invariant *)

Lemma weight_app W1 W2 : weight (W1 ++ W2) = (weight W1 + weight W2)%nat.
Proof. apply sum_list_with_app. Qed.

Lemma nodes_pos t : (0 < nodes t)%nat.
Proof. destruct t; simpl; lia. Qed.

Lemma sizes_agree_in_range n h old x :
  sizes_agree n h -> at_ (left_children h) old = Some x ->
  is_Some (at_ (loss_changes h) old) /\
  is_Some (at_ (sum_hessian h) old) /\
  is_Some (at_ (right_children h) old) /\
  is_Some (at_ (split_indices h) old) /\
  is_Some (at_ (split_conditions h) old) /\
  is_Some (at_ (default_left h) old).
Proof.
  intros (?&?&?&?&?&?&?&?&?&?) Hx%at_Some_range.
  repeat split; apply at_in_range; lia.
Qed.

(** Run on a queue whose entries encode trees and whose new IDs are
    distinct nodes of [out], the loop returns within [weight W]
    iterations; in the tree it returns every queue entry is mirrored, the
    nodes that were not in the queue are untouched, and exactly the
    missing descendants have been allocated. *)
Lemma reconstruct_spec h n :
  sizes_agree n h ->
  forall fuel (W : list (Z * Z * shape)) out,
    Forall (fun w => encodes h w.1.1 w.2) W ->
    NoDup (new_ids W) ->
    Forall (fun w => 0 <= w.1.2 < size out) W ->
    (weight W <= fuel)%nat ->
    exists out',
      reconstruct fuel h (fst <$> W) out = Ret out' /\
      Forall (fun w => mirrors h out' w.1.1 w.1.2) W /\
      (forall i, 0 <= i < size out -> i ∉ new_ids W ->
                 at_ out' i = at_ out i) /\
      size out' + Z.of_nat (length W) = size out + Z.of_nat (weight W).
Proof.
  intros Hsz. induction fuel as [|fuel IH]; intros W out Henc Hnd Hrg Hfuel.
  { destruct W as [|[[old new] t] W].
    - exists out. split; [done|]. split; [constructor|].
      split; [done|]. unfold weight; cbn; lia.
    - unfold weight in Hfuel. cbn in Hfuel. pose proof (nodes_pos t). lia. }
  destruct W as [|[[old new] t] W].
  { exists out. split; [done|]. split; [constructor|].
    split; [done|]. unfold weight; cbn; lia. }
  apply Forall_cons in Henc as [Ht Henc]. cbn in Ht.
  apply Forall_cons in Hrg as [Hnew Hrg]. cbn in Hnew.
  unfold new_ids in Hnd. rewrite fmap_cons in Hnd.
  apply NoDup_cons in Hnd as [Hfresh Hnd]. cbn in Hfresh.
  destruct (at_in_range out new Hnew) as [nd Hnode].
  rewrite fmap_cons. cbn [fst].
  inversion Ht as [i Hl|i lc rc l r Hl Hne Hr Hencl Hencr]; subst.
  - (* a leaf *)
    destruct (sizes_agree_in_range _ _ _ _ Hsz Hl)
      as (_ & [sh Hsh] & _ & _ & [sc Hsc] & _).
    rewrite (visit_leaf _ _ _ _ _ _ _ _ _ Hl Hsc Hsh Hnode).
    set (out1 := <[Z.to_nat new := leaf_node nd (to_float sc) sh]> out).
    assert (Hsize1 : size out1 = size out) by apply size_insert.
    destruct (IH W out1) as (out' & Hrun & Hmir & Hframe & Hcount); auto.
    { by rewrite Hsize1. }
    { unfold weight in *. cbn in Hfuel. lia. }
    exists out'. split; [done|]. split; [|split].
    + constructor; [|done]. cbn.
      assert (Hn : at_ out' new = Some (leaf_node nd (to_float sc) sh)).
      { rewrite Hframe; [|lia|done].
        by apply at_insert_eq with nd. }
      by eapply mirrors_leaf.
    + intros i Hi Hni. unfold new_ids in Hni. rewrite fmap_cons in Hni.
      apply not_elem_of_cons in Hni as [Hne Hni]. cbn in Hne.
      rewrite Hframe; [|lia|done]. apply at_insert_ne; [lia|done].
    + unfold weight in *. cbn. cbn in Hcount. lia.
  - (* an internal node *)
    destruct (sizes_agree_in_range _ _ _ _ Hsz Hl)
      as ([g Hg] & [sh Hsh] & _ & [si Hsi] & [sc Hsc] & [dl Hdl]).
    rewrite (visit_split _ _ _ _ _ _ _ _ _ _ _ _ _ _
               Hl Hne Hr Hsi Hsc Hdl Hg Hsh Hnode).
    set (nd' := split_node (size out) (size out + 1) si (to_float sc) dl g sh).
    set (out1 := <[Z.to_nat new := nd']> (out ++ [fresh_node; fresh_node])).
    set (W' := W ++ [(lc, size out, l); (rc, size out + 1, r)]).
    assert (Hsize1 : size out1 = size out + 2).
    { unfold out1. rewrite size_insert, size_app. reflexivity. }
    assert (Hold : forall i, i ∈ new_ids W -> 0 <= i < size out).
    { intros i ((?&?)&->&Hin)%list_elem_of_fmap.
      by apply (proj1 (Forall_forall _ _) Hrg) in Hin. }
    replace (W.*1 ++ [(lc, size out); (rc, size out + 1)]) with (fst <$> W')
      by (unfold W'; by rewrite fmap_app).
    destruct (IH W' out1) as (out' & Hrun & Hmir & Hframe & Hcount).
    { apply Forall_app. split; [done|]. by repeat constructor. }
    { unfold W', new_ids. rewrite fmap_app. apply NoDup_app.
      split; [done|]. split.
      - intros i Hi%Hold. cbn. rewrite !elem_of_cons.
        intros [->|[->|[]%elem_of_nil]]; lia.
      - cbn. apply NoDup_cons. split; [|apply NoDup_singleton].
        rewrite list_elem_of_singleton. lia. }
    { apply Forall_app. split.
      - eapply Forall_impl; [exact Hrg|]. cbn. intros; lia.
      - pose proof (size_nonneg out). repeat constructor; cbn; lia. }
    { unfold W'. rewrite weight_app. unfold weight in *. cbn in *. lia. }
    apply Forall_app in Hmir as [HmirW Hkids].
    apply Forall_cons in Hkids as [Hml Hkids].
    apply Forall_cons in Hkids as [Hmr _]. cbn in Hml, Hmr.
    assert (Hnew' : new ∉ new_ids W').
    { unfold W', new_ids. rewrite fmap_app. cbn.
      rewrite elem_of_app, !elem_of_cons.
      intros [?|[->|[->|[]%elem_of_nil]]]; [done|lia|lia]. }
    exists out'. split; [done|]. split; [|split].
    + constructor; [|done]. cbn.
      assert (Hn : at_ out' new = Some nd').
      { rewrite Hframe; [|lia|done].
        apply at_insert_eq with nd. rewrite at_app_l; [done|lia]. }
      eapply mirrors_split; eauto.
    + intros i Hi Hni. unfold new_ids in Hni. rewrite fmap_cons in Hni.
      apply not_elem_of_cons in Hni as [Hne' Hni]. cbn in Hne'.
      rewrite Hframe; [|lia|].
      * unfold out1. rewrite at_insert_ne; [|lia|done]. by apply at_app_l.
      * unfold W', new_ids. rewrite fmap_app. cbn.
        rewrite elem_of_app, !elem_of_cons.
        intros [?|[->|[->|[]%elem_of_nil]]]; [done|lia|lia].
    + unfold W' in Hcount. rewrite weight_app, length_app in Hcount.
      unfold weight in *. cbn in *. lia.
Qed.

End Reconstruction.

(** ** Running handler methods *)

Section Running.
Context `{T : Treelite}.

Lemma Parse_app fuel pre post d :
  Parse fuel (pre ++ post) d =
  (let! accepted := Parse fuel pre in
   if accepted : bool then Parse fuel post else ret false) d.
Proof.
  revert d. induction pre as [|e pre IH]; intros d; [done|].
  cbn [app Parse]. unfold bindM.
  destruct (DelegatedHandler_event fuel e d) as [[[] d']| |]; cbn [bind];
    [|done..].
  rewrite IH. done.
Qed.

(** An event the active handler rejects ends the load in the fatal error,
    whatever follows it. *)
Lemma rejected_event_is_fatal fuel pre e post d d' :
  Parse fuel pre create = Ret (true, d) ->
  DelegatedHandler_event fuel e d = Ret (false, d') ->
  ParseStream fuel (pre ++ e :: post) = Ret (Fatal (log d')).
Proof.
  intros Hpre He. unfold ParseStream. rewrite Parse_app.
  unfold bindM. rewrite Hpre. cbn [bind Parse].
  unfold bindM. rewrite He. done.
Qed.

End Running.

(** ** The stack discipline *)

Section StackDiscipline.
Context `{T : Treelite}.

Ltac quiet_tac :=
  let H := fresh "H" in
  intros [[|[? ?] [|[? []] ?]] ? ? ?] ? ? H; run_in H;
  repeat case_match; simplify_eq; done.

Lemma quiet_ret {A : Type} (a : A) : quiet (ret a).
Proof. by intros d a' d' [= <- <-]. Qed.

Lemma quiet_bind {A B : Type} (m : M A) (k : A -> M B) :
  quiet m -> (forall a, quiet (k a)) -> quiet (bindM m k).
Proof.
  intros Hm Hk d b d'. unfold bindM.
  destruct (m d) as [[a d1]| |] eqn:E; cbn; [|done..].
  intros Hkd. destruct (Hm _ _ _ E) as [Ha Hp].
  destruct (Hk a _ _ _ Hkd) as [Ha' Hp']. split; congruence.
Qed.

Lemma quiet_get_model : quiet get_model.
Proof. by intros d a' d' [= <- <-]. Qed.

Lemma quiet_set_model m : quiet (set_model m).
Proof. by intros d a' d' [= <- <-]. Qed.

Lemma quiet_check k : quiet (check_cur_key k).
Proof. quiet_tac. Qed.

Lemma quiet_get_cur_key : quiet get_cur_key.
Proof. quiet_tac. Qed.

Lemma quiet_set_cur_key k : quiet (set_cur_key k).
Proof. quiet_tac. Qed.

Lemma quiet_LOG_ERROR msg : quiet (LOG_ERROR msg).
Proof. by intros d a' d' [= <- <-]. Qed.

Lemma quiet_set_global_bias v : quiet (set_global_bias v).
Proof. by intros d a' d' [= <- <-]. Qed.

Lemma quiet_set_num_output_group v : quiet (set_num_output_group v).
Proof. by intros d a' d' [= <- <-]. Qed.

Lemma quiet_set_num_feature v : quiet (set_num_feature v).
Proof. by intros d a' d' [= <- <-]. Qed.

Lemma quiet_set_random_forest_flag v : quiet (set_random_forest_flag v).
Proof. by intros d a' d' [= <- <-]. Qed.

Lemma quiet_set_param v : quiet (set_param v).
Proof. by intros d a' d' [= <- <-]. Qed.

Lemma quiet_set_trees v : quiet (set_trees v).
Proof. by intros d a' d' [= <- <-]. Qed.

Lemma quiet_set_output_tree t : quiet (set_output_tree t).
Proof.
  intros [ds [[|t0 ts] ? ? ? ?] a l] u d' H; run_in H; cbn [trees] in H;
    by simplify_eq.
Qed.

Lemma quiet_set_num_nodes v : quiet (set_num_nodes v).
Proof. quiet_tac. Qed.

Lemma quiet_set_objective v : quiet (set_objective v).
Proof. quiet_tac. Qed.

Lemma quiet_store f : quiet (store f).
Proof. quiet_tac. Qed.

Lemma quiet_store_version u : quiet (store_version u).
Proof. quiet_tac. Qed.

Lemma quiet_lift {A : Type} (r : res A) : quiet (lift r).
Proof. intros d a d' H. run_in H. destruct r; by simplify_eq. Qed.

Lemma quiet_this_RegTree : quiet this_RegTree.
Proof. quiet_tac. Qed.


Lemma quiet_if {A : Type} (b : bool) (c1 c2 : M A) :
  quiet c1 -> quiet c2 -> quiet (if b then c1 else c2).
Proof. by destruct b. Qed.

Lemma quiet_assign {V : Type} k (v : V) (output : V -> M unit) :
  (forall v, quiet (output v)) -> quiet (assign_value k v output).
Proof.
  intros Hout. unfold assign_value.
  apply quiet_bind; [apply quiet_check|]. intros c. apply quiet_if.
  - apply quiet_bind; [apply Hout|]. intros _. apply quiet_ret.
  - apply quiet_ret.
Qed.

Lemma sat_of_quiet c : quiet c -> sat c Keep.
Proof.
  intros Hc d ok d' Ha Hrun. destruct (Hc _ _ _ Hrun) as [Ha' Hp].
  split; [congruence|]. by destruct ok.
Qed.

Lemma sat_ret_false eff : sat (ret false) eff.
Proof. by intros d ok d' Ha [= <- <-]. Qed.

Lemma sat_if (b : bool) c1 c2 eff :
  sat c1 eff -> sat c2 eff -> sat (if b then c1 else c2) eff.
Proof. by destruct b. Qed.

Lemma moved_from eff d1 d d' :
  places d1 = places d -> moved eff d1 d' -> moved eff d d'.
Proof. destruct eff; cbn; by intros ->. Qed.

Lemma sat_bind_quiet {A : Type} (m : M A) (k : A -> M bool) eff :
  quiet m -> (forall a, sat (k a) eff) -> sat (bindM m k) eff.
Proof.
  intros Hm Hk d ok d' Ha. unfold bindM.
  destruct (m d) as [[a d1]| |] eqn:E; cbn; [|done..].
  intros Hrun. destruct (Hm _ _ _ E) as [Ha1 Hp1].
  destruct (Hk a d1 ok d') as [Ha' Hmv]; [congruence|done|].
  split; [done|]. destruct ok; [by apply moved_from with d1|congruence].
Qed.

Lemma sat_orelse a b eff : sat a eff -> sat b eff -> sat (a ||| b) eff.
Proof.
  intros Hsa Hsb d ok d' Ha. unfold orelse, bindM.
  destruct (a d) as [[[] d1]| |] eqn:E; cbn; [| |done..].
  - intros [= <- <-]. by apply (Hsa d true d1).
  - intros Hrun. destruct (Hsa d false d1 Ha E) as [Ha1 Hp1].
    destruct (Hsb d1 ok d' Ha1 Hrun) as [Ha' Hmv].
    split; [done|]. destruct ok; [by apply moved_from with d1|congruence].
Qed.

Lemma sat_push c : sat (push_handler c) (Push (place_of_state c)).
Proof.
  intros [ds m a l] ok d' Ha H. cbn in Ha. subst a. run_in H.
  by simplify_eq.
Qed.

Lemma sat_push_key k c : sat (push_key_handler k c) (Push (place_of_state c)).
Proof.
  intros [[|[k0 st] ds] m a l] ok d' Ha H; cbn in Ha; subst a; run_in H;
    [done|].
  destruct (bool_decide (k0 = k)); by simplify_eq.
Qed.

Lemma sat_pop : sat pop_handler Pop.
Proof.
  intros [[|h ds] m a l] ok d' Ha H; cbn in Ha; subst a; run_in H;
    [done|].
  simplify_eq. split; [done|]. by exists (place_of h).
Qed.

Create HintDb stack discriminated.
Hint Resolve quiet_ret quiet_bind quiet_get_model quiet_set_model quiet_check
  quiet_get_cur_key quiet_set_cur_key quiet_LOG_ERROR quiet_set_global_bias
  quiet_set_num_output_group quiet_set_num_feature quiet_set_random_forest_flag
  quiet_set_param quiet_set_trees quiet_set_output_tree quiet_set_num_nodes
  quiet_set_objective quiet_store quiet_store_version quiet_lift
  quiet_this_RegTree quiet_if quiet_assign
  sat_ret_false sat_if sat_bind_quiet sat_orelse sat_push sat_pop : stack.

Lemma sat_push_key_inside k c p :
  place_of_state c = p -> sat (push_key_handler k c) (Push p).
Proof. intros <-. apply sat_push_key. Qed.

Lemma sat_push_at c p :
  place_of_state c = p -> sat (push_handler c) (Push p).
Proof. intros <-. apply sat_push. Qed.

Hint Resolve sat_push_key_inside sat_push_at : stack.

Lemma BaseHandler_sat e p : sat (BaseHandler_event e) (effect_of e p).
Proof.
  destruct e; cbn; auto with stack.
  apply sat_of_quiet. auto with stack.
Qed.

Hint Resolve BaseHandler_sat sat_of_quiet : stack.

Lemma RegTreeHandler_StartArray_sat :
  sat RegTreeHandler_StartArray (Push inside).
Proof.
  unfold RegTreeHandler_StartArray.
  repeat apply sat_orelse; by apply sat_push_key_inside.
Qed.

Lemma RegTreeHandler_EndObject_sat fuel memberCount :
  sat (RegTreeHandler_EndObject fuel memberCount) Pop.
Proof.
  unfold RegTreeHandler_EndObject.
  apply sat_bind_quiet; [apply quiet_this_RegTree|]. intros h.
  apply sat_bind_quiet; [apply quiet_lift|]. intros [ok output].
  apply sat_bind_quiet; [apply quiet_set_output_tree|]. intros _.
  apply sat_if; [apply sat_pop|apply sat_ret_false].
Qed.

Hint Resolve RegTreeHandler_StartArray_sat RegTreeHandler_EndObject_sat
  : stack.

Lemma handler_sat top fuel e :
  sat
    (match state top with
     | RootHandler => RootHandler_event e
     | XGBoostModelHandler version => XGBoostModelHandler_event version e
     | LearnerHandler objective => LearnerHandler_event objective e
     | LearnerParamHandler => LearnerParamHandler_event e
     | GradientBoosterHandler => GradientBoosterHandler_event e
     | GBTreeModelHandler => GBTreeModelHandler_event e
     | ObjectiveHandler => ObjectiveHandler_event e
     | RegTree _ => RegTreeHandler_event fuel e
     | TreeParamHandler => TreeParamHandler_event e
     | IgnoreHandler => IgnoreHandler_event e
     | ArrayHandler_double output => ArrayHandler_double_event output e
     | ArrayHandler_int output => ArrayHandler_int_event output e
     | ArrayHandler_bool => ArrayHandler_bool_event e
     | ArrayHandler_unsigned => ArrayHandler_unsigned_event e
     | ArrayHandler_Tree => ArrayHandler_Tree_event e
     end)
    (effect_of e match place_of top with at_root => at_model | _ => inside end).
Proof.
  unfold place_of. destruct (state top); cbn [place_of_state].
  all: destruct e; cbn; eauto 20 with stack.
Qed.

(** An accepted event leaves the delegator live and moves the stack by its own
    kind: a start pushes one handler, an end pops one, any other event
    keeps the stack; the stack stays well formed when it grows. *)
Lemma event_step fuel e d d' :
  alive d = true -> stack_ok (places d) ->
  DelegatedHandler_event fuel e d = Ret (true, d') ->
  alive d' = true /\
  match effect_of e inside with
  | Push _ => exists p, places d' = p :: places d /\ stack_ok (places d')
  | Pop => exists p, places d = p :: places d'
  | Keep => places d' = places d
  end.
Proof.
  intros Ha Hok Hev. unfold DelegatedHandler_event, bindM in Hev.
  destruct (this d) as [[top d0]| |] eqn:Hthis; cbn [bind] in Hev; [|done..].
  assert (d0 = d /\ exists ds, delegates d = top :: ds) as [-> [ds Hds]].
  { destruct d as [[|h ds] m a l]; [done|]. run_in Hthis. simplify_eq.
    split; [done|]. by eexists. }
  destruct (handler_sat top fuel e d true d' Ha Hev) as [Ha' Hmv].
  split; [done|].
  assert (Hp : places d = place_of top :: (place_of <$> ds)).
  { unfold places. by rewrite Hds. }
  assert (Hgrow :
    places d' =
      match place_of top with at_root => at_model | _ => inside end ::
      places d ->
    exists p, places d' = p :: places d /\ stack_ok (places d')).
  { intros Hd'. eexists. split; [exact Hd'|]. rewrite Hd', Hp.
    rewrite Hp in Hok.
    destruct (place_of top); cbn in *.
    - by rewrite Hok.
    - rewrite Hok. cbn. split; [lia|done].
    - destruct Hok. split; [cbn; lia|]. done. }
  destruct e; cbn [effect_of moved] in *; auto.
Qed.


Lemma transforms_at_le d e : (transforms_at d e <= 1)%nat.
Proof.
  unfold transforms_at. repeat case_match; lia.
Qed.

Lemma transforms_at_model d e :
  transforms_at d e <> 0%nat -> stack_ok (places d) ->
  places d = [at_model; at_root].
Proof.
  unfold transforms_at, places.
  destruct (delegates d) as [|[k st] ds]; [done|].
  destruct st; try done. intros _. cbn. by intros ->.
Qed.

Lemma transforms_at_end d e :
  transforms_at d e <> 0%nat -> effect_of e inside = Pop.
Proof.
  unfold transforms_at. repeat case_match; done.
Qed.

Lemma stack_ok_tail p ps :
  stack_ok (p :: ps) -> (2 <= length ps)%nat -> stack_ok ps /\ p = inside.
Proof.
  destruct p; cbn; intros Hok Hlen; [subst; cbn in Hlen; lia..|].
  by destruct Hok.
Qed.

Lemma transforms_inside fuel es :
  forall n d,
    inside_value n es = true ->
    alive d = true -> stack_ok (places d) ->
    length (places d) = (n + 2)%nat ->
    (transforms fuel es d <= 1)%nat.
Proof.
  induction es as [|e es IH]; intros n d Hes Ha Hok Hlen; [done|].
  cbn [transforms]. pose proof (transforms_at_le d e) as Hle.
  destruct (DelegatedHandler_event fuel e d) as [[[] d']| |] eqn:Hev;
    try lia.
  destruct (event_step fuel e d d' Ha Hok Hev) as [Ha' Hmv].
  destruct (decide (transforms_at d e = 0%nat)) as [Hz|Hnz].
  - rewrite Hz. cbn [Nat.add].
    destruct (effect_of e inside) as [p0| |] eqn:Heff.
    + (* a start *)
      destruct Hmv as (p & Hp & Hok').
      apply (IH (S n) d'); [|done|done|].
      * destruct e; try done.
      * rewrite Hp. cbn [length]. lia.
    + (* an end *)
      destruct Hmv as [p Hp].
      destruct n as [|n].
      { destruct e; try done; (destruct es; [cbn; lia|done]). }
      rewrite Hp in Hok, Hlen. cbn [length] in Hlen.
      apply (IH n d'); [|done| |lia].
      * destruct e; try done.
      * apply (stack_ok_tail p); [done|lia].
    + (* any other event *)
      apply (IH n d'); [|done|by rewrite Hmv|by rewrite Hmv].
      destruct e; try done.
  - pose proof (transforms_at_end d e Hnz) as Hend.
    pose proof (transforms_at_model d e Hnz Hok) as Hmodel.
    rewrite Hmodel in Hlen. cbn in Hlen. assert (n = 0%nat) as -> by lia.
    destruct e; try done; cbn in Hes; destruct es; try done; cbn; lia.
Qed.

(** While the events of one JSON value are parsed by a fresh delegator,
    the branch that transforms the global bias is taken at most once. *)
Lemma transforms_once fuel doc :
  one_value doc = true -> (transforms fuel doc create <= 1)%nat.
Proof.
  destruct doc as [|e es]; [done|]. intros Hdoc. cbn [transforms].
  assert (Hz : transforms_at create e = 0%nat) by done. rewrite Hz.
  cbn [Nat.add].
  destruct (DelegatedHandler_event fuel e create) as [[[] d']| |] eqn:Hev;
    try lia.
  destruct (event_step fuel e create d' eq_refl eq_refl Hev) as [Ha' Hmv].
  destruct e; cbn [one_value effect_of] in *; try done.
  destruct Hmv as (p & Hp & Hok').
  apply (transforms_inside fuel es 0 d'); [done..|by rewrite Hp].
Qed.

Lemma Parse_inside fuel es :
  forall n d d',
    inside_value n es = true ->
    alive d = true -> stack_ok (places d) ->
    length (places d) = (n + 2)%nat ->
    Parse fuel es d = Ret (true, d') ->
    places d' = [at_root].
Proof.
  induction es as [|e es IH]; intros n d d' Hes Ha Hok Hlen; [done|].
  cbn [Parse]. unfold bindM.
  destruct (DelegatedHandler_event fuel e d) as [[[] d1]| |] eqn:Hev;
    cbn [bind]; try done.
  destruct (event_step fuel e d d1 Ha Hok Hev) as [Ha1 Hmv].
  destruct (effect_of e inside) as [p0| |] eqn:Heff.
  - destruct Hmv as (p & Hp & Hok1).
    apply (IH (S n) d1); [|done|done|].
    + destruct e; try done.
    + rewrite Hp. cbn [length]. lia.
  - destruct Hmv as [p Hp]. rewrite Hp in Hok, Hlen. cbn [length] in Hlen.
    destruct n as [|n].
    + assert (es = []) as -> by (destruct e; try done; by destruct es).
      intros [= <-]. destruct p; cbn [stack_ok] in Hok.
      * rewrite Hok in Hlen. cbn in Hlen. lia.
      * exact Hok.
      * destruct Hok. lia.
    + apply (IH n d1); [|done| |lia].
      * destruct e; try done.
      * apply (stack_ok_tail p); [done|lia].
  - apply (IH n d1); [|done|by rewrite Hmv|by rewrite Hmv].
    destruct e; try done.
Qed.

(** When the handlers have accepted the events of one JSON value, the
    delegator is still live and its stack holds the root handler and
    nothing else: every handler pushed during the load has popped itself,
    and the stack never became empty. *)
Theorem load_leaves_root_handler (fuel : nat) (doc : list Event)
    (d : Delegator) :
  one_value doc = true ->
  Parse fuel doc create = Ret (true, d) ->
  places d = [at_root] /\ length (delegates d) = 1%nat.
Proof.
  intros Hdoc Hrun.
  assert (Hp : places d = [at_root]).
  { destruct doc as [|e es]; [done|]. revert Hrun. cbn [Parse]. unfold bindM.
    destruct (DelegatedHandler_event fuel e create) as [[[] d1]| |] eqn:Hev;
      cbn [bind]; try done.
    destruct (event_step fuel e create d1 eq_refl eq_refl Hev) as [Ha1 Hmv].
    destruct e; cbn [one_value effect_of] in *; try done.
    destruct Hmv as (p & Hp & Hok1).
    apply (Parse_inside fuel es 0 d1); [done..|by rewrite Hp]. }
  split; [exact Hp|]. unfold places in Hp.
  apply (f_equal length) in Hp. by rewrite length_fmap in Hp.
Qed.

End StackDiscipline.

(** ** Key dispatch in the leaf handlers *)

Section LeafHandlers.
Context `{T : Treelite}.

(** C6: on a string-valued member of a [tree_param] object, the key
    ["num_nodes"] assigns the parsed node count to the enclosing tree
    handler; the keys ["num_feature"], ["size_leaf_vector"] and
    ["num_deleted"] are accepted and change nothing; on any other key the
    handler returns [false], and a load that gets there ends in the fatal
    error. *)
Theorem tree_param_string_by_key (str k pk : string) (r : RegTreeHandler)
    (rest : list Handler) (d : Delegator) :
  delegates d = {| cur_key := k; state := TreeParamHandler |} ::
                {| cur_key := pk; state := RegTree r |} :: rest ->
  (k = "num_nodes" ->
   exists d',
     TreeParamHandler_String str d = Ret (true, d') /\
     delegates d' =
       {| cur_key := k; state := TreeParamHandler |} ::
       {| cur_key := pk; state := RegTree (with_num_nodes (atoi str) r) |} ::
       rest /\
     num_nodes (with_num_nodes (atoi str) r) = Some (atoi str) /\
     result d' = result d /\ log d' = log d) /\
  (k = "num_feature" \/ k = "size_leaf_vector" \/ k = "num_deleted" ->
   TreeParamHandler_String str d = Ret (true, d)) /\
  (k <> "num_nodes" -> k <> "num_feature" -> k <> "size_leaf_vector" ->
   k <> "num_deleted" ->
   TreeParamHandler_String str d = Ret (false, d) /\
   forall fuel pre post,
     Parse fuel pre create = Ret (true, d) ->
     ParseStream fuel (pre ++ EString str :: post) = Ret (Fatal (log d))).
Proof.
  intros Hd. destruct d as [ds m a l]. cbn in Hd. subst ds.
  split; [|split].
  - intros ->. eexists. unfold TreeParamHandler_String. run.
    split; [reflexivity|]. cbn. done.
  - unfold TreeParamHandler_String.
    intros [->|[->| ->]]; run; reflexivity.
  - intros ? ? ? ?.
    assert (Hrej : TreeParamHandler_String str
              {| delegates := {| cur_key := k; state := TreeParamHandler |} ::
                              {| cur_key := pk; state := RegTree r |} :: rest;
                 result := m; alive := a; log := l |} =
            Ret (false,
              {| delegates := {| cur_key := k; state := TreeParamHandler |} ::
                              {| cur_key := pk; state := RegTree r |} :: rest;
                 result := m; alive := a; log := l |})).
    { unfold TreeParamHandler_String. run.
      rewrite !bool_decide_eq_false_2 by done. reflexivity. }
    split; [exact Hrej|]. intros fuel pre post Hpre.
    apply (rejected_event_is_fatal _ _ _ _ _ _ Hpre).
    unfold DelegatedHandler_event. run. exact Hrej.
Qed.

(** C7: on the member ["num_class"] of a learner-parameter object the
    handler stores [max (atoi str) 1] as the model's number of output
    groups, which is therefore at least 1, and touches nothing else. *)
Theorem learner_param_num_class_clamped (str : string) (rest : list Handler)
    (d : Delegator) :
  delegates d = {| cur_key := "num_class"; state := LearnerParamHandler |} ::
                rest ->
  exists d',
    LearnerParamHandler_String str d = Ret (true, d') /\
    num_output_group (result d') = Z.max (atoi str) 1 /\
    1 <= num_output_group (result d') /\
    num_feature (result d') = num_feature (result d) /\
    param (result d') = param (result d) /\
    trees (result d') = trees (result d) /\
    random_forest_flag (result d') = random_forest_flag (result d) /\
    delegates d' = delegates d /\ log d' = log d.
Proof.
  intros Hd. destruct d as [ds m a l]. cbn in Hd. subst ds.
  eexists. unfold LearnerParamHandler_String. run.
  split; [reflexivity|]. cbn. repeat split; lia.
Qed.

End LeafHandlers.

(** ** The composite handlers *)

Section CompositeHandlers.
Context `{T : Treelite}.


(** C5: when the top-level model object closes, a member count other than
    2 makes the handler return [false] and leave everything as it was, and
    the load ends in the fatal error; with 2 members and a version sequence
    that has a leading element, the handler returns [true] and pops itself,
    and a load that ends there yields the model. *)
Theorem model_object_member_count (version : list Z) (k : string)
    (rest : list Handler) (d : Delegator) (memberCount : Z) :
  delegates d = {| cur_key := k; state := XGBoostModelHandler version |} ::
                rest ->
  (memberCount <> 2 ->
   XGBoostModelHandler_EndObject version memberCount d = Ret (false, d) /\
   forall fuel pre post,
     Parse fuel pre create = Ret (true, d) ->
     ParseStream fuel (pre ++ EEndObject memberCount :: post) =
     Ret (Fatal (log d))) /\
  (memberCount = 2 -> alive d = true -> version <> [] ->
   exists d',
     XGBoostModelHandler_EndObject version memberCount d = Ret (true, d') /\
     delegates d' = rest /\ log d' = log d /\
     forall fuel pre,
       Parse fuel pre create = Ret (true, d) ->
       ParseStream fuel (pre ++ [EEndObject memberCount]) =
       Ret (Model (result d'))).
Proof.
  intros Hd. destruct d as [ds m a l]. cbn in Hd. subst ds. split.
  - intros Hmc.
    assert (Hrej : forall d0,
              XGBoostModelHandler_EndObject version memberCount d0 =
              Ret (false, d0)).
    { intros d0. unfold XGBoostModelHandler_EndObject.
      destruct (Z.eqb_spec memberCount 2); [done|reflexivity]. }
    split; [apply Hrej|]. intros fuel pre post Hpre.
    apply (rejected_event_is_fatal _ _ _ _ _ _ Hpre).
    unfold DelegatedHandler_event. run. apply Hrej.
  - intros -> Ha Hv. cbn in Ha. subst a.
    destruct version as [|v vs]; [done|].
    assert (Hok : exists d',
              XGBoostModelHandler_EndObject (v :: vs) 2
                {| delegates :=
                     {| cur_key := k;
                        state := XGBoostModelHandler (v :: vs) |} :: rest;
                   result := m; alive := true; log := l |} =
              Ret (true, d') /\ delegates d' = rest /\ log d' = l).
    { unfold XGBoostModelHandler_EndObject. cbn [Z.eqb Pos.eqb negb].
      rewrite index_front. run.
      destruct (1 <=? v); run; eexists; (split; [reflexivity|done]). }
    destruct Hok as (d' & Hrun & Hds & Hlog).
    exists d'. repeat split; [exact Hrun|exact Hds|exact Hlog|].
    intros fuel pre Hpre. unfold ParseStream. rewrite Parse_app.
    unfold bindM. rewrite Hpre. cbn [bind Parse]. unfold bindM.
    unfold DelegatedHandler_event. run.
    cbn [XGBoostModelHandler_event]. rewrite Hrun. reflexivity.
Qed.

(** C3: when the top-level model object closes (with its 2 members) on a
    version sequence [v :: vs], the global bias is put through
    [TransformGlobalBiasToMargin], once, when [1 <= v], and left as it is
    otherwise, in particular for [v = 0]; the model leaves random-forest
    mode and nothing else of it changes.  During the load of a document
    (the events of one JSON value) the transforming branch is taken at
    most once. *)
Theorem version_gates_bias_transform :
  (forall (v : Z) (vs : list Z) (k : string) (rest : list Handler)
          (d : Delegator),
     delegates d =
       {| cur_key := k; state := XGBoostModelHandler (v :: vs) |} :: rest ->
     alive d = true ->
     exists d',
       XGBoostModelHandler_EndObject (v :: vs) 2 d = Ret (true, d') /\
       (1 <= v ->
        param (result d') = TransformGlobalBiasToMargin (param (result d))) /\
       (v < 1 -> param (result d') = param (result d)) /\
       (v = 0 -> param (result d') = param (result d)) /\
       transforms_at d (EEndObject 2) = (if 1 <=? v then 1%nat else 0%nat) /\
       random_forest_flag (result d') = false /\
       trees (result d') = trees (result d) /\
       num_feature (result d') = num_feature (result d) /\
       num_output_group (result d') = num_output_group (result d)) /\
  (forall (fuel : nat) (doc : list Event),
     one_value doc = true -> (transforms fuel doc create <= 1)%nat).
Proof.
  split; [|apply transforms_once].
  intros v vs k rest d Hd Ha. destruct d as [ds m a l]. cbn in Hd, Ha.
  subst ds a.
  unfold XGBoostModelHandler_EndObject. cbn [Z.eqb Pos.eqb negb].
  rewrite index_front. run. unfold transforms_at.
  cbn [delegates andb Z.eqb Pos.eqb].
  destruct (Z.leb_spec 1 v); run; eexists; (split; [reflexivity|]);
    cbn; repeat split; intros; lia || reflexivity.
Qed.

(** C10: the finalisation reads [version[0]] without checking that there
    is one: the lookup has a value exactly when the version sequence is
    not empty, and the close of a top-level object with 2 members is
    undefined behaviour exactly when the sequence is empty. *)
Theorem version_front_needs_element (version : list Z) (k : string)
    (rest : list Handler) (d : Delegator) :
  delegates d = {| cur_key := k; state := XGBoostModelHandler version |} ::
                rest ->
  (is_Some (at_ version 0) <-> version <> []) /\
  (XGBoostModelHandler_EndObject version 2 d = Undefined <-> version = []).
Proof.
  intros Hd. destruct d as [ds m a l]. cbn in Hd. subst ds.
  destruct version as [|v vs].
  - split; [split; [intros [? [=]]|done]|].
    split; [done|]. intros _. reflexivity.
  - split; [split; [done|intros _; by eexists]|].
    split; [|done].
    unfold XGBoostModelHandler_EndObject. cbn [Z.eqb Pos.eqb negb].
    rewrite index_front. run.
    destruct (1 <=? v), a; run; done.
Qed.

End CompositeHandlers.

(** ** The tree handler *)

Section TreeHandler.
Context `{T : Treelite}.
Implicit Types (h : RegTreeHandler) (d : Delegator).

Lemma ne_size_false {A : Type} n (v : list A) :
  int_range n -> vector_ok v -> ne_size n v = false <-> size v = n.
Proof.
  unfold ne_size, size_t_of_int, int_range, vector_ok, PTRDIFF_MAX.
  change (2 ^ 31) with 2147483648. change (2 ^ 63) with 9223372036854775808.
  change (2 ^ 64) with 18446744073709551616.
  intros Hn Hv. pose proof (size_nonneg v).
  rewrite negb_false_iff, Z.eqb_eq. split.
  - destruct (Z.le_gt_cases 0 n).
    + rewrite Z.mod_small; lia.
    + replace n with (n + 18446744073709551616 +
                      (-1) * 18446744073709551616) at 1 by lia.
      rewrite Z_mod_plus_full. rewrite Z.mod_small; lia.
  - intros <-. rewrite Z.mod_small; lia.
Qed.

Lemma size_mismatch_false n h :
  int_range n -> vectors_ok h ->
  size_mismatch n h = false <-> sizes_agree n h.
Proof.
  intros Hn (?&?&?&?&?&?&?&?&?&?). unfold size_mismatch, sizes_agree.
  rewrite !orb_false_iff, !ne_size_false by done. tauto.
Qed.

Lemma sizes_agree_vectors_ok n h :
  int_range n -> sizes_agree n h -> vectors_ok h.
Proof.
  unfold int_range, vectors_ok, vector_ok, PTRDIFF_MAX.
  change (2 ^ 31) with 2147483648. change (2 ^ 63) with 9223372036854775808.
  intros ? (?&?&?&?&?&?&?&?&?&?). repeat split; lia.
Qed.

Lemma body_of_well_formed h t fuel :
  well_formed h t -> (nodes t <= fuel)%nat ->
  exists out,
    RegTreeHandler_EndObject_body fuel h = Ret (true, out) /\
    mirrors h out 0 0 /\ size out = Z.of_nat (nodes t).
Proof.
  intros (n & Hn & Hrange & Hsz & Henc) Hfuel.
  unfold RegTreeHandler_EndObject_body. rewrite Hn.
  rewrite (proj2 (size_mismatch_false n h Hrange
                    (sizes_agree_vectors_ok _ _ Hrange Hsz)) Hsz).
  destruct (reconstruct_spec h n Hsz fuel [(0, 0, t)] Init)
    as (out & Hrun & Hmir & _ & Hcount).
  - by repeat constructor.
  - apply NoDup_singleton.
  - by repeat constructor.
  - unfold weight. cbn. lia.
  - cbn in Hrun. rewrite Hrun. cbn [bind]. exists out.
    split; [done|]. apply Forall_cons in Hmir as [Hmir _].
    split; [exact Hmir|]. change (size Init) with 1 in Hcount.
    unfold weight in Hcount. cbn in Hcount. lia.
Qed.

(** C1: when a tree object closes on arrays that all have the declared
    length and encode a tree of shape [t] from old ID 0, the handler
    returns [true], pops itself and leaves in [output] a tree that mirrors
    the arrays from its root: the node for old ID [i] is a leaf holding
    [split_conditions[i]] when [left_children[i] == -1], and otherwise a
    split on [split_indices[i]] at threshold [split_conditions[i]] with
    default branch [default_left[i]], operator [kLT] and gain
    [loss_changes[i]], whose children are the nodes for
    [left_children[i]] and [right_children[i]]; every node carries
    [sum_hessian[i]], and the tree has the nodes of [t] and no others. *)
Theorem end_object_mirrors_arrays h (t : shape) (k : string)
    (rest : list Handler) d (fuel : nat) (memberCount : Z) :
  delegates d = {| cur_key := k; state := RegTree h |} :: rest ->
  alive d = true ->
  trees (result d) <> [] ->
  well_formed h t ->
  (nodes t <= fuel)%nat ->
  exists (out : Tree) d',
    RegTreeHandler_EndObject fuel memberCount d = Ret (true, d') /\
    trees (result d') = removelast (trees (result d)) ++ [out] /\
    delegates d' = rest /\
    mirrors h out 0 0 /\
    size out = Z.of_nat (nodes t).
Proof.
  intros Hd Ha Hts Hwf Hfuel.
  destruct (body_of_well_formed h t fuel Hwf Hfuel) as (out & Hbody & Hm & Hn).
  destruct d as [ds m a l]. cbn in Hd, Ha, Hts. subst ds a.
  destruct (trees m) as [|t0 ts] eqn:Htrees; [done|].
  exists out. eexists. unfold RegTreeHandler_EndObject. run.
  rewrite Hbody. run. rewrite Htrees.
  split; [reflexivity|]. cbn [result trees delegates]. done.
Qed.

(** C2: when a tree object closes and one of the ten arrays does not have
    the declared length, the handler returns [false] without popping
    itself; no node has been reconstructed ([output] is the tree [Init]
    left), and a load that gets there ends in the fatal error and yields
    no model. *)
Theorem end_object_rejects_size_mismatch h (n : Z) (k : string)
    (rest : list Handler) d (fuel : nat) (memberCount : Z) :
  delegates d = {| cur_key := k; state := RegTree h |} :: rest ->
  trees (result d) <> [] ->
  num_nodes h = Some n -> int_range n -> vectors_ok h ->
  ~ sizes_agree n h ->
  exists d',
    RegTreeHandler_EndObject fuel memberCount d = Ret (false, d') /\
    delegates d' = delegates d /\
    trees (result d') = removelast (trees (result d)) ++ [Init] /\
    log d' = log d /\
    forall pre post,
      Parse fuel pre create = Ret (true, d) ->
      ParseStream fuel (pre ++ EEndObject memberCount :: post) =
      Ret (Fatal (log d)).
Proof.
  intros Hd Hts Hn Hrange Hok Hbad.
  assert (Hmis : size_mismatch n h = true).
  { destruct (size_mismatch n h) eqn:E; [done|].
    by apply size_mismatch_false in E. }
  destruct d as [ds m a l]. cbn in Hd, Hts. subst ds.
  destruct (trees m) as [|t0 ts] eqn:Htrees; [done|].
  set (d' := {| delegates := {| cur_key := k; state := RegTree h |} :: rest;
                result := {| trees := removelast (t0 :: ts) ++ [Init];
                             num_feature := num_feature m;
                             num_output_group := num_output_group m;
                             random_forest_flag := random_forest_flag m;
                             param := param m |};
                alive := a; log := l |}).
  assert (Hrej : RegTreeHandler_EndObject fuel memberCount
            {| delegates := {| cur_key := k; state := RegTree h |} :: rest;
               result := m; alive := a; log := l |} = Ret (false, d')).
  { unfold RegTreeHandler_EndObject, RegTreeHandler_EndObject_body. run.
    rewrite Hn, Hmis. run. rewrite Htrees. reflexivity. }
  exists d'. split; [exact Hrej|]. cbn [delegates result trees log].
  rewrite Htrees. repeat split.
  intros pre post Hpre.
  apply (rejected_event_is_fatal _ _ _ _ _ d' Hpre).
  unfold DelegatedHandler_event. run. exact Hrej.
Qed.

End TreeHandler.

(** ** What the reconstruction does not depend on *)

Section Independence.
Context `{T : Treelite}.
Implicit Types (h : RegTreeHandler) (d : Delegator).

Lemma bind_ext {A B : Type} (m : res A) (k1 k2 : A -> res B) :
  (forall a, k1 a = k2 a) -> bind m k1 = bind m k2.
Proof. intros Hk. destruct m; cbn; auto. Qed.

Lemma reconstruct_same_but_unused h1 h2 :
  same_but_unused h1 h2 ->
  forall fuel Q out, reconstruct fuel h1 Q out = reconstruct fuel h2 Q out.
Proof.
  intros (Hlc & Hsh & Hl & Hr & _ & Hsi & Hsc & Hdl & _).
  induction fuel as [|fuel IH]; intros [|[old new] Q] out; try reflexivity.
  cbn [reconstruct]. rewrite Hlc, Hsh, Hl, Hr, Hsi, Hsc, Hdl.
  apply bind_ext; intros lc. apply bind_ext; intros [output Q'].
  repeat (apply bind_ext; intros ?). apply IH.
Qed.

Lemma size_mismatch_same_but_unused h1 h2 n :
  same_but_unused h1 h2 -> size_mismatch n h1 = size_mismatch n h2.
Proof.
  intros (Hlc & Hsh & Hl & Hr & Hp & Hsi & Hsc & Hdl & _ & Hbw & Hcc).
  unfold size_mismatch, ne_size, size.
  by rewrite Hlc, Hsh, Hl, Hr, Hp, Hsi, Hsc, Hdl, Hbw, Hcc.
Qed.

(** C8: two tree handlers that differ only in the contents of
    [base_weights] and [leaf_child_counts], each array keeping its length,
    close in the same way: the same value is returned and the same tree is
    left in [output], whatever the other arrays hold. *)
Theorem unused_arrays_do_not_matter h1 h2 :
  same_but_unused h1 h2 ->
  (forall fuel,
     RegTreeHandler_EndObject_body fuel h1 =
     RegTreeHandler_EndObject_body fuel h2) /\
  (forall fuel memberCount k rest m a l,
     seen (RegTreeHandler_EndObject fuel memberCount
             {| delegates := {| cur_key := k; state := RegTree h1 |} :: rest;
                result := m; alive := a; log := l |}) =
     seen (RegTreeHandler_EndObject fuel memberCount
             {| delegates := {| cur_key := k; state := RegTree h2 |} :: rest;
                result := m; alive := a; log := l |})).
Proof.
  intros Hsame.
  assert (Hbody : forall fuel,
            RegTreeHandler_EndObject_body fuel h1 =
            RegTreeHandler_EndObject_body fuel h2).
  { intros fuel. unfold RegTreeHandler_EndObject_body.
    pose proof Hsame as (_&_&_&_&_&_&_&_&Hn&_). rewrite Hn.
    destruct (num_nodes h2) as [n|]; [|done].
    rewrite (size_mismatch_same_but_unused h1 h2 n Hsame).
    by rewrite (reconstruct_same_but_unused h1 h2 Hsame). }
  split; [exact Hbody|]. intros fuel memberCount k rest m a l.
  unfold RegTreeHandler_EndObject. run. rewrite Hbody.
  destruct (RegTreeHandler_EndObject_body fuel h2) as [[ok out]| |];
    [|done..].
  run. destruct (trees m); [done|]. run. destruct ok, a; reflexivity.
Qed.

End Independence.

(** ** Determinism *)

Section Determinism.
Context `{T : Treelite}.








End Determinism.

(** ** Further properties of the key dispatch *)

Section KeyDispatch.
Context `{T : Treelite}.

(** Under the key ["name"] the gradient-booster handler accepts the string
    ["gbtree"] and changes nothing; under any other key it rejects every
    string, without logging. *)
Theorem gradient_booster_name_gbtree (k : string) (rest : list Handler)
    (d : Delegator) :
  delegates d = {| cur_key := k; state := GradientBoosterHandler |} :: rest ->
  (k = "name" -> GradientBoosterHandler_String "gbtree" d = Ret (true, d)) /\
  (k <> "name" ->
   forall str, GradientBoosterHandler_String str d = Ret (false, d)).
Proof.
  intros Hd. destruct d as [ds m a l]. cbn in Hd. subst ds. split.
  - intros ->. reflexivity.
  - intros Hk str. unfold GradientBoosterHandler_String. run.
    by rewrite (bool_decide_eq_false_2 _ Hk).
Qed.

(** A learner-parameter object stores [strtof str] as the global bias
    under ["base_score"] and [atoi str] as the number of features under
    ["num_feature"]; a string under any key other than these and
    ["num_class"] is rejected. *)
Theorem learner_param_other_keys (str k : string) (rest : list Handler)
    (d : Delegator) :
  delegates d = {| cur_key := k; state := LearnerParamHandler |} :: rest ->
  (k = "base_score" ->
   exists d',
     LearnerParamHandler_String str d = Ret (true, d') /\
     global_bias (param (result d')) = strtof str /\
     pred_transform (param (result d')) = pred_transform (param (result d)) /\
     num_output_group (result d') = num_output_group (result d) /\
     num_feature (result d') = num_feature (result d)) /\
  (k = "num_feature" ->
   exists d',
     LearnerParamHandler_String str d = Ret (true, d') /\
     num_feature (result d') = atoi str /\
     num_output_group (result d') = num_output_group (result d) /\
     param (result d') = param (result d)) /\
  (k <> "base_score" -> k <> "num_class" -> k <> "num_feature" ->
   LearnerParamHandler_String str d = Ret (false, d)).
Proof.
  intros Hd. destruct d as [ds m a l]. cbn in Hd. subst ds.
  unfold LearnerParamHandler_String. split; [|split].
  - intros ->. eexists. run. split; [reflexivity|]. done.
  - intros ->. eexists. run. split; [reflexivity|]. done.
  - intros ? ? ?. run. by rewrite !bool_decide_eq_false_2.
Qed.

(** A nested object of the learner object under a key other than
    ["learner_model_param"], ["gradient_booster"], ["objective"] and
    ["attributes"] is rejected, and the load ends in the fatal error. *)
Theorem learner_unknown_member_rejected (objective k : string)
    (rest : list Handler) (d : Delegator) :
  delegates d = {| cur_key := k; state := LearnerHandler objective |} ::
                rest ->
  k <> "learner_model_param" -> k <> "gradient_booster" ->
  k <> "objective" -> k <> "attributes" ->
  LearnerHandler_StartObject d = Ret (false, d) /\
  forall fuel pre post,
    Parse fuel pre create = Ret (true, d) ->
    ParseStream fuel (pre ++ EStartObject :: post) = Ret (Fatal (log d)).
Proof.
  intros Hd ? ? ? ?. destruct d as [ds m a l]. cbn in Hd. subst ds.
  assert (Hrej : LearnerHandler_StartObject
            {| delegates :=
                 {| cur_key := k; state := LearnerHandler objective |} ::
                 rest;
               result := m; alive := a; log := l |} =
          Ret (false,
            {| delegates :=
                 {| cur_key := k; state := LearnerHandler objective |} ::
                 rest;
               result := m; alive := a; log := l |})).
  { unfold LearnerHandler_StartObject. run.
    by rewrite !bool_decide_eq_false_2. }
  split; [exact Hrej|]. intros fuel pre post Hpre.
  apply (rejected_event_is_fatal _ _ _ _ _ _ Hpre).
  unfold DelegatedHandler_event. run. exact Hrej.
Qed.

End KeyDispatch.

(** ** The outcomes of the reconstruction loop *)

Section Outcomes.
Context `{P : Platform}.
Implicit Types (h : RegTreeHandler) (out : Tree) (t : shape).

Lemma bind_Ret {A B : Type} (m : res A) (k : A -> res B) (b : B) :
  bind m k = Ret b -> exists a, m = Ret a /\ k a = Ret b.
Proof. destruct m; cbn; [|done..]. intros. by eexists. Qed.

Lemma index_Ret {A : Type} (v : list A) i x :
  index v i = Ret x -> at_ v i = Some x.
Proof. unfold index. destruct (at_ v i); by intros [= ->]. Qed.

(** A run of the loop that returns has visited, from each queue entry, a
    finite tree. *)
Lemma reconstruct_Ret_encodes h fuel :
  forall Q out out',
    reconstruct fuel h Q out = Ret out' ->
    exists W : list (Z * Z * shape),
      fst <$> W = Q /\ Forall (fun w => encodes h w.1.1 w.2) W /\
      (weight W <= fuel)%nat.
Proof.
  induction fuel as [|fuel IH]; intros [|[old new] Q] out out' Hrun;
    try done.
  - exists []. split; [done|]. split; [constructor|]. unfold weight. cbn. lia.
  - exists []. split; [done|]. split; [constructor|]. unfold weight. cbn. lia.
  - cbn [reconstruct] in Hrun.
    apply bind_Ret in Hrun as (lc & Hlc%index_Ret & Hrun).
    apply bind_Ret in Hrun as ([out1 Q1] & Hbranch & Hrun).
    apply bind_Ret in Hrun as (sh & _ & Hrun).
    apply bind_Ret in Hrun as (out2 & _ & Hrun).
    destruct (IH _ _ _ Hrun) as (W1 & HQ1 & Henc1 & Hw1).
    destruct (Z.eqb_spec lc (-1)) as [->|Hne].
    + apply bind_Ret in Hbranch as (sc & _ & Hbranch).
      apply bind_Ret in Hbranch as (out3 & _ & [= _ <-]).
      exists ((old, new, SLeaf) :: W1). split; [by rewrite fmap_cons, HQ1|].
      split.
      * constructor; [|done]. by apply encodes_leaf.
      * unfold weight in *. cbn. lia.
    + apply bind_Ret in Hbranch as (out3 & _ & Hbranch).
      apply bind_Ret in Hbranch as (si & _ & Hbranch).
      apply bind_Ret in Hbranch as (sc & _ & Hbranch).
      apply bind_Ret in Hbranch as (dl & _ & Hbranch).
      apply bind_Ret in Hbranch as (out4 & _ & Hbranch).
      apply bind_Ret in Hbranch as (g & _ & Hbranch).
      apply bind_Ret in Hbranch as (out5 & _ & Hbranch).
      apply bind_Ret in Hbranch as (lc' & Hlc'%index_Ret & Hbranch).
      apply bind_Ret in Hbranch as (l & _ & Hbranch).
      apply bind_Ret in Hbranch as (rc & Hrc%index_Ret & Hbranch).
      apply bind_Ret in Hbranch as (r & _ & [= _ <-]).
      assert (lc' = lc) as -> by congruence.
      apply fmap_app_inv in HQ1 as (Wa & Wr & HWa & HWr & ->).
      symmetry in HWa.
      apply fmap_app_inv in HWa as (W & Wl & HW & HWl & ->).
      destruct Wl as [|[[? ?] tl] [|? ?]]; try done.
      destruct Wr as [|[[? ?] tr] [|? ?]]; try done.
      cbn in HWl, HWr. simplify_eq.
      apply Forall_app in Henc1 as [Henc1 Hr].
      apply Forall_app in Henc1 as [Henc1 Hl].
      apply Forall_cons in Hr as [Hr _]. apply Forall_cons in Hl as [Hl _].
      cbn in Hr, Hl.
      exists ((old, new, SNode tl tr) :: W). split; [done|]. split.
      * constructor; [|done]. cbn. by eapply encodes_node.
      * rewrite !weight_app in Hw1. unfold weight in *. cbn in *. lia.
Qed.


Lemma index_None {A : Type} (v : list A) i :
  at_ v i = None -> index v i = Undefined.
Proof. unfold index. by intros ->. Qed.

Lemma at_None_range {A : Type} (v : list A) i :
  at_ v i = None <-> ~ (0 <= i < size v).
Proof.
  split.
  - intros Hn Hi. destruct (at_in_range v i Hi) as [x Hx]. congruence.
  - intros Hi. destruct (at_ v i) as [x|] eqn:E; [|done].
    apply at_Some_range in E. lia.
Qed.

(** One iteration of the loop on a queue entry whose new ID is a node of
    [out]: it reads outside the arrays when the old ID is outside them, and
    otherwise goes on with the entries of the children at the back of the
    queue. *)
Lemma reconstruct_step h n old new Q out :
  sizes_agree n h -> 0 <= new < size out ->
  (~ (0 <= old < n) /\
   forall fuel, reconstruct (S fuel) h ((old, new) :: Q) out = Undefined) \/
  (0 <= old < n /\
   exists extra out2,
     size out <= size out2 /\
     Forall (fun q => 0 <= q.2 < size out2) extra /\
     (forall c, child h old c <-> exists nw, (c, nw) ∈ extra) /\
     forall fuel,
       reconstruct (S fuel) h ((old, new) :: Q) out =
       reconstruct fuel h (Q ++ extra) out2).
Proof.
  intros Hsz Hnew. destruct (at_in_range out new Hnew) as [nd Hnd].
  destruct (at_ (left_children h) old) as [lc|] eqn:Hlc.
  - right.
    assert (Hold : 0 <= old < n).
    { apply at_Some_range in Hlc. destruct Hsz as (_&_&_&_&<-&_). done. }
    split; [done|].
    destruct (sizes_agree_in_range _ _ _ _ Hsz Hlc)
      as ([g Hg] & [sh Hsh] & [rc Hrc] & [si Hsi] & [sc Hsc] & [dl Hdl]).
    destruct (decide (lc = -1)) as [->|Hne].
    + exists [], (<[Z.to_nat new := leaf_node nd (to_float sc) sh]> out).
      split; [by rewrite size_insert|]. split; [constructor|]. split.
      * intros c. split.
        -- intros (lc & Hlc' & Hne & _). congruence.
        -- intros [nw []%elem_of_nil].
      * intros fuel. rewrite app_nil_r.
        by apply (visit_leaf h fuel old new Q out nd sc sh).
    + exists [(lc, size out); (rc, size out + 1)],
        (<[Z.to_nat new :=
             split_node (size out) (size out + 1) si (to_float sc) dl g sh]>
           (out ++ [fresh_node; fresh_node])).
      split; [rewrite size_insert, size_app; unfold size; cbn; lia|].
      split.
      { rewrite size_insert, size_app. pose proof (size_nonneg out).
        repeat constructor; cbn; unfold size; cbn; lia. }
      split.
      * intros c. split.
        -- intros (lc' & Hlc' & _ & [->|Hc]).
           ++ exists (size out). assert (lc' = lc) as -> by congruence.
              apply elem_of_cons. by left.
           ++ exists (size out + 1). assert (c = rc) as -> by congruence.
              apply elem_of_cons. right. apply elem_of_cons. by left.
        -- intros [nw Hin]. exists lc. split; [done|]. split; [done|].
           apply elem_of_cons in Hin as [[= -> _]|Hin]; [by left|].
           apply elem_of_cons in Hin as [[= -> _]|[]%elem_of_nil]. by right.
      * intros fuel.
        by apply (visit_split h fuel old new Q out nd lc rc si sc dl g sh).
  - left.
    assert (Hold : ~ (0 <= old < n)).
    { apply at_None_range in Hlc. destruct Hsz as (_&_&_&_&<-&_). done. }
    split; [done|]. intros fuel. cbn [reconstruct].
    by rewrite (index_None _ _ Hlc).
Qed.

(** When every old ID the traversal gets to is inside the arrays, no
    iteration reads outside them. *)
Lemma reconstruct_in_bounds h n :
  sizes_agree n h ->
  (forall j, visited h j -> 0 <= j < n) ->
  forall fuel Q out,
    Forall (fun q => visited h q.1 /\ 0 <= q.2 < size out) Q ->
    reconstruct fuel h Q out <> Undefined.
Proof.
  intros Hsz Hin. induction fuel as [|fuel IH]; intros [|[old new] Q] out HQ;
    try done.
  apply Forall_cons in HQ as [[Hold Hnew] HQ]. cbn in Hold, Hnew.
  destruct (reconstruct_step h n old new Q out Hsz Hnew)
    as [[Hbad _]|(_ & extra & out2 & Hgrow & Hextra & Hkids & Hstep)].
  { by apply Hin in Hold. }
  rewrite Hstep. apply IH. apply Forall_app. split.
  - eapply Forall_impl; [exact HQ|]. cbn. intros q [? ?]. split; [done|lia].
  - apply Forall_forall. intros [c nw] Hc. cbn. split.
    + apply rtc_r with old; [done|]. apply Hkids. by exists nw.
    + by apply (proj1 (Forall_forall _ _) Hextra) in Hc.
Qed.

(** An entry of the queue is visited once the entries before it have
    been. *)
Lemma reconstruct_wait h n (i : Z) :
  sizes_agree n h ->
  (forall Q out new,
     Forall (fun q => 0 <= q.2 < size out) ((i, new) :: Q) ->
     exists fuel0, forall fuel, (fuel0 <= fuel)%nat ->
       reconstruct fuel h ((i, new) :: Q) out = Undefined) ->
  forall (k : nat) Q out new,
    Q !! k = Some (i, new) ->
    Forall (fun q => 0 <= q.2 < size out) Q ->
    exists fuel0, forall fuel, (fuel0 <= fuel)%nat ->
      reconstruct fuel h Q out = Undefined.
Proof.
  intros Hsz Hhead.
  induction k as [|k IH]; intros [|[old new'] Q] out new Hk HQ; try done.
  - cbn in Hk. simplify_eq. by apply Hhead.
  - cbn in Hk. apply Forall_cons in HQ as [Hnew HQ]. cbn in Hnew.
    destruct (reconstruct_step h n old new' Q out Hsz Hnew)
      as [[_ Hbad]|(_ & extra & out2 & Hgrow & Hextra & _ & Hstep)].
    + exists 1%nat. intros [|fuel] ?; [lia|]. apply Hbad.
    + destruct (IH (Q ++ extra) out2 new) as [fuel0 Hfuel0].
      { by apply lookup_app_l_Some. }
      { apply Forall_app. split; [|done].
        eapply Forall_impl; [exact HQ|]. cbn. intros; lia. }
      exists (S fuel0). intros [|fuel] ?; [lia|].
      rewrite Hstep. apply Hfuel0. lia.
Qed.

(** An old ID outside the arrays that the traversal gets to is read from
    after finitely many iterations. *)
Lemma reconstruct_out_of_bounds h n i j :
  sizes_agree n h -> rtc (child h) i j -> ~ (0 <= j < n) ->
  forall Q out new,
    Forall (fun q => 0 <= q.2 < size out) ((i, new) :: Q) ->
    exists fuel0, forall fuel, (fuel0 <= fuel)%nat ->
      reconstruct fuel h ((i, new) :: Q) out = Undefined.
Proof.
  intros Hsz Hreach Hj. induction Hreach as [i|i c j Hc Hreach IH];
    intros Q out new HQ.
  - apply Forall_cons in HQ as [Hnew HQ]. cbn in Hnew.
    destruct (reconstruct_step h n i new Q out Hsz Hnew)
      as [[_ Hbad]|(Hok & _)]; [|done].
    exists 1%nat. intros [|fuel] ?; [lia|]. apply Hbad.
  - apply Forall_cons in HQ as [Hnew HQ]. cbn in Hnew.
    destruct (reconstruct_step h n i new Q out Hsz Hnew)
      as [[_ Hbad]|(_ & extra & out2 & Hgrow & Hextra & Hkids & Hstep)].
    + exists 1%nat. intros [|fuel] ?; [lia|]. apply Hbad.
    + destruct (proj1 (Hkids c) Hc) as [nw Hin].
      assert (Hin' : (c, nw) ∈ Q ++ extra) by (apply elem_of_app; by right).
      apply list_elem_of_lookup in Hin' as [k Hk].
      destruct (reconstruct_wait h n c Hsz (IH Hj) k (Q ++ extra) out2 nw Hk)
        as [fuel0 Hfuel0].
      { apply Forall_app. split; [|done].
        eapply Forall_impl; [exact HQ|]. cbn. intros; lia. }
      exists (S fuel0). intros [|fuel] ?; [lia|].
      rewrite Hstep. apply Hfuel0. lia.
Qed.

(** ** Arrays that encode no finite tree *)

Lemma encodes_child h i c t :
  encodes h i t -> child h i c ->
  exists t', encodes h c t' /\ (nodes t' < nodes t)%nat.
Proof.
  intros Henc (lc & Hlc & Hne & Hc).
  inversion Henc as [? Hl|? lc' rc l r Hl Hne' Hr Hencl Hencr]; subst.
  { congruence. }
  assert (lc' = lc) as -> by congruence.
  destruct Hc as [->|Hc].
  - exists l. split; [done|]. cbn. lia.
  - assert (c = rc) as -> by congruence. exists r. split; [done|]. cbn. lia.
Qed.

Lemma encodes_rtc h i j t :
  rtc (child h) i j -> encodes h i t ->
  exists t', encodes h j t' /\ (nodes t' <= nodes t)%nat.
Proof.
  intros Hreach. revert t. induction Hreach as [i|i c j Hc _ IH]; intros t Henc.
  - exists t. split; [done|lia].
  - destruct (encodes_child _ _ _ _ Henc Hc) as (t1 & Henc1 & Hlt).
    destruct (IH _ Henc1) as (t' & Henc' & Hle). exists t'. split; [done|lia].
Qed.

Lemma encodes_tc h i j t :
  tc (child h) i j -> encodes h i t ->
  exists t', encodes h j t' /\ (nodes t' < nodes t)%nat.
Proof.
  intros Hreach. revert t. induction Hreach as [i j Hc|i c j Hc _ IH];
    intros t Henc.
  - by apply encodes_child with i.
  - destruct (encodes_child _ _ _ _ Henc Hc) as (t1 & Henc1 & Hlt).
    destruct (IH _ Henc1) as (t' & Henc' & Hle). exists t'. split; [done|lia].
Qed.

(** No finite tree is encoded from an old ID that is its own descendant. *)
Lemma encodes_acyclic h j t : tc (child h) j j -> ~ encodes h j t.
Proof.
  intros Hcycle. remember (nodes t) as m eqn:Hm. revert t Hm.
  induction (lt_wf m) as [m _ IH]. intros t -> Henc.
  destruct (encodes_tc _ _ _ _ Hcycle Henc) as (t' & Henc' & Hlt).
  by apply (IH (nodes t') Hlt t').
Qed.

Lemma reconstruct_cyclic h j :
  visited h j -> tc (child h) j j ->
  forall fuel out, reconstruct fuel h [(0, 0)] Init <> Ret out.
Proof.
  intros Hreach Hcycle fuel out Hrun.
  destruct (reconstruct_Ret_encodes _ _ _ _ _ Hrun) as (W & HW & Henc & _).
  destruct W as [|[[? ?] t] [|? ?]]; try done. cbn in HW. simplify_eq.
  apply Forall_cons in Henc as [Henc _]. cbn in Henc.
  destruct (encodes_rtc _ _ _ _ Hreach Henc) as (t' & Henc' & _).
  by apply (encodes_acyclic _ _ _ Hcycle) in Henc'.
Qed.

End Outcomes.

Section LoopOutcomes.
Context `{T : Treelite}.
Implicit Types (h : RegTreeHandler) (out : Tree) (t : shape) (d : Delegator).

Lemma body_Ret_true h fuel out :
  vectors_ok h -> (forall n, num_nodes h = Some n -> int_range n) ->
  RegTreeHandler_EndObject_body fuel h = Ret (true, out) ->
  exists t, well_formed h t /\ (nodes t <= fuel)%nat.
Proof.
  intros Hok Hint. unfold RegTreeHandler_EndObject_body.
  destruct (num_nodes h) as [n|] eqn:Hn; [|done].
  destruct (size_mismatch n h) eqn:Hmis; [done|].
  apply size_mismatch_false in Hmis; [|by apply Hint|done].
  intros (out' & Hrun & _)%bind_Ret.
  destruct (reconstruct_Ret_encodes _ _ _ _ _ Hrun) as (W & HW & Henc & Hw).
  destruct W as [|[[? ?] t] [|? ?]]; try done. cbn in HW. simplify_eq.
  apply Forall_cons in Henc as [Henc _]. cbn in Henc.
  exists t. split.
  - exists n. split; [done|]. split; [by apply Hint|]. done.
  - unfold weight in Hw. cbn in Hw. lia.
Qed.

(** The loop of [RegTreeHandler::EndObject] runs to completion exactly on
    arrays that encode a finite tree from old ID 0, the traversal of a
    shared child counting once for each of its parents; the tree it leaves
    then mirrors the arrays and has one node for each node of that
    unfolding, which can be more than [num_nodes]. *)
Theorem end_object_completes_iff_encodes h (fuel : nat) :
  vectors_ok h -> (forall n, num_nodes h = Some n -> int_range n) ->
  ((exists out, RegTreeHandler_EndObject_body fuel h = Ret (true, out)) <->
   (exists t, well_formed h t /\ (nodes t <= fuel)%nat)) /\
  (forall out,
     RegTreeHandler_EndObject_body fuel h = Ret (true, out) ->
     exists t, well_formed h t /\ mirrors h out 0 0 /\
               size out = Z.of_nat (nodes t)).
Proof.
  intros Hok Hint. split; [split|].
  - intros [out Hrun]. by apply body_Ret_true with out.
  - intros (t & Hwf & Hfuel).
    destruct (body_of_well_formed h t fuel Hwf Hfuel) as (out & Hrun & _).
    by exists out.
  - intros out Hrun.
    destruct (body_Ret_true h fuel out Hok Hint Hrun) as (t & Hwf & Hfuel).
    destruct (body_of_well_formed h t fuel Hwf Hfuel) as (out' & Hrun' & ? & ?).
    assert (out' = out) as -> by congruence. by exists t.
Qed.

(** When the traversal gets to a child ID that is outside the arrays, the
    loop reads [left_children] out of bounds after finitely many
    iterations; when every ID it gets to is inside the arrays, no iteration
    does. *)
Theorem out_of_range_child_is_undefined h (n : Z) :
  num_nodes h = Some n -> int_range n -> sizes_agree n h ->
  ((exists j, visited h j /\ ~ (0 <= j < n)) ->
   exists fuel0, forall fuel, (fuel0 <= fuel)%nat ->
     RegTreeHandler_EndObject_body fuel h = Undefined) /\
  ((forall j, visited h j -> 0 <= j < n) ->
   forall fuel, RegTreeHandler_EndObject_body fuel h <> Undefined).
Proof.
  intros Hn Hint Hsz.
  assert (Hmis : size_mismatch n h = false).
  { apply size_mismatch_false; [done| |done].
    by apply sizes_agree_vectors_ok with n. }
  unfold RegTreeHandler_EndObject_body. rewrite Hn, Hmis. split.
  - intros (j & Hreach & Hj).
    destruct (reconstruct_out_of_bounds h n 0 j Hsz Hreach Hj [] Init 0)
      as [fuel0 Hfuel0].
    { by repeat constructor. }
    exists fuel0. intros fuel Hfuel. by rewrite Hfuel0.
  - intros Hin fuel.
    pose proof (reconstruct_in_bounds h n Hsz Hin fuel [(0, 0)] Init) as Hdef.
    destruct (reconstruct fuel h [(0, 0)] Init); [done| |done].
    exfalso. apply Hdef; [|done]. repeat constructor; by cbn.
Qed.

(** When the traversal gets to an old ID that is its own descendant, the
    loop never empties its queue: [EndObject] does not return, whatever
    the number of iterations, and as long as the child IDs stay inside the
    arrays every iteration is followed by another. *)
Theorem cyclic_arrays_never_finish h (n j : Z) :
  num_nodes h = Some n -> int_range n -> sizes_agree n h ->
  visited h j -> tc (child h) j j ->
  (forall fuel r, RegTreeHandler_EndObject_body fuel h <> Ret r) /\
  ((forall i, visited h i -> 0 <= i < n) ->
   forall fuel, RegTreeHandler_EndObject_body fuel h = OutOfFuel).
Proof.
  intros Hn Hint Hsz Hreach Hcycle.
  assert (Hmis : size_mismatch n h = false).
  { apply size_mismatch_false; [done| |done].
    by apply sizes_agree_vectors_ok with n. }
  unfold RegTreeHandler_EndObject_body. rewrite Hn, Hmis.
  pose proof (reconstruct_cyclic h j Hreach Hcycle) as Hloop. split.
  - intros fuel r. specialize (Hloop fuel).
    destruct (reconstruct fuel h [(0, 0)] Init) as [out| |]; [|done..].
    by destruct (Hloop out).
  - intros Hin fuel. specialize (Hloop fuel).
    pose proof (reconstruct_in_bounds h n Hsz Hin fuel [(0, 0)] Init) as Hdef.
    destruct (reconstruct fuel h [(0, 0)] Init) as [out| |]; [| |done].
    + by destruct (Hloop out).
    + exfalso. apply Hdef; [|done]. repeat constructor; by cbn.
Qed.

(** An event on which the active handler runs into undefined behaviour
    makes the whole load undefined. *)
Lemma undefined_event_is_undefined fuel pre e post d :
  Parse fuel pre create = Ret (true, d) ->
  DelegatedHandler_event fuel e d = Undefined ->
  ParseStream fuel (pre ++ e :: post) = Undefined.
Proof.
  intros Hpre He. unfold ParseStream. rewrite Parse_app.
  unfold bindM. rewrite Hpre. cbn [bind Parse].
  unfold bindM. rewrite He. done.
Qed.

(** A tree object that declares zero nodes and holds ten empty arrays
    passes the length check; the loop then reads [left_children[0]] of an
    empty vector, which is undefined behaviour, and so is the load. *)
Theorem zero_nodes_reads_out_of_bounds h (k : string) (rest : list Handler)
    d (fuel : nat) (memberCount : Z) :
  delegates d = {| cur_key := k; state := RegTree h |} :: rest ->
  num_nodes h = Some 0 -> sizes_agree 0 h ->
  size_mismatch 0 h = false /\
  RegTreeHandler_EndObject (S fuel) memberCount d = Undefined /\
  forall pre post,
    Parse (S fuel) pre create = Ret (true, d) ->
    ParseStream (S fuel) (pre ++ EEndObject memberCount :: post) = Undefined.
Proof.
  intros Hd Hn Hsz.
  assert (Hint : int_range 0) by (unfold int_range; lia).
  assert (Hmis : size_mismatch 0 h = false).
  { apply size_mismatch_false; [done| |done].
    by apply sizes_agree_vectors_ok with 0. }
  assert (Hbody : RegTreeHandler_EndObject_body (S fuel) h = Undefined).
  { unfold RegTreeHandler_EndObject_body. rewrite Hn, Hmis.
    cbn [reconstruct].
    rewrite index_None; [done|]. apply at_None_range.
    destruct Hsz as (_&_&_&_&->&_). lia. }
  assert (Hrun : RegTreeHandler_EndObject (S fuel) memberCount d = Undefined).
  { destruct d as [ds m a l]. cbn in Hd. subst ds.
    unfold RegTreeHandler_EndObject. run. by rewrite Hbody. }
  split; [done|]. split; [done|]. intros pre post Hpre.
  apply (undefined_event_is_undefined _ _ _ _ _ Hpre).
  destruct d as [ds m a l]. cbn in Hd. subst ds.
  unfold DelegatedHandler_event. run. exact Hrun.
Qed.

End LoopOutcomes.

(** ** Values that are skipped *)

Section Skipping.
Context `{T : Treelite}.

(** With [n + 1] ignore handlers on top of the stack, the rest of a value
    in which [n] objects or arrays are open is accepted whatever it holds,
    and leaves the delegator as it was below those handlers. *)
Lemma Parse_ignore fuel es :
  forall (n : nat) (ignores rest : list Handler) m l,
    inside_value n es = true ->
    length ignores = S n ->
    Forall (fun h => state h = IgnoreHandler) ignores ->
    Parse fuel es {| delegates := ignores ++ rest; result := m;
                     alive := true; log := l |} =
    Ret (true, {| delegates := rest; result := m; alive := true; log := l |}).
Proof.
  induction es as [|e es IH]; intros n ignores rest m l Hes Hlen Hign; [done|].
  destruct ignores as [|[k st] ignores]; [done|].
  apply Forall_cons in Hign as [Hst Hign]. cbn in Hst. subst st.
  cbn in Hlen. cbn [Parse app]. unfold DelegatedHandler_event.
  destruct e; cbn [inside_value] in Hes; run;
    cbn [IgnoreHandler_event BaseHandler_event]; run.
  all: try (apply (IH n
                     ({| cur_key := k; state := IgnoreHandler |} :: ignores));
            [done|cbn; lia|by constructor]).
  all: try (apply (IH (S n)
                     ({| cur_key := ""; state := IgnoreHandler |} ::
                      {| cur_key := k; state := IgnoreHandler |} :: ignores));
            [done|cbn; lia|by repeat constructor]).
  all: destruct n as [|n];
    [ destruct es; [|done]; destruct ignores; [|done]; reflexivity
    | apply (IH n ignores); [done|lia|done] ].
Qed.

(** With [n + 1] ignore handlers on top of the stack, the remaining events
    of the value they are skipping, in which [n] objects or arrays are
    open, are all accepted, whatever they are; the handlers pop one by one,
    and the model, the log and the stack below them are left untouched. *)
Theorem ignore_handler_skips_value (fuel : nat) (es : list Event) (n : nat)
    (ignores rest : list Handler) (d : Delegator) :
  delegates d = ignores ++ rest -> alive d = true ->
  Forall (fun h => state h = IgnoreHandler) ignores ->
  length ignores = S n ->
  inside_value n es = true ->
  Parse fuel es d =
  Ret (true, {| delegates := rest; result := result d; alive := true;
                log := log d |}).
Proof.
  intros Hd Ha Hign Hlen Hes. destruct d as [ds m a l]. cbn in Hd, Ha.
  subst ds a. by apply Parse_ignore with n.
Qed.

(** The value of a member that a handler ignores can be any JSON value:
    its events are all accepted, and after them the delegator is exactly
    as it was before them. *)
Theorem ignored_members_change_nothing (fuel : nat) (e : Event)
    (es : list Event) (k : string) (st : HandlerState) (rest : list Handler)
    (d : Delegator) :
  delegates d = {| cur_key := k; state := st |} :: rest -> alive d = true ->
  ignored_member st k e -> one_value (e :: es) = true ->
  Parse fuel (e :: es) d = Ret (true, d).
Proof.
  intros Hd Ha Hmem Hes. destruct d as [ds m a l]. cbn in Hd, Ha. subst ds a.
  assert (Hskip :
    inside_value 0 es = true ->
    Parse fuel es
      {| delegates := {| cur_key := ""; state := IgnoreHandler |} ::
                      {| cur_key := k; state := st |} :: rest;
         result := m; alive := true; log := l |} =
    Ret (true, {| delegates := {| cur_key := k; state := st |} :: rest;
                  result := m; alive := true; log := l |})).
  { intros Hin.
    apply (Parse_ignore fuel es 0
             [ {| cur_key := ""; state := IgnoreHandler |} ]);
      [done|done|by repeat constructor]. }
  cbn [Parse]. unfold DelegatedHandler_event.
  destruct st, e; cbn [ignored_member] in Hmem; try done;
    cbn [one_value] in Hes;
    cbn [LearnerHandler_event GBTreeModelHandler_event ObjectiveHandler_event
         RegTreeHandler_event IgnoreHandler_event];
    unfold LearnerHandler_StartObject, GBTreeModelHandler_StartObject,
      GBTreeModelHandler_StartArray, ObjectiveHandler_StartObject,
      RegTreeHandler_StartArray;
    repeat match type of Hmem with _ \/ _ => destruct Hmem as [Hmem|Hmem] end;
    try subst k; run; keys; run; by apply Hskip.
Qed.

End Skipping.

(** ** What the events of a load change *)

Section Frames.
Context `{T : Treelite}.

Ltac stack_only_tac :=
  let H := fresh "H" in
  intros [[|[? ?] [|[? []] ?]] ? [] ?] ? ? H; run_in H;
  repeat case_match; simplify_eq; done.

Lemma stack_only_ret {A : Type} (a : A) : stack_only (ret a).
Proof. by intros d a' d' [= <- <-]. Qed.

Lemma stack_only_bind {A B : Type} (m : M A) (k : A -> M B) :
  stack_only m -> (forall a, stack_only (k a)) -> stack_only (bindM m k).
Proof.
  intros Hm Hk d b d'. unfold bindM.
  destruct (m d) as [[a d1]| |] eqn:E; cbn; [|done..].
  intros Hkd. destruct (Hm _ _ _ E) as (?&?&?).
  destruct (Hk a _ _ _ Hkd) as (?&?&?). repeat split; congruence.
Qed.

Lemma stack_only_orelse (a b : M bool) :
  stack_only a -> stack_only b -> stack_only (a ||| b).
Proof.
  intros Ha Hb. unfold orelse. apply stack_only_bind; [done|].
  intros []; [apply stack_only_ret|done].
Qed.

Lemma stack_only_check k : stack_only (check_cur_key k).
Proof. stack_only_tac. Qed.

Lemma stack_only_set_cur_key k : stack_only (set_cur_key k).
Proof. stack_only_tac. Qed.

Lemma stack_only_push c : stack_only (push_handler c).
Proof. stack_only_tac. Qed.

Lemma stack_only_push_key k c : stack_only (push_key_handler k c).
Proof. stack_only_tac. Qed.

Lemma stack_only_pop : stack_only pop_handler.
Proof. stack_only_tac. Qed.

Lemma stack_only_store f : stack_only (store f).
Proof. stack_only_tac. Qed.

Lemma stack_only_store_version u : stack_only (store_version u).
Proof. stack_only_tac. Qed.

Lemma stack_only_assign_num_nodes k v :
  stack_only (assign_value k v set_num_nodes).
Proof. stack_only_tac. Qed.

Lemma stack_only_assign_objective k v :
  stack_only (assign_value k v set_objective).
Proof. stack_only_tac. Qed.

Lemma stack_only_BaseHandler e : stack_only (BaseHandler_event e).
Proof.
  destruct e; cbn; try apply stack_only_ret; try apply stack_only_pop.
  apply stack_only_bind; [apply stack_only_set_cur_key|].
  intros _. apply stack_only_ret.
Qed.

Ltac stack_only_step :=
  first
    [ apply stack_only_ret | apply stack_only_pop | apply stack_only_check
    | apply stack_only_push | apply stack_only_push_key
    | apply stack_only_store | apply stack_only_store_version
    | apply stack_only_assign_num_nodes | apply stack_only_assign_objective
    | apply stack_only_BaseHandler | apply stack_only_orelse
    | apply stack_only_set_cur_key
    | apply stack_only_bind; [|intros ?] ].

Lemma DelegatedHandler_event_top fuel e k st rest m a l :
  DelegatedHandler_event fuel e
    {| delegates := {| cur_key := k; state := st |} :: rest;
       result := m; alive := a; log := l |} =
  handler_event fuel st e
    {| delegates := {| cur_key := k; state := st |} :: rest;
       result := m; alive := a; log := l |}.
Proof. unfold DelegatedHandler_event. run. by destruct st. Qed.

(** But for the seven methods that write to the model or log, a handler
    method changes nothing but the stack of handlers. *)
Lemma handler_event_stack_only fuel st e :
  writes_model st e = false -> may_log st e = false ->
  stack_only (handler_event fuel st e).
Proof.
  destruct st, e; cbn; try done; intros _ _;
    unfold RootHandler_StartObject, XGBoostModelHandler_StartArray,
      XGBoostModelHandler_StartObject, LearnerHandler_StartObject,
      GBTreeModelHandler_StartArray, GBTreeModelHandler_StartObject,
      ObjectiveHandler_StartObject, ObjectiveHandler_String,
      RegTreeHandler_StartArray, RegTreeHandler_StartObject,
      RegTreeHandler_Uint, TreeParamHandler_String;
    repeat stack_only_step.
Qed.

Lemma removelast_lookup {A : Type} (ts : list A) (x : A) (i : nat) :
  (S i < length ts)%nat -> (removelast ts ++ [x]) !! i = ts !! i.
Proof.
  intros Hi. rewrite removelast_firstn_len.
  rewrite lookup_app_l by (rewrite length_take; lia).
  apply lookup_take_lt. lia.
Qed.

Lemma removelast_length {A : Type} (ts : list A) (x : A) :
  ts <> [] -> length (removelast ts ++ [x]) = length ts.
Proof.
  intros Hts. rewrite removelast_firstn_len, length_app, length_take.
  destruct ts; [done|]. cbn. lia.
Qed.

(** What an event does to the model: nothing, unless it is one of the
    five that write to it; and the two that touch the sequence of trees
    append an empty tree or rewrite the last one. *)
Lemma event_effect fuel e k st rest m a l ok d' :
  DelegatedHandler_event fuel e
    {| delegates := {| cur_key := k; state := st |} :: rest;
       result := m; alive := a; log := l |} = Ret (ok, d') ->
  alive d' = a /\
  (writes_model st e = false -> result d' = m) /\
  (if ok then log d' = l
   else log d' = l \/ exists msg, handler_error msg /\ log d' = l ++ [msg]) /\
  (trees (result d') = trees m \/
   trees (result d') = trees m ++ [[]] \/
   trees m <> [] /\
   exists out, trees (result d') = removelast (trees m) ++ [out]).
Proof.
  rewrite DelegatedHandler_event_top. intros Hrun.
  destruct (writes_model st e) eqn:Hw; [|destruct (may_log st e) eqn:Hl].
  - destruct st, e; try done; cbn in Hrun.
    + (* the model object closes *)
      unfold XGBoostModelHandler_EndObject in Hrun.
      destruct (memberCount =? 2); cbn [negb] in Hrun; run_in Hrun.
      * destruct (index version 0) as [v0| |]; [|done..].
        destruct (1 <=? v0), a; run_in Hrun; simplify_eq; cbn;
          (split; [done|]); (split; [done|]); auto.
      * simplify_eq. cbn. auto.
    + (* the learner object closes *)
      unfold LearnerHandler_EndObject in Hrun. run_in Hrun.
      destruct a; simplify_eq; cbn; (split; [done|]); (split; [done|]); auto.
    + (* a learner parameter *)
      unfold LearnerParamHandler_String in Hrun. run_in Hrun.
      destruct (bool_decide (k = "base_score"));
        [|destruct (bool_decide (k = "num_class"));
          [|destruct (bool_decide (k = "num_feature"))]];
        simplify_eq; cbn [result alive log trees];
        (split; [done|]); (split; [done|]); auto.
    + (* a tree object closes *)
      unfold RegTreeHandler_EndObject in Hrun. run_in Hrun.
      destruct (RegTreeHandler_EndObject_body fuel h) as [[ok' out]| |];
        [|done..].
      run_in Hrun. destruct (trees m) as [|t0 ts] eqn:Hts; [done|].
      run_in Hrun.
      destruct ok', a; simplify_eq; cbn; rewrite ?Hts;
        (split; [done|]); (split; [done|]); (split; [by auto|]);
        right; right; (split; [done|]); by eexists.
    + (* a tree object opens *)
      run_in Hrun.
      destruct a; simplify_eq; cbn; (split; [done|]); (split; [done|]); auto.
  - destruct st, e; try done; cbn in Hrun.
    + unfold GradientBoosterHandler_String in Hrun. run_in Hrun.
      repeat case_match; simplify_eq; cbn; (split; [done|]);
        (split; [done|]); (split; [|by auto]); auto.
      right. eexists. split; [apply booster_error|done].
    + unfold GradientBoosterHandler_StartObject in Hrun. run_in Hrun.
      repeat case_match; simplify_eq; cbn; (split; [done|]);
        (split; [done|]); (split; [|by auto]); auto.
      right. eexists. split; [apply key_error|done].
  - destruct (handler_event_stack_only fuel st e Hw Hl _ _ _ Hrun)
      as (Hm & Ha & Hlog).
    cbn in Hm, Ha, Hlog. rewrite Hm. split; [done|]. split; [done|].
    split; [|auto]. destruct ok; auto.
Qed.

(** What a run of events does: the liveness stays; accepted events do not
    log, and the rejected one logs at most one line; the sequence of trees
    does not shrink, and only its last element is ever rewritten. *)
Lemma Parse_effect fuel es :
  forall d ok d',
    Parse fuel es d = Ret (ok, d') ->
    alive d' = alive d /\
    (if ok then log d' = log d
     else log d' = log d \/
          exists msg, handler_error msg /\ log d' = log d ++ [msg]) /\
    (length (trees (result d)) <= length (trees (result d')))%nat /\
    forall i : nat,
      (S i < length (trees (result d)))%nat ->
      trees (result d') !! i = trees (result d) !! i.
Proof.
  induction es as [|e es IH]; intros d ok d'.
  { intros [= <- <-]. auto. }
  cbn [Parse]. unfold bindM.
  destruct (DelegatedHandler_event fuel e d) as [[ok1 d1]| |] eqn:Hev;
    cbn [bind]; [|done..].
  destruct d as [[|[k st] rest] m a l]; [done|].
  destruct (event_effect _ _ _ _ _ _ _ _ _ _ Hev) as (Ha & _ & Hlog & Htrees).
  cbn [alive log result].
  assert (Hstep :
    (length (trees m) <= length (trees (result d1)))%nat /\
    forall i : nat,
      (S i < length (trees m))%nat -> trees (result d1) !! i = trees m !! i).
  { destruct Htrees as [->|[->|(Hne & out & ->)]].
    - auto.
    - rewrite length_app. split; [lia|]. intros i Hi.
      apply lookup_app_l. lia.
    - rewrite removelast_length by done. split; [lia|]. intros i Hi.
      by apply removelast_lookup. }
  destruct Hstep as [Hlen Hfrozen].
  destruct ok1.
  - intros Hrest. destruct (IH _ _ _ Hrest) as (Ha' & Hlog' & Hlen' & Hfrozen').
    split; [congruence|]. split.
    { rewrite <- Hlog. exact Hlog'. }
    split; [lia|]. intros i Hi. rewrite Hfrozen' by lia. by apply Hfrozen.
  - intros [= <- <-]. auto.
Qed.

(** The handlers log at error level only on the event they reject, and
    then at most one line: a load that ends in the fatal error reports no
    handler line or exactly one, about the booster type or about an
    unrecognized key of the booster object; as long as events are accepted
    the log stays empty and the delegator live. *)
Theorem load_logs_at_most_one_line (fuel : nat) (input : list Event) :
  (forall d, Parse fuel input create = Ret (true, d) ->
             log d = [] /\ alive d = true) /\
  (forall errors,
     ParseStream fuel input = Ret (Fatal errors) ->
     errors = [] \/ exists msg, handler_error msg /\ errors = [msg]).
Proof.
  split.
  - intros d Hrun. destruct (Parse_effect _ _ _ _ _ Hrun) as (Ha & Hlog & _).
    done.
  - intros errors. unfold ParseStream.
    destruct (Parse fuel input create) as [[[] d]| |] eqn:Hrun; cbn; try done.
    intros [= <-]. destruct (Parse_effect _ _ _ _ _ Hrun) as (_ & Hlog & _).
    cbn in Hlog. destruct Hlog as [->|(msg & Hmsg & ->)]; [by left|].
    right. by exists msg.
Qed.

(** No run of events removes a tree from the model or changes a tree other
    than the last one: once the next tree has been started, a tree is
    final. *)
Theorem finished_trees_are_frozen (fuel : nat) (events : list Event)
    (d d' : Delegator) (ok : bool) :
  Parse fuel events d = Ret (ok, d') ->
  (length (trees (result d)) <= length (trees (result d')))%nat /\
  forall i : nat,
    (S i < length (trees (result d)))%nat ->
    trees (result d') !! i = trees (result d) !! i.
Proof.
  intros Hrun. by destruct (Parse_effect _ _ _ _ _ Hrun) as (_ & _ & ?).
Qed.

(** Five methods write to the model: [LearnerParamHandler::String], the
    [EndObject] of the learner, of the top-level object and of a tree, and
    the start of a tree object in the array of trees.  Any other event
    leaves the model exactly as it was, whether it is accepted or not. *)
Theorem only_five_methods_write_the_model (fuel : nat) (e : Event)
    (top : Handler) (rest : list Handler) (d d' : Delegator) (ok : bool) :
  delegates d = top :: rest ->
  writes_model (state top) e = false ->
  DelegatedHandler_event fuel e d = Ret (ok, d') ->
  result d' = result d /\ alive d' = alive d.
Proof.
  intros Hd Hw Hrun. destruct d as [ds m a l], top as [k st].
  cbn in Hd. subst ds.
  destruct (event_effect _ _ _ _ _ _ _ _ _ _ Hrun) as (Ha & Hm & _).
  split; [by apply Hm|done].
Qed.

End Frames.

(** ** Running a document *)

Section Sequencing.
Context `{T : Treelite}.

Lemma Parse_seq fuel pre post d d1 r :
  Parse fuel pre d = Ret (true, d1) -> Parse fuel post d1 = r ->
  Parse fuel (pre ++ post) d = r.
Proof.
  intros Hpre Hpost. rewrite Parse_app. unfold bindM. by rewrite Hpre.
Qed.

Lemma Parse_cons fuel e es d d1 r :
  DelegatedHandler_event fuel e d = Ret (true, d1) ->
  Parse fuel es d1 = r ->
  Parse fuel (e :: es) d = r.
Proof. intros He Hes. cbn [Parse]. unfold bindM. by rewrite He. Qed.

End Sequencing.

(** Evaluates one event on a delegator whose top handler and key are
    known. *)
Ltac event :=
  unfold DelegatedHandler_event; run;
  cbn [RootHandler_event XGBoostModelHandler_event LearnerHandler_event
       LearnerParamHandler_event GradientBoosterHandler_event
       GBTreeModelHandler_event ObjectiveHandler_event RegTreeHandler_event
       TreeParamHandler_event IgnoreHandler_event ArrayHandler_double_event
       ArrayHandler_int_event ArrayHandler_bool_event
       ArrayHandler_unsigned_event ArrayHandler_Tree_event BaseHandler_event];
  unfold RootHandler_StartObject, XGBoostModelHandler_StartArray,
    XGBoostModelHandler_StartObject, LearnerHandler_StartObject,
    LearnerHandler_EndObject, LearnerParamHandler_String,
    GradientBoosterHandler_String, GradientBoosterHandler_StartObject,
    GBTreeModelHandler_StartArray, GBTreeModelHandler_StartObject,
    ObjectiveHandler_StartObject, ObjectiveHandler_String,
    store, store_version;
  run; keys; run;
  cbn [trees num_feature num_output_group random_forest_flag param
       global_bias pred_transform add_trees].

Ltac events := repeat (eapply Parse_cons; [event; reflexivity|]).

Section Accumulation.
Context `{T : Treelite}.

Lemma Parse_doubles fuel output v :
  forall k0 k r rest m a l,
    Parse fuel (EDouble <$> v)
      {| delegates :=
           {| cur_key := k0; state := ArrayHandler_double output |} ::
           {| cur_key := k; state := RegTree r |} :: rest;
         result := m; alive := a; log := l |} =
    Ret (true,
      {| delegates :=
           {| cur_key := k0; state := ArrayHandler_double output |} ::
           {| cur_key := k;
              state := RegTree
                (foldl (fun r d => push_back_double output d r) r v) |} ::
           rest;
         result := m; alive := a; log := l |}).
Proof.
  induction v as [|x v IH]; intros k0 k r rest m a l; [done|].
  cbn [fmap list_fmap Parse foldl]. unfold DelegatedHandler_event. run.
  cbn [ArrayHandler_double_event]. unfold store. run. apply IH.
Qed.

Lemma Parse_ints fuel output v :
  forall k0 k r rest m a l,
    Parse fuel (int_event <$> v)
      {| delegates := {| cur_key := k0; state := ArrayHandler_int output |} ::
                      {| cur_key := k; state := RegTree r |} :: rest;
         result := m; alive := a; log := l |} =
    Ret (true,
      {| delegates := {| cur_key := k0; state := ArrayHandler_int output |} ::
                      {| cur_key := k;
                         state := RegTree
                           (foldl (fun r i => push_back_int output (to_int i) r)
                                  r v) |} ::
                      rest;
         result := m; alive := a; log := l |}).
Proof.
  induction v as [|x v IH]; intros k0 k r rest m a l; [done|].
  cbn [fmap list_fmap Parse foldl]. unfold DelegatedHandler_event. run.
  unfold int_event at 1.
  destruct (x <? 0); cbn [ArrayHandler_int_event]; unfold store; run;
    apply IH.
Qed.

Lemma Parse_bools fuel v :
  forall k0 k r rest m a l,
    Parse fuel (EBool <$> v)
      {| delegates := {| cur_key := k0; state := ArrayHandler_bool |} ::
                      {| cur_key := k; state := RegTree r |} :: rest;
         result := m; alive := a; log := l |} =
    Ret (true,
      {| delegates := {| cur_key := k0; state := ArrayHandler_bool |} ::
                      {| cur_key := k;
                         state := RegTree
                           (foldl (fun r b => push_back_bool b r) r v) |} ::
                      rest;
         result := m; alive := a; log := l |}).
Proof.
  induction v as [|x v IH]; intros k0 k r rest m a l; [done|].
  cbn [fmap list_fmap Parse foldl]. unfold DelegatedHandler_event. run.
  cbn [ArrayHandler_bool_event]. unfold store. run. apply IH.
Qed.

Lemma Parse_params fuel params :
  forall k0 k r rest m a l,
    Forall (fun p => p.1 = "num_deleted" \/ p.1 = "num_feature" \/
                     p.1 = "num_nodes" \/ p.1 = "size_leaf_vector") params ->
    exists k1,
      Parse fuel (concat (param_events <$> params))
        {| delegates := {| cur_key := k0; state := TreeParamHandler |} ::
                        {| cur_key := k; state := RegTree r |} :: rest;
           result := m; alive := a; log := l |} =
      Ret (true,
        {| delegates := {| cur_key := k1; state := TreeParamHandler |} ::
                        {| cur_key := k;
                           state := RegTree (foldl apply_param r params) |} ::
                        rest;
           result := m; alive := a; log := l |}).
Proof.
  induction params as [|[pk pv] params IH]; intros k0 k r rest m a l Hok.
  { by exists k0. }
  apply Forall_cons in Hok as [Hpk Hok]. cbn in Hpk.
  destruct (IH pk k (apply_param r (pk, pv)) rest m a l Hok) as [k1 Hrun].
  exists k1.
  cbn [fmap list_fmap concat param_events app Parse foldl fst snd].
  unfold DelegatedHandler_event. run.
  cbn [TreeParamHandler_event BaseHandler_event]. run.
  unfold TreeParamHandler_String. run.
  unfold apply_param in Hrun. cbn [fst snd] in Hrun.
  destruct Hpk as [->|[->|[->| ->]]]; keys; run; exact Hrun.
Qed.

(** The events of one member of a tree object, arriving at the tree
    handler, are accepted and leave in its accumulators what
    [apply_member] says. *)
Lemma Parse_member fuel mb k r rest m l :
  member_ok mb ->
  Parse fuel (member_events mb)
    {| delegates := {| cur_key := k; state := RegTree r |} :: rest;
       result := m; alive := true; log := l |} =
  Ret (true,
    {| delegates := {| cur_key := member_key mb;
                       state := RegTree (apply_member r mb) |} :: rest;
       result := m; alive := true; log := l |}).
Proof.
  intros Hok. destruct mb as [output v|output v|v|params|u|key value];
    cbn [member_events member_key apply_member].
  - (* an array of doubles *)
    eapply Parse_seq.
    { cbn [Parse]. unfold DelegatedHandler_event. run.
      cbn [RegTreeHandler_event BaseHandler_event]. run.
      unfold RegTreeHandler_StartArray. run.
      instantiate (1 :=
        {| delegates :=
             {| cur_key := ""; state := ArrayHandler_double output |} ::
             {| cur_key := double_key output; state := RegTree r |} :: rest;
           result := m; alive := true; log := l |}).
      destruct output; cbn [double_key]; keys; reflexivity. }
    eapply Parse_seq; [apply Parse_doubles|].
    cbn [Parse]. unfold DelegatedHandler_event. run.
    cbn [ArrayHandler_double_event BaseHandler_event]. run. reflexivity.
  - (* an array of integers *)
    eapply Parse_seq.
    { cbn [Parse]. unfold DelegatedHandler_event. run.
      cbn [RegTreeHandler_event BaseHandler_event]. run.
      unfold RegTreeHandler_StartArray. run.
      instantiate (1 :=
        {| delegates :=
             {| cur_key := ""; state := ArrayHandler_int output |} ::
             {| cur_key := int_key output; state := RegTree r |} :: rest;
           result := m; alive := true; log := l |}).
      destruct output; cbn [int_key]; keys; reflexivity. }
    eapply Parse_seq; [apply Parse_ints|].
    cbn [Parse]. unfold DelegatedHandler_event. run.
    cbn [ArrayHandler_int_event BaseHandler_event]. run. reflexivity.
  - (* the array of default directions *)
    eapply Parse_seq.
    { cbn [Parse]. unfold DelegatedHandler_event. run.
      cbn [RegTreeHandler_event BaseHandler_event]. run.
      unfold RegTreeHandler_StartArray. run. keys. reflexivity. }
    eapply Parse_seq; [apply Parse_bools|].
    cbn [Parse]. unfold DelegatedHandler_event. run.
    cbn [ArrayHandler_bool_event BaseHandler_event]. run. reflexivity.
  - (* the tree parameters *)
    cbn [member_ok] in Hok.
    destruct (Parse_params fuel params "" "tree_param" r rest m true l Hok)
      as [k1 Hparams].
    eapply Parse_seq.
    { cbn [Parse]. unfold DelegatedHandler_event. run.
      cbn [RegTreeHandler_event BaseHandler_event]. run.
      unfold RegTreeHandler_StartObject. run. keys. reflexivity. }
    eapply Parse_seq; [exact Hparams|].
    cbn [Parse]. unfold DelegatedHandler_event. run.
    cbn [TreeParamHandler_event BaseHandler_event]. run. reflexivity.
  - (* the identifier *)
    cbn [Parse]. unfold DelegatedHandler_event. run.
    cbn [RegTreeHandler_event BaseHandler_event]. run.
    unfold RegTreeHandler_Uint. run. keys. reflexivity.
  - (* a skipped array *)
    destruct Hok as [Hkey Hvalue].
    change (EKey key :: EStartArray :: value)
      with ([EKey key; EStartArray] ++ value).
    eapply Parse_seq.
    { cbn [Parse]. unfold DelegatedHandler_event. run.
      cbn [RegTreeHandler_event BaseHandler_event]. run.
      unfold RegTreeHandler_StartArray. run.
      instantiate (1 :=
        {| delegates :=
             {| cur_key := ""; state := IgnoreHandler |} ::
             {| cur_key := key; state := RegTree r |} :: rest;
           result := m; alive := true; log := l |}).
      destruct Hkey as [-> | ->]; keys; reflexivity. }
    apply (Parse_ignore fuel value 0
             [ {| cur_key := ""; state := IgnoreHandler |} ]);
      [done|done|by repeat constructor].
Qed.

(** The members of a tree object, in whatever order and number they come,
    accumulate in the tree handler. *)
Lemma Parse_members fuel ms :
  forall k r rest m l,
    Forall member_ok ms ->
    exists k',
      Parse fuel (concat (member_events <$> ms))
        {| delegates := {| cur_key := k; state := RegTree r |} :: rest;
           result := m; alive := true; log := l |} =
      Ret (true,
        {| delegates := {| cur_key := k';
                           state := RegTree (foldl apply_member r ms) |} ::
                        rest;
           result := m; alive := true; log := l |}).
Proof.
  induction ms as [|mb ms IH]; intros k r rest m l Hok.
  { by exists k. }
  apply Forall_cons in Hok as [Hmb Hok].
  destruct (IH (member_key mb) (apply_member r mb) rest m l Hok) as [k' Hrun].
  exists k'. cbn [fmap list_fmap concat foldl].
  eapply Parse_seq; [by apply Parse_member|exact Hrun].
Qed.

Lemma to_int_id i : int_range i -> to_int i = i.
Proof.
  unfold int_range, to_int. change (2 ^ 31) with 2147483648.
  change (2 ^ 32) with 4294967296. intros. rewrite Z.mod_small; lia.
Qed.

Lemma fmap_to_int v : Forall int_range v -> to_int <$> v = v.
Proof.
  induction 1 as [|x v Hx _ IH]; [done|]. cbn. by rewrite (to_int_id x Hx), IH.
Qed.

Lemma foldl_push_back_double output v :
  forall r,
    foldl (fun r d => push_back_double output d r) r v =
    {| loss_changes :=
         match output with
         | ref_loss_changes => loss_changes r ++ v | _ => loss_changes r
         end;
       sum_hessian :=
         match output with
         | ref_sum_hessian => sum_hessian r ++ v | _ => sum_hessian r
         end;
       base_weights :=
         match output with
         | ref_base_weights => base_weights r ++ v | _ => base_weights r
         end;
       leaf_child_counts := leaf_child_counts r;
       left_children := left_children r;
       right_children := right_children r;
       parents := parents r;
       split_indices := split_indices r;
       split_conditions :=
         match output with
         | ref_split_conditions => split_conditions r ++ v
         | _ => split_conditions r
         end;
       default_left := default_left r;
       num_nodes := num_nodes r |}.
Proof.
  induction v as [|x v IH]; intros r; cbn [foldl].
  - destruct r, output; cbn; by rewrite ?app_nil_r.
  - rewrite IH. destruct output; cbn; by rewrite <- ?(assoc_L (++)).
Qed.

Lemma foldl_push_back_int output v :
  forall r,
    foldl (fun r i => push_back_int output (to_int i) r) r v =
    {| loss_changes := loss_changes r;
       sum_hessian := sum_hessian r;
       base_weights := base_weights r;
       leaf_child_counts :=
         match output with
         | ref_leaf_child_counts => leaf_child_counts r ++ (to_int <$> v)
         | _ => leaf_child_counts r
         end;
       left_children :=
         match output with
         | ref_left_children => left_children r ++ (to_int <$> v)
         | _ => left_children r
         end;
       right_children :=
         match output with
         | ref_right_children => right_children r ++ (to_int <$> v)
         | _ => right_children r
         end;
       parents :=
         match output with
         | ref_parents => parents r ++ (to_int <$> v) | _ => parents r
         end;
       split_indices :=
         match output with
         | ref_split_indices => split_indices r ++ (to_int <$> v)
         | _ => split_indices r
         end;
       split_conditions := split_conditions r;
       default_left := default_left r;
       num_nodes := num_nodes r |}.
Proof.
  induction v as [|x v IH]; intros r; cbn [foldl fmap list_fmap].
  - destruct r, output; cbn; by rewrite ?app_nil_r.
  - rewrite IH. destruct output; cbn; by rewrite <- ?(assoc_L (++)).
Qed.

Lemma foldl_push_back_bool v :
  forall r,
    foldl (fun r b => push_back_bool b r) r v =
    {| loss_changes := loss_changes r;
       sum_hessian := sum_hessian r;
       base_weights := base_weights r;
       leaf_child_counts := leaf_child_counts r;
       left_children := left_children r;
       right_children := right_children r;
       parents := parents r;
       split_indices := split_indices r;
       split_conditions := split_conditions r;
       default_left := default_left r ++ v;
       num_nodes := num_nodes r |}.
Proof.
  induction v as [|x v IH]; intros r; cbn [foldl].
  - destruct r; cbn; by rewrite ?app_nil_r.
  - rewrite IH. cbn. by rewrite <- ?(assoc_L (++)).
Qed.

Lemma foldl_step {A B : Type} (f : A -> B -> A) (a : A) (x : B) (l : list B) :
  foldl f a (x :: l) = foldl f (f a x) l.
Proof. reflexivity. Qed.

Lemma foldl_tree_param r a b nn c :
  apply_member r
    (member_tree_param
       [("num_deleted", a); ("num_feature", b); ("num_nodes", nn);
        ("size_leaf_vector", c)]) =
  with_num_nodes (atoi nn) r.
Proof.
  cbn [apply_member foldl]. unfold apply_param. cbn [fst snd].
  repeat case_decide; done.
Qed.

(** The members of the tree object written from [h] put [h] back together
    in the tree handler. *)
Lemma collected_members_of nf nn h :
  ints_ok h -> num_nodes h = Some (atoi nn) ->
  collected (members_of nf nn h) = h.
Proof.
  intros (Hc & Hl & Hr & Hp & Hs) Hn. unfold collected, members_of.
  unfold empty_RegTreeHandler.
  repeat
    (rewrite foldl_step; rewrite ?foldl_tree_param; cbn [apply_member];
     rewrite ?foldl_push_back_double, ?foldl_push_back_int,
       ?foldl_push_back_bool;
     cbn [loss_changes sum_hessian base_weights leaf_child_counts
          left_children right_children parents split_indices
          split_conditions default_left num_nodes app with_num_nodes]).
  cbn [foldl]. unfold with_num_nodes.
  cbn [loss_changes sum_hessian base_weights leaf_child_counts
       left_children right_children parents split_indices
       split_conditions default_left num_nodes].
  rewrite <- Hn, !fmap_to_int by done. by destruct h.
Qed.

Lemma members_of_ok nf nn h : Forall member_ok (members_of nf nn h).
Proof.
  unfold members_of.
  repeat (apply Forall_cons; split); try apply Forall_nil; cbn; auto 10.
Qed.

Lemma removelast_snoc {A : Type} (l : list A) (x : A) :
  removelast (l ++ [x]) = l.
Proof. apply removelast_last. Qed.

(** The events of a tree object, arriving at the accumulator of trees, are
    accepted when the members describe a tree, and append that tree to the
    model. *)
Lemma Parse_tree_object fuel ms t k rest m l :
  Forall member_ok ms -> well_formed (collected ms) t ->
  (nodes t <= fuel)%nat ->
  exists out,
    Parse fuel (tree_object ms)
      {| delegates := {| cur_key := k; state := ArrayHandler_Tree |} :: rest;
         result := m; alive := true; log := l |} =
    Ret (true,
      {| delegates := {| cur_key := k; state := ArrayHandler_Tree |} :: rest;
         result := add_trees m [out]; alive := true; log := l |}) /\
    reproduces ms t out.
Proof.
  intros Hok Hwf Hfuel.
  destruct (body_of_well_formed _ t fuel Hwf Hfuel) as (out & Hbody & Hm & Hn).
  exists out. split; [|done]. unfold tree_object.
  eapply Parse_cons; [event; reflexivity|].
  destruct (Parse_members fuel ms "" empty_RegTreeHandler
              ({| cur_key := k; state := ArrayHandler_Tree |} :: rest)
              {| trees := trees m ++ [[]]; num_feature := num_feature m;
                 num_output_group := num_output_group m;
                 random_forest_flag := random_forest_flag m;
                 param := param m |} l Hok) as [k' Hmembers].
  eapply Parse_seq; [exact Hmembers|].
  eapply Parse_cons; [|reflexivity].
  unfold DelegatedHandler_event. run. cbn [RegTreeHandler_event].
  unfold RegTreeHandler_EndObject. run. fold (collected ms). rewrite Hbody.
  run. cbn [trees].
  destruct (trees m ++ [[]]) as [|t0 ts] eqn:Hts.
  { by destruct (trees m). }
  run. rewrite <- Hts, removelast_snoc. reflexivity.
Qed.







Lemma Parse_names fuel names :
  forall k0 k objective rest m a l,
    exists k1,
      Parse fuel (concat ((fun s => [EKey "name"; EString s]) <$> names))
        {| delegates := {| cur_key := k0; state := ObjectiveHandler |} ::
                        {| cur_key := k; state := LearnerHandler objective |} ::
                        rest;
           result := m; alive := a; log := l |} =
      Ret (true,
        {| delegates := {| cur_key := k1; state := ObjectiveHandler |} ::
                        {| cur_key := k;
                           state := LearnerHandler
                                      (default objective (last names)) |} ::
                        rest;
           result := m; alive := a; log := l |}).
Proof.
  induction names as [|s names IH]; intros k0 k objective rest m a l.
  { by exists k0. }
  destruct (IH "name" k s rest m a l) as [k1 Hrun]. exists k1.
  cbn [fmap list_fmap concat app].
  eapply Parse_cons; [event; reflexivity|].
  eapply Parse_cons; [event; reflexivity|].
  rewrite Hrun. destruct names as [|s' names]; [done|].
  rewrite last_cons_cons.
  destruct (last (s' :: names)) eqn:E; [done|]. by apply last_None in E.
Qed.

(** The members of a tree object, in whatever order and number they
    arrive, are all accepted, and accumulate in the tree handler: each
    array is appended to the vector of its key (integers converted to
    [int]), the [tree_param] object sets [num_nodes] from the string under
    that key, and the [id] and the two skipped arrays leave no trace.  The
    model, the log and the stack below the tree handler are untouched. *)
Theorem tree_members_accumulate (fuel : nat) (ms : list tree_member)
    (k : string) (r : RegTreeHandler) (rest : list Handler) (d : Delegator) :
  delegates d = {| cur_key := k; state := RegTree r |} :: rest ->
  alive d = true ->
  Forall member_ok ms ->
  exists k',
    Parse fuel (concat (member_events <$> ms)) d =
    Ret (true,
      {| delegates := {| cur_key := k';
                         state := RegTree (foldl apply_member r ms) |} ::
                      rest;
         result := result d; alive := true; log := log d |}).
Proof.
  intros Hd Ha Hok. destruct d as [ds m a l]. cbn in Hd, Ha. subst ds a.
  by apply Parse_members.
Qed.

(** The events of the tree object written from the arrays of [h] load
    back into a tree that mirrors [h]: when the arrays encode a tree, the
    object is accepted by the accumulator of trees, which is active again
    afterwards, and one tree has been appended to the model, with a node
    for each node of the encoded tree. *)
Theorem tree_object_round_trip (fuel : nat) (nf nn : string)
    (h : RegTreeHandler) (t : shape) (k : string) (rest : list Handler)
    (d : Delegator) :
  delegates d = {| cur_key := k; state := ArrayHandler_Tree |} :: rest ->
  alive d = true ->
  ints_ok h -> num_nodes h = Some (atoi nn) ->
  well_formed h t -> (nodes t <= fuel)%nat ->
  exists out,
    Parse fuel (tree_object (members_of nf nn h)) d =
    Ret (true,
      {| delegates := delegates d; result := add_trees (result d) [out];
         alive := true; log := log d |}) /\
    mirrors h out 0 0 /\ size out = Z.of_nat (nodes t).
Proof.
  intros Hd Ha Hints Hn Hwf Hfuel. destruct d as [ds m a l].
  cbn in Hd, Ha. subst ds a.
  pose proof (collected_members_of nf nn h Hints Hn) as Hcol.
  destruct (Parse_tree_object fuel (members_of nf nn h) t k rest m l)
    as (out & Hrun & Hm & Hsize).
  - apply members_of_ok.
  - by rewrite Hcol.
  - done.
  - exists out. split; [exact Hrun|]. by rewrite Hcol in Hm.
Qed.



(** The objective name reaches the model when the learner object closes:
    the last string under the key ["name"] of the objective object is the
    one [SetPredTransform] is called with, on the parameters as they are
    then; without such a member the learner keeps the name it had, the
    empty string if there has been no objective object at all. *)
Theorem objective_name_selects_pred_transform (fuel : nat)
    (names : list string) (objective k : string) (memberCount : Z)
    (rest : list Handler) (d : Delegator) :
  delegates d = {| cur_key := k; state := LearnerHandler objective |} ::
                rest ->
  alive d = true ->
  exists d',
    Parse fuel (objective_object names ++ [EEndObject memberCount]) d =
    Ret (true, d') /\
    delegates d' = rest /\
    param (result d') =
      SetPredTransform (default objective (last names)) (param (result d)) /\
    trees (result d') = trees (result d) /\
    num_feature (result d') = num_feature (result d) /\
    num_output_group (result d') = num_output_group (result d) /\
    random_forest_flag (result d') = random_forest_flag (result d) /\
    log d' = log d.
Proof.
  intros Hd Ha. destruct d as [ds m a l]. cbn in Hd, Ha. subst ds a.
  destruct (Parse_names fuel names "" "objective" objective rest m true l)
    as [k1 Hnames].
  eexists. split.
  - unfold objective_object. rewrite <- !(assoc_L (++)). cbn [app].
    eapply Parse_cons; [event; reflexivity|].
    eapply Parse_cons; [event; reflexivity|].
    eapply Parse_seq; [exact Hnames|].
    eapply Parse_cons; [event; reflexivity|].
    eapply Parse_cons; [event; reflexivity|]. reflexivity.
  - done.
Qed.

(** A nested object of the gradient-booster object is taken under the key
    ["model"] only: under any other key the handler logs that the key is
    not recognized, naming it, and returns [false], and the load ends in
    the fatal error after that line. *)
Theorem gradient_booster_unknown_member (k : string) (rest : list Handler)
    (d : Delegator) :
  delegates d = {| cur_key := k; state := GradientBoosterHandler |} :: rest ->
  alive d = true ->
  (k = "model" ->
   GradientBoosterHandler_StartObject d =
   Ret (true,
     {| delegates := {| cur_key := ""; state := GBTreeModelHandler |} ::
                     delegates d;
        result := result d; alive := true; log := log d |})) /\
  (k <> "model" ->
   GradientBoosterHandler_StartObject d =
   Ret (false,
     {| delegates := delegates d; result := result d; alive := true;
        log := log d ++ [unknown_key_error k] |}) /\
   forall fuel pre post,
     Parse fuel pre create = Ret (true, d) ->
     ParseStream fuel (pre ++ EStartObject :: post) =
     Ret (Fatal (log d ++ [unknown_key_error k]))).
Proof.
  intros Hd Ha. destruct d as [ds m a l]. cbn in Hd, Ha. subst ds a. split.
  - intros ->. unfold GradientBoosterHandler_StartObject. run. keys.
    reflexivity.
  - intros Hk.
    assert (Hrej : GradientBoosterHandler_StartObject
              {| delegates :=
                   {| cur_key := k; state := GradientBoosterHandler |} :: rest;
                 result := m; alive := true; log := l |} =
            Ret (false,
              {| delegates :=
                   {| cur_key := k; state := GradientBoosterHandler |} :: rest;
                 result := m; alive := true;
                 log := l ++ [unknown_key_error k] |})).
    { unfold GradientBoosterHandler_StartObject. run.
      by rewrite (bool_decide_eq_false_2 _ Hk). }
    split; [exact Hrej|]. intros fuel pre post Hpre.
    apply (rejected_event_is_fatal fuel pre EStartObject post _
             {| delegates :=
                  {| cur_key := k; state := GradientBoosterHandler |} :: rest;
                result := m; alive := true;
                log := l ++ [unknown_key_error k] |} Hpre).
    unfold DelegatedHandler_event. run. exact Hrej.
Qed.

(** A tree object takes arrays under twelve keys, an object under
    ["tree_param"] and an unsigned integer under ["id"]; any other value
    is rejected, nothing is changed or logged, and the load ends in the
    fatal error. *)
Theorem tree_object_unknown_member_rejected (fuel : nat) (e : Event)
    (k : string) (h : RegTreeHandler) (rest : list Handler) (d : Delegator) :
  delegates d = {| cur_key := k; state := RegTree h |} :: rest ->
  ~ tree_member_expected k e ->
  DelegatedHandler_event fuel e d = Ret (false, d) /\
  forall pre post,
    Parse fuel pre create = Ret (true, d) ->
    ParseStream fuel (pre ++ e :: post) = Ret (Fatal (log d)).
Proof.
  intros Hd Hun. destruct d as [ds m a l]. cbn in Hd. subst ds.
  assert (Hrej : DelegatedHandler_event fuel e
            {| delegates := {| cur_key := k; state := RegTree h |} :: rest;
               result := m; alive := a; log := l |} =
          Ret (false,
            {| delegates := {| cur_key := k; state := RegTree h |} :: rest;
               result := m; alive := a; log := l |})).
  { unfold DelegatedHandler_event. run.
    destruct e; cbn [tree_member_expected] in Hun; try done;
      cbn [RegTreeHandler_event BaseHandler_event]; try reflexivity.
    - unfold RegTreeHandler_Uint. run. by rewrite bool_decide_eq_false_2.
    - unfold RegTreeHandler_StartObject. run.
      by rewrite bool_decide_eq_false_2.
    - unfold RegTreeHandler_StartArray. run.
      unfold tree_array_keys in Hun. rewrite !elem_of_cons in Hun.
      rewrite !bool_decide_eq_false_2 by (intros ->; apply Hun; tauto).
      reflexivity. }
  split; [exact Hrej|]. intros pre post Hpre.
  by apply (rejected_event_is_fatal _ _ _ _ _ _ Hpre).
Qed.

Lemma foldl_apply_param params :
  forall r,
    foldl apply_param r params =
    {| loss_changes := loss_changes r;
       sum_hessian := sum_hessian r;
       base_weights := base_weights r;
       leaf_child_counts := leaf_child_counts r;
       left_children := left_children r;
       right_children := right_children r;
       parents := parents r;
       split_indices := split_indices r;
       split_conditions := split_conditions r;
       default_left := default_left r;
       num_nodes := declared_nodes (num_nodes r) params |}.
Proof.
  unfold declared_nodes.
  induction params as [|p params IH]; intros r; cbn [foldl].
  - by destruct r.
  - rewrite IH. unfold apply_param. by case_decide.
Qed.

(** Two members under different keys can arrive in either order. *)
Lemma apply_member_comm r a b :
  member_key a <> member_key b ->
  apply_member (apply_member r a) b = apply_member (apply_member r b) a.
Proof.
  destruct a as [oa va|oa va|va|pa|ua|ka ea], b as [ob vb|ob vb|vb|pb|ub|kb eb];
    cbn [apply_member member_key]; intros Hk; try reflexivity;
    rewrite ?foldl_push_back_double, ?foldl_push_back_int,
      ?foldl_push_back_bool, ?foldl_apply_param;
    cbn [loss_changes sum_hessian base_weights leaf_child_counts
         left_children right_children parents split_indices
         split_conditions default_left num_nodes];
    try reflexivity.
  all: try destruct oa, ob; done.
Qed.

Lemma foldl_apply_member_perm ms ms' :
  ms ≡ₚ ms' -> NoDup (member_key <$> ms) ->
  forall r, foldl apply_member r ms = foldl apply_member r ms'.
Proof.
  induction 1 as [|x l l' _ IH|x y l|l l' l'' H1 IH1 H2 IH2]; intros Hnd r.
  - done.
  - cbn. apply IH. rewrite fmap_cons in Hnd.
    by apply NoDup_cons in Hnd as [_ ?].
  - cbn. rewrite !fmap_cons in Hnd.
    apply NoDup_cons in Hnd as [Hy _]. rewrite not_elem_of_cons in Hy.
    f_equal. apply apply_member_comm. by destruct Hy.
  - rewrite IH1 by done. apply IH2. by rewrite <- H1.
Qed.

Lemma tree_closes_whatever_the_key fuel n k1 k2 h rest m a l :
  outcome (Parse fuel [EEndObject n]
             {| delegates := {| cur_key := k1; state := RegTree h |} :: rest;
                result := m; alive := a; log := l |}) =
  outcome (Parse fuel [EEndObject n]
             {| delegates := {| cur_key := k2; state := RegTree h |} :: rest;
                result := m; alive := a; log := l |}) /\
  forall d',
    Parse fuel [EEndObject n]
      {| delegates := {| cur_key := k1; state := RegTree h |} :: rest;
         result := m; alive := a; log := l |} = Ret (true, d') ->
    Parse fuel [EEndObject n]
      {| delegates := {| cur_key := k2; state := RegTree h |} :: rest;
         result := m; alive := a; log := l |} = Ret (true, d').
Proof.
  cbn [Parse]. unfold DelegatedHandler_event. run.
  cbn [RegTreeHandler_event]. unfold RegTreeHandler_EndObject. run.
  destruct (RegTreeHandler_EndObject_body fuel h) as [[ok out]| |];
    [|done..].
  run. destruct (trees m); [done|]. run. destruct ok, a; by run.
Qed.

(** The members of a tree object can come in any order: when no key
    occurs twice, a permutation of the members leaves the same arrays and
    node count in the tree handler, and the object closes in the same
    way, with the same value returned, the same model and the same log;
    when the object is accepted, the delegator it leaves is the same in
    full. *)
Theorem tree_member_order_is_irrelevant (fuel : nat)
    (ms ms' : list tree_member) (k : string) (rest : list Handler)
    (d : Delegator) :
  delegates d = {| cur_key := k; state := ArrayHandler_Tree |} :: rest ->
  alive d = true ->
  Forall member_ok ms -> NoDup (member_key <$> ms) -> ms ≡ₚ ms' ->
  collected ms = collected ms' /\
  outcome (Parse fuel (tree_object ms) d) =
  outcome (Parse fuel (tree_object ms') d) /\
  forall d',
    Parse fuel (tree_object ms) d = Ret (true, d') ->
    Parse fuel (tree_object ms') d = Ret (true, d').
Proof.
  intros Hd Ha Hok Hnd Hperm.
  assert (Hcol : collected ms = collected ms').
  { by apply foldl_apply_member_perm. }
  split; [exact Hcol|].
  destruct d as [ds m a l]. cbn in Hd, Ha. subst ds a.
  assert (Hrun : forall ms0, Forall member_ok ms0 ->
    exists k0,
      Parse fuel (tree_object ms0)
        {| delegates := {| cur_key := k; state := ArrayHandler_Tree |} :: rest;
           result := m; alive := true; log := l |} =
      Parse fuel [EEndObject (size ms0)]
        {| delegates := {| cur_key := k0; state := RegTree (collected ms0) |} ::
                        {| cur_key := k; state := ArrayHandler_Tree |} :: rest;
           result := add_trees m [[]]; alive := true; log := l |}).
  { intros ms0 Hok0.
    destruct (Parse_members fuel ms0 "" empty_RegTreeHandler
                ({| cur_key := k; state := ArrayHandler_Tree |} :: rest)
                (add_trees m [[]]) l Hok0) as [k0 Hmembers].
    exists k0. unfold tree_object.
    eapply Parse_cons; [event; reflexivity|].
    eapply Parse_seq; [exact Hmembers|]. reflexivity. }
  destruct (Hrun ms Hok) as [k1 ->].
  destruct (Hrun ms') as [k2 ->]; [by rewrite <- Hperm|].
  rewrite <- Hcol.
  replace (size ms') with (size ms)
    by (unfold size; by rewrite (Permutation_length Hperm)).
  apply tree_closes_whatever_the_key.
Qed.

End Accumulation.

(** ** The stack of handlers along a load *)

Section Stack.
Context `{T : Treelite}.

Ltac calm_tac :=
  let H := fresh "H" in
  intros [[|[? ?] [|[? []] ?]] ? ? ?] ? ? H; run_in H;
  repeat case_match; simplify_eq; done.

Lemma calm_ret {A : Type} (a : A) : calm (ret a).
Proof. by intros d a' d' [= <- <-]. Qed.

Lemma calm_bind {A B : Type} (m : M A) (k : A -> M B) :
  calm m -> (forall a, calm (k a)) -> calm (bindM m k).
Proof.
  intros Hm Hk d b d'. unfold bindM.
  destruct (m d) as [[a d1]| |] eqn:E; cbn; [|done..].
  intros Hkd. destruct (Hm _ _ _ E) as [? ?].
  destruct (Hk a _ _ _ Hkd) as [? ?]. split; congruence.
Qed.

Lemma calm_if {A : Type} (b : bool) (c1 c2 : M A) :
  calm c1 -> calm c2 -> calm (if b then c1 else c2).
Proof. by destruct b. Qed.

Lemma calm_check k : calm (check_cur_key k).
Proof. calm_tac. Qed.

Lemma calm_get_cur_key : calm get_cur_key.
Proof. calm_tac. Qed.

Lemma calm_set_cur_key k : calm (set_cur_key k).
Proof. calm_tac. Qed.

Lemma calm_LOG_ERROR msg : calm (LOG_ERROR msg).
Proof. by intros d a' d' [= <- <-]. Qed.

Lemma calm_get_model : calm get_model.
Proof. by intros d a' d' [= <- <-]. Qed.

Lemma calm_set_global_bias v : calm (set_global_bias v).
Proof. by intros d a' d' [= <- <-]. Qed.

Lemma calm_set_num_output_group v : calm (set_num_output_group v).
Proof. by intros d a' d' [= <- <-]. Qed.

Lemma calm_set_num_feature v : calm (set_num_feature v).
Proof. by intros d a' d' [= <- <-]. Qed.

Lemma calm_set_random_forest_flag v : calm (set_random_forest_flag v).
Proof. by intros d a' d' [= <- <-]. Qed.

Lemma calm_set_param v : calm (set_param v).
Proof. by intros d a' d' [= <- <-]. Qed.

Lemma calm_set_trees v : calm (set_trees v).
Proof. by intros d a' d' [= <- <-]. Qed.

Lemma calm_set_output_tree t : calm (set_output_tree t).
Proof.
  intros [ds [[|t0 ts] ? ? ? ?] a l] u d' H; run_in H; cbn [trees] in H;
    by simplify_eq.
Qed.

Lemma calm_set_num_nodes v : calm (set_num_nodes v).
Proof. calm_tac. Qed.

Lemma calm_set_objective v : calm (set_objective v).
Proof. calm_tac. Qed.

Lemma calm_store f : calm (store f).
Proof. calm_tac. Qed.

Lemma calm_store_version u : calm (store_version u).
Proof. calm_tac. Qed.

Lemma calm_lift {A : Type} (r : res A) : calm (lift r).
Proof. intros d a d' H. run_in H. destruct r; by simplify_eq. Qed.

Lemma calm_this_RegTree : calm this_RegTree.
Proof. calm_tac. Qed.

Lemma calm_assign {V : Type} k (v : V) (output : V -> M unit) :
  (forall v, calm (output v)) -> calm (assign_value k v output).
Proof.
  intros Hout. unfold assign_value.
  apply calm_bind; [apply calm_check|]. intros c. apply calm_if.
  - apply calm_bind; [apply Hout|]. intros _. apply calm_ret.
  - apply calm_ret.
Qed.

Lemma calm_orelse (a b : M bool) : calm a -> calm b -> calm (a ||| b).
Proof.
  intros Ha Hb. unfold orelse. apply calm_bind; [done|].
  intros []; [apply calm_ret|done].
Qed.


Lemma moves_ret_false p e : moves p e (ret false).
Proof. by intros d ok d' rest Ha Hcs [= <- <-]. Qed.

Lemma moves_calm p e (c : M bool) : plain e -> calm c -> moves p e c.
Proof.
  intros He Hc d ok d' rest Ha Hcs Hrun.
  destruct (Hc _ _ _ Hrun) as [Ha' Hcs']. rewrite Ha', Hcs'.
  split; [done|]. destruct ok; [|done]. by destruct e.
Qed.

Lemma moves_bind_calm {A : Type} p e (m : M A) (k : A -> M bool) :
  calm m -> (forall a, moves p e (k a)) -> moves p e (bindM m k).
Proof.
  intros Hm Hk d ok d' rest Ha Hcs. unfold bindM.
  destruct (m d) as [[a d1]| |] eqn:E; cbn; [|done..].
  destruct (Hm _ _ _ E) as [Ha1 Hcs1].
  apply Hk; congruence.
Qed.

Lemma moves_if p e (b : bool) (c1 c2 : M bool) :
  moves p e c1 -> moves p e c2 -> moves p e (if b then c1 else c2).
Proof. by destruct b. Qed.

Lemma moves_orelse p e (a b : M bool) :
  moves p e a -> moves p e b -> moves p e (a ||| b).
Proof.
  intros Hma Hmb d ok d' rest Ha Hcs. unfold orelse, bindM.
  destruct (a d) as [[[] d1]| |] eqn:E; cbn; [| |done..].
  - intros [= <- <-]. by apply (Hma _ _ _ _ Ha Hcs E).
  - destruct (Hma _ _ _ _ Ha Hcs E) as [Ha1 Hcs1]. by apply Hmb.
Qed.

Lemma pushes_start p e c :
  pushes p e c = true -> e = EStartObject \/ e = EStartArray.
Proof. destruct p, e, c; cbn; try done; auto. Qed.

Lemma moves_push p e child :
  pushes p e (class_of child) = true -> moves p e (push_handler child).
Proof.
  intros Hp [ds m a l] ok d' rest Ha Hcs Hrun. cbn in Ha, Hcs. subst a.
  run_in Hrun. simplify_eq. cbn. split; [done|].
  unfold classes. cbn. unfold classes in Hcs. cbn in Hcs. rewrite Hcs.
  destruct (pushes_start _ _ _ Hp) as [-> | ->]; by eexists.
Qed.

Lemma moves_push_key p e key child :
  pushes p e (class_of child) = true -> moves p e (push_key_handler key child).
Proof.
  intros Hp [[|[k st] ds] m a l] ok d' rest Ha Hcs Hrun; [done|].
  unfold classes in Hcs. cbn in Ha, Hcs. subst a. run_in Hrun.
  destruct (bool_decide (k = key)); injection Hrun as <- <-;
    (split; [done|]); unfold classes; cbn; rewrite Hcs; [|done].
  destruct (pushes_start _ _ _ Hp) as [-> | ->]; by eexists.
Qed.

Lemma moves_pop p e :
  match e with EEndObject _ | EEndArray _ => True | _ => False end ->
  moves p e pop_handler.
Proof.
  intros He [[|[k st] ds] m a l] ok d' rest Ha Hcs Hrun; [done|].
  unfold classes in Hcs. cbn in Ha, Hcs. subst a. run_in Hrun.
  injection Hrun as <- <-. cbn. split; [done|]. unfold classes. cbn.
  destruct e; try done; congruence.
Qed.

Lemma moves_BaseHandler p e : moves p e (BaseHandler_event e).
Proof.
  destruct e; cbn; try apply moves_ret_false; try by apply moves_pop.
  apply moves_calm; [done|].
  apply calm_bind; [apply calm_set_cur_key|]. intros _. apply calm_ret.
Qed.

Lemma moves_GradientBoosterHandler_StartObject :
  moves cGradientBooster EStartObject GradientBoosterHandler_StartObject.
Proof.
  intros [[|[k st] ds] m a l] ok d' rest Ha Hcs Hrun; [done|].
  unfold classes in Hcs. cbn in Ha, Hcs. subst a.
  unfold GradientBoosterHandler_StartObject in Hrun. run_in Hrun.
  destruct (bool_decide (k = "model")); run_in Hrun.
  - injection Hrun as <- <-. split; [done|]. unfold classes. cbn.
    rewrite Hcs. by exists cGBTreeModel.
  - injection Hrun as <- <-. split; [done|]. unfold classes. cbn.
    by rewrite Hcs.
Qed.

Lemma GradientBoosterHandler_String_calm str :
  calm (GradientBoosterHandler_String str).
Proof.
  unfold GradientBoosterHandler_String.
  apply calm_bind; [apply calm_check|]. intros c.
  apply calm_if; [apply calm_ret|].
  apply calm_if; [|apply calm_ret].
  apply calm_bind; [apply calm_LOG_ERROR|]. intros _. apply calm_ret.
Qed.

Ltac calm_step :=
  first
    [ apply calm_ret | apply calm_check | apply calm_get_cur_key
    | apply calm_set_cur_key | apply calm_LOG_ERROR | apply calm_get_model
    | apply calm_set_global_bias | apply calm_set_num_output_group
    | apply calm_set_num_feature | apply calm_set_random_forest_flag
    | apply calm_set_param | apply calm_set_trees | apply calm_set_output_tree
    | apply calm_set_num_nodes | apply calm_set_objective | apply calm_store
    | apply calm_store_version | apply calm_lift | apply calm_this_RegTree
    | apply calm_assign; intros ?
    | apply calm_orelse
    | apply calm_if
    | apply calm_bind; [|intros ?] ].

Ltac moves_step :=
  first
    [ apply moves_ret_false
    | apply moves_BaseHandler
    | apply moves_push; reflexivity
    | apply moves_push_key; reflexivity
    | apply moves_pop; exact I
    | apply moves_orelse
    | apply moves_if
    | apply moves_calm; [exact I|repeat calm_step]
    | apply moves_bind_calm; [repeat calm_step|intros ?] ].

(** Every method moves the stack as the table says. *)
Lemma handler_event_moves fuel st e :
  moves (class_of st) e (handler_event fuel st e).
Proof.
  destruct st, e; cbn;
    try apply moves_BaseHandler;
    try apply moves_GradientBoosterHandler_StartObject;
    unfold RootHandler_StartObject, XGBoostModelHandler_StartArray,
      XGBoostModelHandler_StartObject, XGBoostModelHandler_EndObject,
      LearnerHandler_StartObject, LearnerHandler_EndObject,
      LearnerParamHandler_String,
      GBTreeModelHandler_StartArray, GBTreeModelHandler_StartObject,
      ObjectiveHandler_StartObject, ObjectiveHandler_String,
      RegTreeHandler_StartArray, RegTreeHandler_StartObject,
      RegTreeHandler_Uint, RegTreeHandler_EndObject, TreeParamHandler_String;
    try (apply moves_calm; [exact I|];
         first [apply GradientBoosterHandler_String_calm|repeat calm_step]);
    repeat moves_step.
  destruct a0 as [ok output]. repeat moves_step.
Qed.


(** An accepted event leaves the delegator live and moves the stack as the
    table says: a start event pushes a handler that the top handler
    pushes on it, an end event pops the top handler, and any other event
    leaves the handlers that were there. *)
Lemma event_moves fuel e d d' p rest :
  alive d = true -> classes d = p :: rest ->
  DelegatedHandler_event fuel e d = Ret (true, d') ->
  alive d' = true /\
  match e with
  | EStartObject | EStartArray =>
    exists k, pushes p e k = true /\ classes d' = k :: p :: rest
  | EEndObject _ | EEndArray _ => classes d' = rest
  | _ => classes d' = p :: rest
  end.
Proof.
  destruct d as [[|[k st] ds] m a l]; [done|]. intros Ha Hcs.
  rewrite DelegatedHandler_event_top. intros Hrun.
  assert (class_of st = p) as <-.
  { unfold classes in Hcs. cbn in Hcs. congruence. }
  exact (handler_event_moves fuel st e _ _ _ _ Ha Hcs Hrun).
Qed.

Lemma fits_eq c p cs k ks :
  fits (c :: p :: cs) (k :: ks) =
  pushes p (start_event k) c && fits (p :: cs) ks.
Proof. by destruct c. Qed.

Lemma fits_cons c cs k ks :
  fits (c :: cs) (k :: ks) = true ->
  exists p cs', cs = p :: cs' /\ pushes p (start_event k) c = true /\
                fits cs ks = true.
Proof.
  destruct cs as [|p cs']; [by destruct c|]. rewrite fits_eq.
  intros [? ?]%andb_true_iff. by exists p, cs'.
Qed.

Lemma fits_nil cs : fits cs [] = true -> cs = [cRoot].
Proof. by destruct cs as [|[] [|? ?]]. Qed.

Lemma fits_nonempty cs ks : fits cs ks = true -> exists p rest, cs = p :: rest.
Proof. destruct cs as [|p rest]; [done|]. by exists p, rest. Qed.

Lemma fits_push p rest k c ks :
  fits (p :: rest) ks = true -> pushes p (start_event k) c = true ->
  fits (c :: p :: rest) (k :: ks) = true.
Proof. intros Hf Hp. by rewrite fits_eq, Hp, Hf. Qed.

Lemma Parse_cons_inv fuel e es d d' :
  Parse fuel (e :: es) d = Ret (true, d') ->
  exists d1, DelegatedHandler_event fuel e d = Ret (true, d1) /\
             Parse fuel es d1 = Ret (true, d').
Proof.
  cbn [Parse]. unfold bindM.
  destruct (DelegatedHandler_event fuel e d) as [[[] d1]| |]; cbn;
    [|done..].
  intros Hrun. by exists d1.
Qed.

(** One accepted event keeps the stack fitted to the open brackets. *)
Lemma event_fits fuel e d d' ks ks' :
  alive d = true -> fits (classes d) ks = true ->
  brackets ks [e] = Some ks' ->
  DelegatedHandler_event fuel e d = Ret (true, d') ->
  alive d' = true /\ fits (classes d') ks' = true.
Proof.
  intros Ha Hf Hb Hrun.
  destruct (fits_nonempty _ _ Hf) as (p & rest & Hcs).
  destruct (event_moves fuel e d d' p rest Ha Hcs Hrun) as [Ha' Hmv].
  split; [done|]. rewrite Hcs in Hf.
  destruct e; cbn in Hb; simplify_eq; try (by rewrite Hmv).
  - destruct Hmv as (c & Hp & ->). by apply fits_push.
  - destruct ks as [|[] ks]; simplify_eq.
    by apply fits_cons in Hf as (? & ? & ? & ? & ?).
  - destruct Hmv as (c & Hp & ->). by apply fits_push.
  - destruct ks as [|[] ks]; simplify_eq.
    by apply fits_cons in Hf as (? & ? & ? & ? & ?).
Qed.

Lemma brackets_cons ks e es ks' :
  brackets ks (e :: es) = Some ks' ->
  exists ks1, brackets ks [e] = Some ks1 /\ brackets ks1 es = Some ks'.
Proof.
  destruct e; cbn; try (by eexists);
    destruct ks as [|[] ks]; try done; by eexists.
Qed.

Lemma Parse_fits fuel es :
  forall d d' ks ks',
    alive d = true -> fits (classes d) ks = true ->
    brackets ks es = Some ks' ->
    Parse fuel es d = Ret (true, d') ->
    alive d' = true /\ fits (classes d') ks' = true.
Proof.
  induction es as [|e es IH]; intros d d' ks ks' Ha Hf Hb Hrun.
  { injection Hb as <-. by injection Hrun as <-. }
  apply Parse_cons_inv in Hrun as (d1 & He & Hrun).
  apply brackets_cons in Hb as (ks1 & Hb1 & Hb).
  destruct (event_fits _ _ _ _ _ _ Ha Hf Hb1 He) as [Ha1 Hf1].
  by apply (IH d1 d' ks1 ks').
Qed.

(** While the brackets of the events match, the stack of handlers follows
    the open brackets: above the root handler there is one handler for
    each open bracket, and each one is a handler that the one below it
    pushes when a bracket of that kind opens. *)
Theorem stack_follows_brackets (fuel : nat) (events : list Event)
    (ks : list bracket) (d : Delegator) :
  brackets [] events = Some ks ->
  Parse fuel events create = Ret (true, d) ->
  alive d = true /\ fits (classes d) ks = true.
Proof. intros Hb Hrun. by apply (Parse_fits fuel events create d [] ks). Qed.


(** What an accepted event does to the sequence of trees. *)
Lemma event_trees fuel e k st rest m a l d' :
  DelegatedHandler_event fuel e
    {| delegates := {| cur_key := k; state := st |} :: rest;
       result := m; alive := a; log := l |} = Ret (true, d') ->
  match st, e with
  | ArrayHandler_Tree, EStartObject => trees (result d') = trees m ++ [[]]
  | RegTree h, EEndObject _ =>
    exists ts x out,
      trees m = ts ++ [x] /\ trees (result d') = ts ++ [out] /\
      RegTreeHandler_EndObject_body fuel h = Ret (true, out)
  | _, _ => trees (result d') = trees m
  end.
Proof.
  intros Hrun.
  destruct (writes_model st e) eqn:Hw.
  - rewrite DelegatedHandler_event_top in Hrun.
    destruct st, e; try done; cbn in Hrun.
    + unfold XGBoostModelHandler_EndObject in Hrun.
      destruct (memberCount =? 2); cbn [negb] in Hrun; run_in Hrun;
        [|done].
      destruct (index version 0) as [v0| |]; [|done..].
      destruct (1 <=? v0), a; run_in Hrun; by simplify_eq.
    + unfold LearnerHandler_EndObject in Hrun. run_in Hrun.
      destruct a; by simplify_eq.
    + unfold LearnerParamHandler_String in Hrun. run_in Hrun.
      destruct (bool_decide (k = "base_score"));
        [|destruct (bool_decide (k = "num_class"));
          [|destruct (bool_decide (k = "num_feature"))]];
        by simplify_eq.
    + unfold RegTreeHandler_EndObject in Hrun. run_in Hrun.
      destruct (RegTreeHandler_EndObject_body fuel h) as [[ok' out]| |];
        [|done..].
      run_in Hrun. destruct (trees m) as [|t0 ts] eqn:Hts; [done|].
      run_in Hrun. destruct ok', a; simplify_eq. cbn [result trees].
      destruct (exists_last (l := t0 :: ts)) as (ts' & x & Hlast); [done|].
      exists ts', x, out. split; [done|]. split; [|done].
      change (match ts with [] => [] | _ :: _ => t0 :: removelast ts end)
        with (removelast (t0 :: ts)).
      by rewrite Hlast, removelast_last.
    + run_in Hrun. destruct a; by simplify_eq.
  - destruct (event_effect _ _ _ _ _ _ _ _ _ _ Hrun) as (_ & Hm & _).
    rewrite (Hm Hw). by destruct st, e.
Qed.

Lemma ne_size_eq {A : Type} n (v : list A) :
  ne_size n v = false -> size v = size_t_of_int n.
Proof. unfold ne_size. intros H%negb_false_iff%Z.eqb_eq. done. Qed.

(** The tree of a tree object that closes mirrors arrays that encode a
    tree. *)
Lemma body_finished fuel h out :
  RegTreeHandler_EndObject_body fuel h = Ret (true, out) -> finished out.
Proof.
  unfold RegTreeHandler_EndObject_body.
  destruct (num_nodes h) as [n|]; [|done].
  destruct (size_mismatch n h) eqn:Hmis; [done|].
  intros (out' & Hrun & [= ->])%bind_Ret.
  assert (Hsz : sizes_agree (size_t_of_int n) h).
  { unfold size_mismatch in Hmis. rewrite !orb_false_iff in Hmis.
    destruct Hmis as [[[[[[[[[? ?] ?] ?] ?] ?] ?] ?] ?] ?].
    repeat split; by apply ne_size_eq. }
  destruct (reconstruct_Ret_encodes _ _ _ _ _ Hrun) as (W & HW & Henc & Hw).
  destruct W as [|[[? ?] t] [|? ?]]; try done. cbn in HW. simplify_eq.
  destruct (reconstruct_spec h _ Hsz fuel [(0, 0, t)] Init)
    as (out' & Hrun' & Hmir & _ & Hcount); [done| | |done|].
  { apply NoDup_singleton. }
  { by repeat constructor. }
  cbn in Hrun'. assert (out' = out) as -> by congruence.
  apply Forall_cons in Henc as [Henc _]. apply Forall_cons in Hmir as [Hmir _].
  exists h, t. split; [exact Henc|]. split; [exact Hmir|].
  change (size Init) with 1 in Hcount. unfold weight in Hcount.
  cbn in Hcount. lia.
Qed.

Lemma fits_above_root c cs ks :
  fits (c :: cs) ks = true -> c <> cRoot ->
  exists p cs' k ks',
    cs = p :: cs' /\ ks = k :: ks' /\ pushes p (start_event k) c = true /\
    fits (p :: cs') ks' = true.
Proof.
  intros Hf Hc. destruct ks as [|k ks'].
  { apply fits_nil in Hf. congruence. }
  apply fits_cons in Hf as (p & cs' & -> & Hp & Hf). by exists p, cs', k, ks'.
Qed.

Lemma fits_root cs ks : fits (cRoot :: cs) ks = true -> cs = [].
Proof.
  destruct ks as [|k ks'].
  - intros Hf%fits_nil. congruence.
  - intros (p & cs' & -> & Hp & Hf)%fits_cons. by destruct p, k.
Qed.

(** Below the handler of the array of trees are the handlers of the
    objects that lead to it, and no other. *)
Lemma fits_TreeArray cs ks :
  fits (cTreeArray :: cs) ks = true ->
  cs = [cGBTreeModel; cGradientBooster; cLearner; cXGBoostModel; cRoot].
Proof.
  intros Hf.
  do 5 (apply fits_above_root in Hf as (p & ? & k & ? & -> & -> & Hp & Hf);
        [|done]; destruct p, k; try done; clear Hp).
  by apply fits_root in Hf as ->.
Qed.

Lemma fits_RegTree cs ks :
  fits (cRegTree :: cs) ks = true ->
  cs = [cTreeArray; cGBTreeModel; cGradientBooster; cLearner; cXGBoostModel;
        cRoot] /\ exists ks', ks = curly :: ks'.
Proof.
  intros Hf.
  apply fits_above_root in Hf as (p & cs' & k & ks' & -> & -> & Hp & Hf);
    [|done].
  destruct p, k; try done. apply fits_TreeArray in Hf as ->.
  split; [done|]. by eexists.
Qed.

Lemma not_elem_of_path (cs : list HandlerClass) :
  cs = [cTreeArray; cGBTreeModel; cGradientBooster; cLearner; cXGBoostModel;
        cRoot] ->
  cRegTree ∉ cs.
Proof.
  intros -> H. repeat (apply elem_of_cons in H as [?|H]; [done|]).
  by apply elem_of_nil in H.
Qed.

Lemma all_but_open_iff base d d' :
  trees (result d') = trees (result d) ->
  (cRegTree ∈ classes d' <-> cRegTree ∈ classes d) ->
  all_but_open base d -> all_but_open base d'.
Proof.
  intros Ht Hiff (outs & Houts & Hclosed & Hopen). exists outs.
  rewrite Ht. split; [done|]. split.
  - intros H. apply Hclosed. by rewrite <- Hiff.
  - intros H. apply Hopen. by rewrite <- Hiff.
Qed.

Lemma class_TreeArray st : class_of st = cTreeArray -> st = ArrayHandler_Tree.
Proof. by destruct st. Qed.

Lemma class_RegTree st : class_of st = cRegTree -> exists h, st = RegTree h.
Proof. destruct st; try done. by eexists. Qed.

Lemma all_but_open_push base d d' c :
  trees (result d') = trees (result d) ->
  classes d' = c :: classes d -> c <> cRegTree ->
  all_but_open base d -> all_but_open base d'.
Proof.
  intros Ht Hcs Hc. apply all_but_open_iff; [done|]. rewrite Hcs.
  rewrite elem_of_cons. split; [|by right]. intros [?|?]; [congruence|done].
Qed.

Lemma all_but_open_pop base d d' c :
  trees (result d') = trees (result d) ->
  classes d = c :: classes d' -> c <> cRegTree ->
  all_but_open base d -> all_but_open base d'.
Proof.
  intros Ht Hcs Hc. apply all_but_open_iff; [done|]. rewrite Hcs.
  rewrite elem_of_cons. split; [by right|]. intros [?|?]; [congruence|done].
Qed.

(** One accepted event keeps the trees finished but for an open one. *)
Lemma event_all_but_open base fuel e d d' ks ks' :
  alive d = true -> fits (classes d) ks = true ->
  brackets ks [e] = Some ks' ->
  DelegatedHandler_event fuel e d = Ret (true, d') ->
  all_but_open base d -> all_but_open base d'.
Proof.
  intros Ha Hf Hb Hrun Hinv.
  destruct (fits_nonempty _ _ Hf) as (p & cs & Hcs).
  destruct (event_moves fuel e d d' p cs Ha Hcs Hrun) as [_ Hmv].
  destruct d as [[|[k st] rest] m a l]; [done|].
  assert (Hp : class_of st = p).
  { unfold classes in Hcs. cbn in Hcs. congruence. }
  pose proof (event_trees _ _ _ _ _ _ _ _ _ Hrun) as Ht.
  rewrite Hcs in Hf.
  assert (Hplain : plain e -> all_but_open base d').
  { intros He. revert Hinv. apply all_but_open_iff.
    - by destruct st, e.
    - rewrite Hcs. by destruct e; try done; rewrite Hmv. }
  destruct e; try (by apply Hplain).
  - (* an object opens *)
    destruct Hmv as (c & Hc & Hcs').
    destruct (decide (p = cTreeArray)) as [->|Hst].
    + apply class_TreeArray in Hp as ->. destruct c; try done. clear Hc.
      destruct Hinv as (outs & Houts & Hclosed & _). cbn in Houts.
      exists (outs ++ [[]]). rewrite Ht, Houts, Hcs'.
      split; [by rewrite (assoc_L (++))|]. split.
      * intros H. exfalso. apply H. apply elem_of_cons. by left.
      * intros _. exists outs, []. split; [done|]. apply Hclosed.
        rewrite Hcs. apply fits_TreeArray in Hf as ->.
        intros H. repeat (apply elem_of_cons in H as [?|H]; [done|]).
        by apply elem_of_nil in H.
    + revert Hinv. apply all_but_open_push with c.
      * by destruct st.
      * by rewrite Hcs', Hcs.
      * intros ->. apply Hst. by destruct p.
  - (* an object closes *)
    destruct (decide (p = cRegTree)) as [->|Hne].
    + apply class_RegTree in Hp as [h ->].
      destruct Ht as (ts & x & out & Hm & Hm' & Hbody). cbn in Hm.
      apply fits_RegTree in Hf as [Hpath _].
      destruct Hinv as (outs & Houts & _ & Hopen). cbn in Houts.
      destruct Hopen as (prior & x' & -> & Hprior).
      { rewrite Hcs. apply elem_of_cons. by left. }
      rewrite Hm, (assoc_L (++)) in Houts.
      apply app_inj_tail in Houts as [-> _].
      exists (prior ++ [out]). rewrite Hm', Hmv.
      split; [by rewrite (assoc_L (++))|]. split.
      * intros _. apply Forall_app. split; [done|].
        apply Forall_singleton. by apply body_finished with fuel h.
      * intros H. by apply not_elem_of_path in H.
    + revert Hinv. apply all_but_open_pop with p; [|by rewrite Hcs, Hmv|done].
      by destruct st.
  - (* an array opens *)
    destruct Hmv as (c & Hc & Hcs').
    revert Hinv. apply all_but_open_push with c.
    + by destruct st.
    + by rewrite Hcs', Hcs.
    + intros ->. by destruct p.
  - (* an array closes *)
    destruct (decide (p = cRegTree)) as [->|Hne].
    + apply fits_RegTree in Hf as [_ [ks0 ->]]. done.
    + revert Hinv. apply all_but_open_pop with p; [|by rewrite Hcs, Hmv|done].
      by destruct st.
Qed.

Lemma Parse_all_but_open base fuel es :
  forall d d' ks ks',
    alive d = true -> fits (classes d) ks = true ->
    brackets ks es = Some ks' ->
    Parse fuel es d = Ret (true, d') ->
    all_but_open base d -> all_but_open base d'.
Proof.
  induction es as [|e es IH]; intros d d' ks ks' Ha Hf Hb Hrun Hinv.
  { by injection Hrun as <-. }
  apply Parse_cons_inv in Hrun as (d1 & He & Hrun).
  apply brackets_cons in Hb as (ks1 & Hb1 & Hb).
  destruct (event_fits _ _ _ _ _ _ Ha Hf Hb1 He) as [Ha1 Hf1].
  apply (IH d1 d' ks1 ks'); try done.
  by apply (event_all_but_open base fuel e d d1 ks ks1).
Qed.

(** Every tree of a model that was loaded from events whose brackets match
    is the tree that [RegTreeHandler::EndObject] builds from arrays that
    encode a tree: it mirrors those arrays from its root, and has one node
    for each node of the tree they encode. *)
Theorem loaded_trees_are_finished (fuel : nat) (doc : list Event)
    (m : ModelImpl) :
  brackets [] doc = Some [] ->
  ParseStream fuel doc = Ret (Model m) ->
  exists outs, trees m = trees Model_Create ++ outs /\ Forall finished outs.
Proof.
  intros Hb Hrun. unfold ParseStream in Hrun.
  apply bind_Ret in Hrun as ([[] d] & Hrun & Hm); cbn in Hm; [|done].
  injection Hm as <-.
  destruct (Parse_fits fuel doc create d [] [] eq_refl eq_refl Hb Hrun)
    as [_ Hf].
  destruct (Parse_all_but_open (trees Model_Create) fuel doc create d [] []
              eq_refl eq_refl Hb Hrun) as (outs & Houts & Hclosed & _).
  { exists []. split; [by rewrite (right_id_L [] (++))|]. split; [done|].
    intros H. apply elem_of_cons in H as [?|H]; [done|].
    by apply elem_of_nil in H. }
  exists outs. split; [done|]. apply Hclosed.
  apply fits_nil in Hf. rewrite Hf. intros H.
  apply elem_of_cons in H as [?|H]; [done|]. by apply elem_of_nil in H.
Qed.


Lemma closes_cons ks e es :
  closes ks (e :: es) = true ->
  (exists ks1, brackets ks [e] = Some ks1 /\ closes ks1 es = true) \/
  (es = [] /\
   ((exists memberCount, e = EEndObject memberCount) /\ ks = [curly] \/
    (exists elementCount, e = EEndArray elementCount) /\ ks = [square])).
Proof.
  destruct e; cbn; try (left; by eexists).
  - destruct ks as [|[] [|k ks]]; try done.
    + destruct es; [|done]. intros _. right. split; [done|]. left.
      split; [by eexists|done].
    + intros H. left. by eexists.
  - destruct ks as [|[] [|k ks]]; try done.
    + destruct es; [|done]. intros _. right. split; [done|]. right.
      split; [by eexists|done].
    + intros H. left. by eexists.
Qed.

Lemma fits_single cs k :
  fits cs [k] = true -> cs = [cXGBoostModel; cRoot] /\ k = curly.
Proof.
  destruct cs as [|c cs]; [done|].
  intros (p & cs' & -> & Hp & Hnil%fits_nil)%fits_cons.
  injection Hnil as -> ->. by destruct c, k.
Qed.

Lemma closes_finalises fuel es :
  forall d d' ks,
    alive d = true -> fits (classes d) ks = true ->
    closes ks es = true ->
    Parse fuel es d = Ret (true, d') ->
    random_forest_flag (result d') = false.
Proof.
  induction es as [|e es IH]; intros d d' ks Ha Hf Hc Hrun; [done|].
  apply Parse_cons_inv in Hrun as (d1 & He & Hrun).
  apply closes_cons in Hc
    as [(ks1 & Hb & Hc)|[-> [[[mc ->] ->]|[[ec ->] ->]]]].
  - destruct (event_fits _ _ _ _ _ _ Ha Hf Hb He) as [Ha1 Hf1].
    by apply (IH d1 d' ks1).
  - injection Hrun as <-. apply fits_single in Hf as [Hcs _].
    destruct d as [[|[k st] rest] m a l]; [done|].
    unfold classes in Hcs. cbn in Hcs.
    destruct st; try done. rewrite DelegatedHandler_event_top in He.
    cbn in He. unfold XGBoostModelHandler_EndObject in He.
    destruct (mc =? 2); cbn [negb] in He; run_in He; [|done].
    destruct (index version 0) as [v0| |]; [|done..].
    destruct (1 <=? v0), a; run_in He; by simplify_eq.
  - by apply fits_single in Hf as [_ ?].
Qed.

(** The model loaded from the events of one JSON value has had its
    [random_forest_flag] cleared: the value is an object, the handler of
    that object is the one that takes its last event, and it accepts that
    event only through the branch that clears the flag. *)
Theorem loaded_model_is_finalised (fuel : nat) (doc : list Event)
    (m : ModelImpl) :
  json_value doc = true ->
  ParseStream fuel doc = Ret (Model m) ->
  random_forest_flag m = false.
Proof.
  intros Hdoc Hrun. unfold ParseStream in Hrun.
  apply bind_Ret in Hrun as ([[] d] & Hrun & Hm); cbn in Hm; [|done].
  injection Hm as <-.
  destruct doc as [|e es]; [done|].
  apply Parse_cons_inv in Hrun as (d1 & He & Hrun).
  destruct e; try done.
  destruct (event_fits fuel EStartObject create d1 [] [curly])
    as [Ha1 Hf1]; try done.
  by apply (closes_finalises fuel es d1 d [curly]).
Qed.

End Stack.

(** ** The keys of the handlers along a load *)

Section Keys.
Context `{T : Treelite}.







































Lemma classes_frames d : classes d = snd <$> frames d.
Proof. unfold classes, frames. by rewrite <- list_fmap_compose. Qed.











End Keys.

(** * The theorems on a sample document *)

Import Sample.

Lemma three_nodes_well_formed : well_formed three_nodes (SNode SLeaf SLeaf).
Proof.
  exists 3. split; [reflexivity|]. split; [by vm_compute|].
  split; [by vm_compute|].
  apply encodes_node with 1 2; [reflexivity|lia|reflexivity|..];
    by apply encodes_leaf.
Qed.

Lemma end_object_mirrors_arrays_witness :
  exists (out : Tree) d',
    RegTreeHandler_EndObject 3 12 (after 0 (to_tree_close three_nodes)) =
    Ret (true, d') /\
    trees (result d') =
      removelast (trees (result (after 0 (to_tree_close three_nodes)))) ++
      [out] /\
    delegates d' = tail (delegates (after 0 (to_tree_close three_nodes))) /\
    mirrors three_nodes out 0 0 /\
    size out = 3.
Proof.
  apply (end_object_mirrors_arrays three_nodes (SNode SLeaf SLeaf)
           "default_left"
           (tail (delegates (after 0 (to_tree_close three_nodes))))).
  - by vm_compute.
  - by vm_compute.
  - by vm_compute.
  - exact three_nodes_well_formed.
  - vm_compute. lia.
Defined.

Lemma end_object_rejects_size_mismatch_witness :
  ParseStream 3 (document [1; 0; 0] "gbtree" [short_sum_hessian]) =
  Ret (Fatal []).
Proof.
  destruct (end_object_rejects_size_mismatch short_sum_hessian 3
              "default_left"
              (tail (delegates (after 3 (to_tree_close short_sum_hessian))))
              (after 3 (to_tree_close short_sum_hessian)) 3 12)
    as (d' & _ & _ & _ & _ & Hload).
  - by vm_compute.
  - by vm_compute.
  - reflexivity.
  - by vm_compute.
  - by vm_compute.
  - intros (_ & Hsize & _). by vm_compute in Hsize.
  - apply (Hload (to_tree_close short_sum_hessian)
                 (skipn (S (length (to_tree_close short_sum_hessian)))
                        (document [1; 0; 0] "gbtree" [short_sum_hessian]))).
    by vm_compute.
Defined.

Lemma version_gates_bias_transform_witness :
  (exists d',
     XGBoostModelHandler_EndObject [1; 0; 0] 2
       (after 3 (to_model_close [1; 0; 0] [three_nodes])) = Ret (true, d') /\
     global_bias (param (result d')) = 10) /\
  (exists d',
     XGBoostModelHandler_EndObject [0; 90; 0] 2
       (after 3 (to_model_close [0; 90; 0] [three_nodes])) =
     Ret (true, d') /\
     global_bias (param (result d')) = 5) /\
  one_value (document [1; 0; 0] "gbtree" [three_nodes]) = true /\
  (transforms 3 (document [1; 0; 0]%Z "gbtree" [three_nodes]) create <= 1)%nat.
Proof.
  split; [|split; [|split]].
  - destruct (proj1 version_gates_bias_transform 1 [0; 0] "learner"
                [ {| cur_key := ""; state := RootHandler |} ]
                (after 3 (to_model_close [1; 0; 0] [three_nodes])))
      as (d' & Hrun & Hge & _); [by vm_compute..|].
    exists d'. split; [exact Hrun|]. rewrite Hge; [reflexivity|lia].
  - destruct (proj1 version_gates_bias_transform 0 [90; 0] "learner"
                [ {| cur_key := ""; state := RootHandler |} ]
                (after 3 (to_model_close [0; 90; 0] [three_nodes])))
      as (d' & Hrun & _ & _ & Hzero & _); [by vm_compute..|].
    exists d'. split; [exact Hrun|]. rewrite Hzero; reflexivity.
  - vm_compute. reflexivity.
  - apply (proj2 version_gates_bias_transform 3%nat
             (document [1; 0; 0] "gbtree" [three_nodes])).
    vm_compute. reflexivity.
Defined.

Lemma model_object_member_count_witness :
  ParseStream 3 (to_model_close [1; 0; 0] [three_nodes] ++ [EEndObject 3]) =
  Ret (Fatal []) /\
  exists d',
    ParseStream 3 (to_model_close [1; 0; 0] [three_nodes] ++ [EEndObject 2]) =
    Ret (Model (result d')) /\
    delegates d' = [ {| cur_key := ""; state := RootHandler |} ].
Proof.
  destruct (model_object_member_count [1; 0; 0] "learner"
              [ {| cur_key := ""; state := RootHandler |} ]
              (after 3 (to_model_close [1; 0; 0] [three_nodes])) 3)
    as [Hne _]; [by vm_compute|].
  destruct (model_object_member_count [1; 0; 0] "learner"
              [ {| cur_key := ""; state := RootHandler |} ]
              (after 3 (to_model_close [1; 0; 0] [three_nodes])) 2)
    as [_ Heq]; [by vm_compute|].
  split.
  - destruct Hne as [_ Hload]; [lia|].
    apply (Hload 3%nat (to_model_close [1; 0; 0] [three_nodes]) []).
    by vm_compute.
  - destruct Heq as (d' & _ & Hds & _ & Hload); [reflexivity|by vm_compute..|].
    exists d'. split; [|exact Hds].
    apply (Hload 3%nat (to_model_close [1; 0; 0] [three_nodes])).
    by vm_compute.
Defined.

Lemma tree_param_string_by_key_witness :
  (exists d',
     TreeParamHandler_String "3" (after 0 (to_tree_param "num_nodes")) =
     Ret (true, d') /\
     enclosing d' =
     Ret ({| cur_key := "tree_param";
             state := RegTree (with_num_nodes 3 empty_RegTreeHandler) |},
          d')) /\
  TreeParamHandler_String "0" (after 0 (to_tree_param "num_deleted")) =
  Ret (true, after 0 (to_tree_param "num_deleted")) /\
  ParseStream 0 (to_tree_param "num_leaves" ++ [EString "2"]) =
  Ret (Fatal []).
Proof.
  split; [|split].
  - destruct (tree_param_string_by_key "3" "num_nodes" "tree_param"
                empty_RegTreeHandler
                (skipn 2 (delegates (after 0 (to_tree_param "num_nodes"))))
                (after 0 (to_tree_param "num_nodes")))
      as [Hnum _]; [by vm_compute|].
    destruct Hnum as (d' & Hrun & Hds & _); [reflexivity|].
    exists d'. split; [exact Hrun|].
    unfold enclosing, get_delegates, bindM, ret. cbn [bind].
    by rewrite Hds.
  - destruct (tree_param_string_by_key "0" "num_deleted" "tree_param"
                empty_RegTreeHandler
                (skipn 2 (delegates (after 0 (to_tree_param "num_deleted"))))
                (after 0 (to_tree_param "num_deleted")))
      as (_ & Hignored & _); [by vm_compute|].
    apply Hignored. by right; right.
  - destruct (tree_param_string_by_key "2" "num_leaves" "tree_param"
                empty_RegTreeHandler
                (skipn 2 (delegates (after 0 (to_tree_param "num_leaves"))))
                (after 0 (to_tree_param "num_leaves")))
      as (_ & _ & Hother); [by vm_compute|].
    destruct Hother as [_ Hload]; [by vm_compute..|].
    apply (Hload 0%nat (to_tree_param "num_leaves") []). by vm_compute.
Defined.

Lemma learner_param_num_class_clamped_witness :
  exists d',
    LearnerParamHandler_String "0" (after 0 (to_learner_param "num_class")) =
    Ret (true, d') /\
    num_output_group (result d') = 1.
Proof.
  destruct (learner_param_num_class_clamped "0"
              (tail (delegates (after 0 (to_learner_param "num_class"))))
              (after 0 (to_learner_param "num_class")))
    as (d' & Hrun & Hmax & _); [by vm_compute|].
  exists d'. split; [exact Hrun|]. rewrite Hmax. reflexivity.
Defined.

Lemma three_nodes_same_but_unused : same_but_unused three_nodes other_unused.
Proof. by vm_compute. Qed.

Lemma unused_arrays_do_not_matter_witness :
  RegTreeHandler_EndObject_body 3 three_nodes =
  RegTreeHandler_EndObject_body 3 other_unused.
Proof.
  apply (unused_arrays_do_not_matter three_nodes other_unused
           three_nodes_same_but_unused).
Defined.

Lemma version_front_needs_element_witness :
  XGBoostModelHandler_EndObject [] 2
    (after 3 (to_model_close [] [three_nodes])) = Undefined.
Proof.
  apply (version_front_needs_element [] "learner"
           [ {| cur_key := ""; state := RootHandler |} ]
           (after 3 (to_model_close [] [three_nodes]))).
  - by vm_compute.
  - reflexivity.
Defined.

Lemma gradient_booster_name_gbtree_witness :
  GradientBoosterHandler_String "gbtree" (after 0 (document_head [1; 0; 0])) =
  Ret (true, after 0 (document_head [1; 0; 0])).
Proof.
  apply (gradient_booster_name_gbtree "name"
           (tail (delegates (after 0 (document_head [1; 0; 0]))))
           (after 0 (document_head [1; 0; 0]))).
  - by vm_compute.
  - reflexivity.
Defined.

Lemma learner_param_other_keys_witness :
  exists d',
    LearnerParamHandler_String "5" (after 0 (to_learner_param "base_score")) =
    Ret (true, d') /\
    global_bias (param (result d')) = 5.
Proof.
  destruct (learner_param_other_keys "5" "base_score"
              (tail (delegates (after 0 (to_learner_param "base_score"))))
              (after 0 (to_learner_param "base_score")))
    as [Hbias _]; [by vm_compute|].
  destruct Hbias as (d' & Hrun & Hb & _); [reflexivity|].
  exists d'. split; [exact Hrun|]. rewrite Hb. reflexivity.
Defined.

Lemma learner_unknown_member_rejected_witness :
  ParseStream 0 [EStartObject; EKey "learner"; EStartObject;
                 EKey "feature_names"; EStartObject] = Ret (Fatal []).
Proof.
  destruct (learner_unknown_member_rejected "" "feature_names"
              (tail (delegates
                       (after 0 [EStartObject; EKey "learner"; EStartObject;
                                 EKey "feature_names"])))
              (after 0 [EStartObject; EKey "learner"; EStartObject;
                        EKey "feature_names"]))
    as [_ Hload]; [by vm_compute..|].
  apply (Hload 0%nat [EStartObject; EKey "learner"; EStartObject;
                      EKey "feature_names"] []).
  by vm_compute.
Defined.

Lemma load_leaves_root_handler_witness :
  delegates (after 3 (document [1; 0; 0] "gbtree" [three_nodes])) =
  [ {| cur_key := ""; state := RootHandler |} ].
Proof.
  destruct (load_leaves_root_handler 3
              (document [1; 0; 0] "gbtree" [three_nodes])
              (after 3 (document [1; 0; 0] "gbtree" [three_nodes])))
    as [_ Hlen]; [vm_compute; reflexivity..|].
  vm_compute. reflexivity.
Defined.

Lemma shared_child_well_formed : well_formed shared_child (SNode SLeaf SLeaf).
Proof.
  exists 2. split; [reflexivity|]. split; [by vm_compute|].
  split; [by vm_compute|].
  apply encodes_node with 1 1; [reflexivity|lia|reflexivity|..];
    by apply encodes_leaf.
Qed.

Lemma end_object_completes_iff_encodes_witness :
  exists out, RegTreeHandler_EndObject_body 3 shared_child = Ret (true, out).
Proof.
  destruct (end_object_completes_iff_encodes shared_child 3)
    as [[_ Hback] _].
  - by vm_compute.
  - intros n [= <-]. by vm_compute.
  - apply Hback. exists (SNode SLeaf SLeaf).
    split; [exact shared_child_well_formed|]. cbn. lia.
Defined.

Lemma out_of_range_child_is_undefined_witness :
  exists fuel0, forall fuel, (fuel0 <= fuel)%nat ->
    RegTreeHandler_EndObject_body fuel dangling_child = Undefined.
Proof.
  destruct (out_of_range_child_is_undefined dangling_child 2) as [Hbad _].
  - reflexivity.
  - by vm_compute.
  - by vm_compute.
  - apply Hbad. exists 5. split; [|lia]. apply rtc_once.
    exists 1. split; [reflexivity|]. split; [lia|]. by right.
Defined.

Lemma self_loop_visited (i : Z) : visited self_loop i -> i = 0.
Proof.
  unfold visited. apply (rtc_ind_r (fun j => j = 0)); [done|].
  intros y z _ (lc & Hlc & _ & Hz) ->. vm_compute in Hlc.
  destruct Hz as [->|Hz]; [congruence|]. vm_compute in Hz. congruence.
Qed.

Lemma cyclic_arrays_never_finish_witness :
  RegTreeHandler_EndObject_body 100 self_loop = OutOfFuel.
Proof.
  destruct (cyclic_arrays_never_finish self_loop 1 0) as [_ Hloop].
  - reflexivity.
  - by vm_compute.
  - by vm_compute.
  - apply rtc_refl.
  - apply tc_once. exists 0. split; [reflexivity|]. split; [lia|]. by left.
  - apply Hloop. intros i ->%self_loop_visited. lia.
Defined.

Lemma zero_nodes_reads_out_of_bounds_witness :
  ParseStream 1 (document [1; 0; 0] "gbtree" [no_nodes]) = Undefined.
Proof.
  destruct (zero_nodes_reads_out_of_bounds no_nodes "default_left"
              (tail (delegates (after 1 (to_tree_close no_nodes))))
              (after 1 (to_tree_close no_nodes)) 0 12)
    as (_ & _ & Hload).
  - by vm_compute.
  - reflexivity.
  - by vm_compute.
  - apply (Hload (to_tree_close no_nodes)
                 (skipn (S (length (to_tree_close no_nodes)))
                        (document [1; 0; 0] "gbtree" [no_nodes]))).
    by vm_compute.
Defined.

Lemma ignore_handler_skips_value_witness :
  Parse 0 [EKey "best_iteration"; EStartArray; ENull; EEndArray 1;
           EEndObject 1]
    (after 0 (to_learner_member "attributes" ++ [EStartObject])) =
  Ret (true, after 0 (to_learner_member "attributes")).
Proof.
  apply (ignore_handler_skips_value 0
           [EKey "best_iteration"; EStartArray; ENull; EEndArray 1;
            EEndObject 1] 0
           [ {| cur_key := ""; state := IgnoreHandler |} ]
           (delegates (after 0 (to_learner_member "attributes")))
           (after 0 (to_learner_member "attributes" ++ [EStartObject]))).
  - by vm_compute.
  - by vm_compute.
  - by repeat constructor.
  - reflexivity.
  - reflexivity.
Defined.

Lemma ignored_members_change_nothing_witness :
  Parse 0 [EStartObject; EKey "best_iteration"; EString "3"; EEndObject 1]
    (after 0 (to_learner_member "attributes")) =
  Ret (true, after 0 (to_learner_member "attributes")).
Proof.
  apply (ignored_members_change_nothing 0 EStartObject
           [EKey "best_iteration"; EString "3"; EEndObject 1]
           "attributes" (LearnerHandler "")
           (tail (delegates (after 0 (to_learner_member "attributes"))))).
  - by vm_compute.
  - by vm_compute.
  - reflexivity.
  - reflexivity.
Defined.

Lemma load_logs_at_most_one_line_witness :
  exists msg,
    handler_error msg /\
    ParseStream 3 (document [1; 0; 0] "gblinear" [three_nodes]) =
    Ret (Fatal [msg]).
Proof.
  destruct (load_logs_at_most_one_line 3
              (document [1; 0; 0] "gblinear" [three_nodes])) as [_ Herr].
  destruct (Herr [booster_type_error]) as [Hnil|(msg & Hmsg & Heq)].
  - by vm_compute.
  - done.
  - exists msg. split; [exact Hmsg|]. rewrite <- Heq. by vm_compute.
Defined.

Lemma finished_trees_are_frozen_witness :
  trees (result (after 3 (to_second_tree ++ after_second_tree))) !! 0%nat =
  trees (result (after 3 to_second_tree)) !! 0%nat.
Proof.
  destruct (finished_trees_are_frozen 3 after_second_tree
              (after 3 to_second_tree)
              (after 3 (to_second_tree ++ after_second_tree)) true)
    as [_ Hfrozen].
  - by vm_compute.
  - apply Hfrozen. vm_compute. lia.
Defined.

Lemma only_five_methods_write_the_model_witness :
  result (after 0 (to_tree_param "num_nodes" ++ [EString "3"])) =
  result (after 0 (to_tree_param "num_nodes")).
Proof.
  destruct (only_five_methods_write_the_model 0 (EString "3")
              {| cur_key := "num_nodes"; state := TreeParamHandler |}
              (tail (delegates (after 0 (to_tree_param "num_nodes"))))
              (after 0 (to_tree_param "num_nodes"))
              (after 0 (to_tree_param "num_nodes" ++ [EString "3"])) true)
    as [Hresult _].
  - by vm_compute.
  - reflexivity.
  - by vm_compute.
  - exact Hresult.
Defined.

Lemma tree_members_accumulate_witness :
  exists k',
    Parse 0
      (concat (member_events <$>
                 [member_ints ref_left_children [1; -1; -1]; member_id 0;
                  member_tree_param [("num_nodes", "3")]]))
      (after 0 to_tree_open) =
    Ret (true,
      {| delegates :=
           {| cur_key := k';
              state := RegTree
                (foldl apply_member empty_RegTreeHandler
                   [member_ints ref_left_children [1; -1; -1]; member_id 0;
                    member_tree_param [("num_nodes", "3")]]) |} ::
           tail (delegates (after 0 to_tree_open));
         result := result (after 0 to_tree_open); alive := true;
         log := log (after 0 to_tree_open) |}).
Proof.
  apply (tree_members_accumulate 0
           [member_ints ref_left_children [1; -1; -1]; member_id 0;
            member_tree_param [("num_nodes", "3")]]
           "" empty_RegTreeHandler
           (tail (delegates (after 0 to_tree_open))) (after 0 to_tree_open)).
  - by vm_compute.
  - by vm_compute.
  - repeat (apply Forall_cons; split); try (by apply Forall_nil); cbn; auto.
Defined.

Lemma three_nodes_ints_ok : ints_ok three_nodes.
Proof.
  unfold ints_ok, three_nodes. cbn.
  repeat split; repeat (apply Forall_cons; split; [by vm_compute|]);
    by apply Forall_nil.
Qed.



Lemma tree_object_round_trip_witness :
  exists out,
    Parse 3 (tree_object (members_of "2" "3" three_nodes))
      (after 0 to_trees_open) =
    Ret (true,
      {| delegates := delegates (after 0 to_trees_open);
         result := add_trees (result (after 0 to_trees_open)) [out];
         alive := true; log := log (after 0 to_trees_open) |}) /\
    mirrors three_nodes out 0 0 /\ size out = 3.
Proof.
  apply (tree_object_round_trip 3 "2" "3" three_nodes (SNode SLeaf SLeaf)
           "" (tail (delegates (after 0 to_trees_open)))).
  - by vm_compute.
  - by vm_compute.
  - exact three_nodes_ints_ok.
  - reflexivity.
  - exact three_nodes_well_formed.
  - cbn. lia.
Defined.



Lemma objective_name_selects_pred_transform_witness :
  exists d',
    Parse 0 (objective_object ["reg:logistic"; "binary:logistic"] ++
             [EEndObject 1])
      (after 0 [EStartObject; EKey "learner"; EStartObject]) =
    Ret (true, d') /\
    pred_transform (param (result d')) = "binary:logistic".
Proof.
  destruct (objective_name_selects_pred_transform 0
              ["reg:logistic"; "binary:logistic"] "" "" 1
              (tail (delegates
                       (after 0 [EStartObject; EKey "learner"; EStartObject])))
              (after 0 [EStartObject; EKey "learner"; EStartObject]))
    as (d' & Hrun & _ & Hparam & _).
  - by vm_compute.
  - by vm_compute.
  - exists d'. split; [exact Hrun|]. rewrite Hparam. reflexivity.
Defined.

Lemma gradient_booster_unknown_member_witness :
  ParseStream 0 (to_booster_member "weights" ++ [EStartObject]) =
  Ret (Fatal [unknown_key_error "weights"]).
Proof.
  destruct (gradient_booster_unknown_member "weights"
              (tail (delegates (after 0 (to_booster_member "weights"))))
              (after 0 (to_booster_member "weights")))
    as [_ Hother].
  - by vm_compute.
  - by vm_compute.
  - destruct Hother as [_ Hload]; [done|].
    apply (Hload 0%nat (to_booster_member "weights") []). by vm_compute.
Defined.

Lemma tree_object_unknown_member_rejected_witness :
  ParseStream 0 (to_tree_open ++ [EKey "feature_map"; EStartArray]) =
  Ret (Fatal []).
Proof.
  destruct (tree_object_unknown_member_rejected 0 EStartArray "feature_map"
              empty_RegTreeHandler
              (tail (delegates
                       (after 0 (to_tree_open ++ [EKey "feature_map"]))))
              (after 0 (to_tree_open ++ [EKey "feature_map"])))
    as [_ Hload].
  - by vm_compute.
  - cbn. unfold tree_array_keys. rewrite !elem_of_cons, elem_of_nil.
    intuition discriminate.
  - apply (Hload (to_tree_open ++ [EKey "feature_map"]) []). by vm_compute.
Defined.

Lemma tree_member_order_is_irrelevant_witness :
  outcome (Parse 0
             (tree_object [member_ints ref_left_children [-1];
                           member_tree_param [("num_nodes", "1")]])
             (after 0 to_trees_open)) =
  outcome (Parse 0
             (tree_object [member_tree_param [("num_nodes", "1")];
                           member_ints ref_left_children [-1]])
             (after 0 to_trees_open)).
Proof.
  destruct (tree_member_order_is_irrelevant 0
              [member_ints ref_left_children [-1];
               member_tree_param [("num_nodes", "1")]]
              [member_tree_param [("num_nodes", "1")];
               member_ints ref_left_children [-1]]
              "" (tail (delegates (after 0 to_trees_open)))
              (after 0 to_trees_open))
    as (_ & Hsame & _).
  - by vm_compute.
  - by vm_compute.
  - repeat (apply Forall_cons; split); try (by apply Forall_nil); cbn; auto.
  - cbn. apply NoDup_cons. split; [|apply NoDup_singleton].
    rewrite list_elem_of_singleton. discriminate.
  - apply perm_swap.
  - exact Hsame.
Defined.

Lemma stack_follows_brackets_witness :
  alive (after 0 (to_tree_param "num_nodes")) = true /\
  fits (classes (after 0 (to_tree_param "num_nodes")))
       [curly; curly; square; curly; curly; curly; curly] = true.
Proof.
  apply (stack_follows_brackets 0 (to_tree_param "num_nodes")
           [curly; curly; square; curly; curly; curly; curly]
           (after 0 (to_tree_param "num_nodes")));
    vm_compute; reflexivity.
Defined.

Lemma loaded_trees_are_finished_witness :
  exists outs,
    trees (result (after 3 (document [1; 0; 0] "gbtree" [three_nodes]))) =
    trees Model_Create ++ outs /\
    Forall finished outs.
Proof.
  apply (loaded_trees_are_finished 3
           (document [1; 0; 0] "gbtree" [three_nodes])
           (result (after 3 (document [1; 0; 0] "gbtree" [three_nodes]))));
    vm_compute; reflexivity.
Defined.

Lemma loaded_model_is_finalised_witness :
  random_forest_flag
    (result (after 3 (document [1; 0; 0] "gbtree" [three_nodes]))) = false.
Proof.
  apply (loaded_model_is_finalised 3
           (document [1; 0; 0] "gbtree" [three_nodes])
           (result (after 3 (document [1; 0; 0] "gbtree" [three_nodes]))));
    vm_compute; reflexivity.
Defined.




